(** * juju-core: topology, relationer, provisioner, hook tools, MAAS, tools
    list, configuration, connection and commands

    A shallow embedding of the Go sources and the properties checked on it.
    Each Go package gets a module; Go values keep their Go names.

    Conventions of the embedding
    - Go's [int] is the 64-bit two's complement integer of amd64: a [Z]
      together with [Go.wrap] wherever the source does arithmetic.
    - A Go map is [Go.gomap V]: [None] is the nil map (reads succeed, a
      write panics), [Some m] an allocated table.
    - A Go slice is [Go.slice A]: [None] is the nil slice.
    - A call either returns or panics: [Go.outcome].
    - [fmt.Errorf] is kept as a value (format and arguments) and rendered by
      [Go.Error]; the quoting done by the [%q] verb ([strconv.Quote]) is an
      argument of the renderer. *)

From Stdlib Require Import ZArith Lia String Ascii.
From stdpp Require Import gmap strings list pretty sorting.

Open Scope Z_scope.

(* ===================================================================== *)
(** * Go runtime notions shared by the packages *)
(* ===================================================================== *)
Module Go.

(** ** Machine integers *)

Definition int_min : Z := - 2 ^ 63.
Definition int_max : Z := 2 ^ 63 - 1.

(** Two's complement wrap-around of a mathematical integer into [int]. *)
Definition wrap (z : Z) : Z := (z + 2 ^ 63) mod 2 ^ 64 - 2 ^ 63.

(** [a + b] on [int]. *)
Definition int_add (a b : Z) : Z := wrap (a + b).

(** ** Calls that may panic *)

Inductive outcome (A : Type) : Type :=
| Returned (a : A)
| Panicked (msg : string).
Arguments Returned {A} a.
Arguments Panicked {A} msg.

Definition obind {A B} (f : A -> outcome B) (o : outcome A) : outcome B :=
  match o with
  | Returned a => f a
  | Panicked msg => Panicked msg
  end.

#[global] Instance outcome_bind : MBind outcome := @obind.
#[global] Instance outcome_ret : MRet outcome := @Returned.

(** ** Maps and slices *)

Definition gomap (V : Type) : Type := option (gmap string V).
Definition slice (A : Type) : Type := option (list A).

(** [v, ok := m[k]]: reading the nil map finds nothing. *)
Definition map_get {V} (m : gomap V) (k : string) : option V :=
  match m with
  | None => None
  | Some g => g !! k
  end.

(** [m[k] = v]: writing the nil map panics. *)
Definition map_set {V} (m : gomap V) (k : string) (v : V) : outcome (gomap V) :=
  match m with
  | None => Panicked "assignment to entry in nil map"
  | Some g => Returned (Some (<[k := v]> g))
  end.

(** [delete(m, k)]: a no-op on the nil map. *)
Definition map_delete {V} (m : gomap V) (k : string) : gomap V :=
  match m with
  | None => None
  | Some g => Some (delete k g)
  end.

(** [for k, v := range m]: the entries, in the order they are visited.
    Go leaves the order unspecified; [map_to_list] is one such order. *)
Definition map_range {V} (m : gomap V) : list (string * V) :=
  match m with
  | None => []
  | Some g => map_to_list g
  end.

(** [len(s)] *)
Definition len {A} (s : slice A) : nat :=
  match s with
  | None => 0%nat
  | Some l => length l
  end.

(** ** Errors and formatting *)

Inductive arg : Type :=
| Str (s : string)
| Int (z : Z).

(** An error value: built by [fmt.Errorf], or one whose text is given
    ([errors.New], errors of other libraries). *)
Inductive error : Type :=
| Errorf (format : string) (args : list arg)
| ErrNew (msg : string).

(** The output of one verb.  The sources use [%q] and [%s] with strings and
    [%d] with ints; any other pairing is reported the way fmt does. *)
Definition verb (Quote : string -> string) (c : ascii) (a : arg) : string :=
  match a with
  | Str s =>
      if Ascii.eqb c "q" then Quote s
      else if Ascii.eqb c "s" then s
      else "%!" +:+ String c ("(string=" +:+ s +:+ ")")
  | Int z =>
      if Ascii.eqb c "d" then pretty z
      else "%!" +:+ String c ("(int=" +:+ pretty z +:+ ")")
  end.

(** [fmt.Sprintf], for formats made of plain text and one-letter verbs. *)
Fixpoint Sprintf (Quote : string -> string) (format : string) (args : list arg) : string :=
  match format with
  | EmptyString => EmptyString
  | String c rest =>
      if Ascii.eqb c "%" then
        match rest with
        | EmptyString => "%!(NOVERB)"
        | String v rest' =>
            match args with
            | [] => "%!" +:+ String v ("(MISSING)" +:+ Sprintf Quote rest' [])
            | a :: args' => verb Quote v a +:+ Sprintf Quote rest' args'
            end
        end
      else String c (Sprintf Quote rest args)
  end.

(** [err.Error()] *)
Definition Error (Quote : string -> string) (e : error) : string :=
  match e with
  | Errorf format args => Sprintf Quote format args
  | ErrNew msg => msg
  end.

(** [strings.Contains(s, sub)] *)
Fixpoint Contains (s sub : string) : bool :=
  String.prefix sub s ||
  match s with
  | EmptyString => false
  | String _ s' => Contains s' sub
  end.

(** ** Facts about the runtime notions *)

Lemma wrap_in_range (z : Z) : int_min <= z <= int_max -> wrap z = z.
Proof.
  unfold wrap, int_min, int_max. intros Hz.
  rewrite Z.mod_small; lia.
Qed.

Lemma int_add_1 (n : Z) : int_min <= n < int_max -> int_add n 1 = n + 1.
Proof.
  intros Hn. unfold int_add. apply wrap_in_range.
  unfold int_min, int_max in *. lia.
Qed.

Lemma append_empty_r (s : string) : s +:+ EmptyString = s.
Proof.
  induction s as [|c s IH]; [done |].
  change (String c (s +:+ EmptyString) = String c s). by rewrite IH.
Qed.

Lemma Contains_unfold (s sub : string) :
  Contains s sub =
  String.prefix sub s ||
  match s with
  | EmptyString => false
  | String _ s' => Contains s' sub
  end.
Proof. by destruct s. Qed.

Lemma Contains_here (s sub : string) :
  String.prefix sub s = true -> Contains s sub = true.
Proof. intros H. by rewrite Contains_unfold, H. Qed.

Lemma Contains_cons (c : ascii) (s sub : string) :
  Contains s sub = true -> Contains (String c s) sub = true.
Proof. intros H. rewrite Contains_unfold, H. apply orb_true_r. Qed.

Lemma Contains_app_r (s t sub : string) :
  Contains t sub = true -> Contains (s +:+ t) sub = true.
Proof.
  intros H. induction s as [|c s IH]; [done |].
  change (String c s +:+ t) with (String c (s +:+ t)).
  by apply Contains_cons.
Qed.

Lemma prefix_append (a s : string) :
  String.prefix a s = true <-> exists post, s = a +:+ post.
Proof.
  revert s. induction a as [|c a IH]; intros s.
  - split; [intros _; by exists s | by destruct s].
  - destruct s as [|d s]; cbn.
    + split; [done | by intros [post ?]].
    + destruct (ascii_dec c d) as [->|Hne].
      * rewrite IH. split; intros [post H]; exists post.
        -- by rewrite H.
        -- change (String d a +:+ post) with (String d (a +:+ post)) in H. congruence.
      * split; [done |]. intros [post H].
        change (String c a +:+ post) with (String c (a +:+ post)) in H. congruence.
Qed.

(** [Contains s sub] holds exactly when [sub] occurs in [s]. *)
Lemma Contains_occurs (s sub : string) :
  Contains s sub = true <-> exists pre post, s = pre +:+ sub +:+ post.
Proof.
  split.
  - induction s as [|c s IH]; rewrite Contains_unfold, orb_true_iff.
    + intros [H|H]; [|done]. apply prefix_append in H as [post H].
      by exists EmptyString, post.
    + intros [H|H].
      * apply prefix_append in H as [post H]. by exists EmptyString, post.
      * destruct (IH H) as (pre & post & ->). by exists (String c pre), post.
  - intros (pre & post & ->). apply Contains_app_r, Contains_here, prefix_append.
    by exists post.
Qed.

(** ** Searching and slicing strings *)

(** The index of the first instance of [sub] in [s], if any. *)
Fixpoint index_of (s sub : string) : option nat :=
  if String.prefix sub s then Some 0%nat
  else match s with
       | EmptyString => None
       | String _ s' => S <$> index_of s' sub
       end.

(** [strings.Index(s, sub)]: the index of the first instance of sub in s,
    or -1 if sub is not present in s. *)
Definition Index (s sub : string) : Z :=
  match index_of s sub with
  | Some i => Z.of_nat i
  | None => -1
  end.

(** [s[lo:hi]], which panics unless 0 <= lo <= hi <= len(s). *)
Definition slice_string (s : string) (lo hi : Z) : outcome string :=
  if decide (0 <= lo /\ lo <= hi /\ hi <= Z.of_nat (String.length s))
  then Returned (String.substring (Z.to_nat lo) (Z.to_nat (hi - lo)) s)
  else Panicked "slice bounds out of range".

Lemma index_of_unfold (s sub : string) :
  index_of s sub =
  if String.prefix sub s then Some 0%nat
  else match s with
       | EmptyString => None
       | String _ s' => S <$> index_of s' sub
       end.
Proof. by destruct s. Qed.

Lemma index_of_Contains (s sub : string) :
  is_Some (index_of s sub) <-> Contains s sub = true.
Proof.
  induction s as [|c s IH]; rewrite index_of_unfold, Contains_unfold.
  - destruct (String.prefix sub EmptyString); cbn; [by split; eauto |].
    split; [by intros [? ?] | done].
  - destruct (String.prefix sub (String c s)); cbn; [by split; eauto |].
    rewrite <- IH. destruct (index_of s sub); cbn; split; intros [? ?]; by eauto.
Qed.

Lemma index_of_bound (s sub : string) (i : nat) :
  index_of s sub = Some i -> (i <= String.length s)%nat.
Proof.
  revert i. induction s as [|c s IH]; intros i; rewrite index_of_unfold.
  - destruct (String.prefix sub EmptyString); [intros [= <-]; cbn; lia | done].
  - destruct (String.prefix sub (String c s)); [intros [= <-]; cbn; lia |].
    destruct (index_of s sub) as [j|]; [|done]. intros [= <-].
    specialize (IH j eq_refl). cbn. lia.
Qed.

(** The first instance of a one-byte separator. *)
Lemma index_of_separator (c : ascii) (pre post : string) :
  Contains pre (String c EmptyString) = false ->
  index_of (pre +:+ String c post) (String c EmptyString) = Some (String.length pre).
Proof.
  induction pre as [|d pre IH]; intros Hpre.
  - change (EmptyString +:+ String c post) with (String c post).
    rewrite index_of_unfold. cbn. destruct (ascii_dec c c); [|done]. by destruct post.
  - rewrite Contains_unfold in Hpre. apply orb_false_iff in Hpre as [Hd Hpre].
    change (String d pre +:+ String c post) with (String d (pre +:+ String c post)).
    rewrite index_of_unfold. cbn in Hd |- *.
    destruct (ascii_dec c d) as [->|Hne].
    + by destruct pre.
    + by rewrite (IH Hpre).
Qed.

Lemma index_of_separator_lt (c : ascii) (s : string) (i : nat) :
  index_of s (String c EmptyString) = Some i -> (i < String.length s)%nat.
Proof.
  revert i. induction s as [|d s IH]; intros i; rewrite index_of_unfold; cbn; [done |].
  destruct (ascii_dec c d) as [_|_].
  - destruct s; intros [= <-]; lia.
  - destruct (index_of s (String c EmptyString)) as [j|]; [|done].
    intros [= <-]. specialize (IH j eq_refl). lia.
Qed.

Lemma length_append (s t : string) :
  String.length (s +:+ t) = (String.length s + String.length t)%nat.
Proof.
  induction s as [|c s IH]; [done |].
  change (String c s +:+ t) with (String c (s +:+ t)). cbn. by rewrite IH.
Qed.

Lemma substring_all (s : string) : String.substring 0 (String.length s) s = s.
Proof. induction s as [|c s IH]; [done |]. cbn. by rewrite IH. Qed.

Lemma substring_front (s t : string) :
  String.substring 0 (String.length s) (s +:+ t) = s.
Proof.
  induction s as [|c s IH]; [by destruct t |].
  change (String c s +:+ t) with (String c (s +:+ t)). cbn. by rewrite IH.
Qed.

Lemma substring_back (s t : string) :
  String.substring (String.length s) (String.length t) (s +:+ t) = t.
Proof.
  induction s as [|c s IH]; [apply substring_all |].
  change (String c s +:+ t) with (String c (s +:+ t)). cbn. apply IH.
Qed.

(** Finds a literal inside a text made of literal characters and opaque
    pieces appended to them. *)
Ltac find_literal :=
  first
    [ reflexivity
    | repeat first
        [ apply Contains_here; reflexivity
        | apply Contains_cons
        | apply Contains_app_r ] ].

(** ** Sorting strings *)

(** Go's order on strings: byte by byte, a proper prefix first. *)
Definition string_le (a b : string) : Prop := String.leb a b = true.

#[global] Instance string_le_dec (a b : string) : Decision (string_le a b).
Proof. unfold string_le. apply _. Defined.

(** [sort.Strings(keys)]: the keys in increasing order.  The order is
    total and antisymmetric, so the outcome does not depend on the sorting
    algorithm. *)
Definition sort_Strings (keys : list string) : list string :=
  merge_sort string_le keys.

Lemma string_le_total : Total string_le.
Proof. intros a b. apply String.leb_total. Qed.

End Go.

(* ===================================================================== *)
(** * package state: the topology document (topology.go) *)
(* ===================================================================== *)
Module Topology.
Import Go.

(** The protocol version stored under the "version" key. *)
Definition topologyVersion : Z := 1.

(** [zkUnit]: the unit data within the topology node. *)
Record zkUnit : Type := mkUnit {
  Sequence : Z;
  Machine : string
}.

(** [zkService]: the service data within the topology node.  The map holds
    [*zkUnit]; the entries are the structs they point to (no entry is a nil
    pointer: decoding a YAML mapping and the methods below store none). *)
Record zkService : Type := mkService {
  Name : string;
  Units : gomap zkUnit
}.

(** [zkTopology]: the content of the topology node.  [topology] wraps a
    pointer to it, so a method that mutates returns the new content.  Two
    keys of [Services] never share one [*zkService]. *)
Record zkTopology : Type := mkTopology {
  Version : Z;
  Services : gomap zkService;
  UnitSequence : gomap Z
}.

(** [m[k]] on [map[string]int]: the zero value when the key is absent. *)
Definition seq_index (m : gomap Z) (k : string) : Z :=
  match map_get m k with
  | Some n => n
  | None => 0
  end.

(** What a mutating method hands back: the document after the call and the
    method's results. *)
Definition method (R : Type) : Type := outcome (zkTopology * R).

(** [version] *)
Definition version (t : zkTopology) : Z := Version t.

(** [hasService] *)
Definition hasService (t : zkTopology) (key : string) : bool :=
  bool_decide (is_Some (map_get (Services t) key)).

(** The loop of [serviceKey]: the first visited service with that name. *)
Fixpoint find_name (entries : list (string * zkService)) (name : string) : option string :=
  match entries with
  | [] => None
  | (key, svc) :: rest =>
      if decide (Name svc = name) then Some key else find_name rest name
  end.

(** [serviceKey] *)
Definition serviceKey (t : zkTopology) (name : string) : string * option error :=
  match find_name (map_range (Services t)) name with
  | Some key => (key, None)
  | None => (EmptyString, Some (Errorf "service with name %q cannot be found" [Str name]))
  end.

(** [hasUnit] *)
Definition hasUnit (t : zkTopology) (serviceKey unitKey : string) : bool :=
  match map_get (Services t) serviceKey with
  | Some svc => bool_decide (is_Some (map_get (Units svc) unitKey))
  | None => false
  end.

(** [assertService] *)
Definition assertService (t : zkTopology) (serviceKey : string) : option error :=
  match map_get (Services t) serviceKey with
  | Some _ => None
  | None => Some (Errorf "service with key %q cannot be found" [Str serviceKey])
  end.

(** [assertUnit] *)
Definition assertUnit (t : zkTopology) (serviceKey unitKey : string) : option error :=
  match assertService t serviceKey with
  | Some err => Some err
  | None =>
      match map_get (Services t) serviceKey with
      | None => None
      | Some svc =>
          match map_get (Units svc) unitKey with
          | Some _ => None
          | None => Some (Errorf "unit with key %q cannot be found" [Str unitKey])
          end
      end
  end.

(** The loop of [addUnit] that checks the unit key is unused: the key of
    the first visited service that holds [unitKey]. *)
Fixpoint unit_in_use (entries : list (string * zkService)) (unitKey : string) : option string :=
  match entries with
  | [] => None
  | (key, svc) :: rest =>
      if decide (is_Some (map_get (Units svc) unitKey)) then Some key
      else unit_in_use rest unitKey
  end.

(** [svc.Units[unitKey] = u] for the service stored under [serviceKey]:
    the write goes through the pointer held in [Services]. *)
Definition set_unit (t : zkTopology) (serviceKey : string) (svc : zkService)
    (unitKey : string) (u : zkUnit) : outcome zkTopology :=
  units ← map_set (Units svc) unitKey u;
  services ← map_set (Services t) serviceKey (mkService (Name svc) units);
  mret (mkTopology (Version t) services (UnitSequence t)).

(** [addUnit] adds a new unit and returns the sequence number. *)
Definition addUnit (t : zkTopology) (serviceKey unitKey : string) : method (Z * option error) :=
  match assertService t serviceKey with
  | Some err => Returned (t, (-1, Some err))
  | None =>
      match unit_in_use (map_range (Services t)) unitKey with
      | Some key =>
          Returned (t, (-1, Some (Errorf "unit %q already in use in servie %q"
                                         [Str unitKey; Str key])))
      | None =>
          match map_get (Services t) serviceKey with
          | None => Panicked "invalid memory address or nil pointer dereference"
          | Some svc =>
              let sequenceNo := seq_index (UnitSequence t) (Name svc) in
              t1 ← set_unit t serviceKey svc unitKey (mkUnit sequenceNo EmptyString);
              counters ← map_set (UnitSequence t1) (Name svc)
                                 (int_add (seq_index (UnitSequence t1) (Name svc)) 1);
              mret (mkTopology (Version t1) (Services t1) counters, (sequenceNo, None))
          end
      end
  end.

(** [removeUnit] removes a unit from a service. *)
Definition removeUnit (t : zkTopology) (serviceKey unitKey : string) : method (option error) :=
  match assertUnit t serviceKey unitKey with
  | Some err => Returned (t, Some err)
  | None =>
      match map_get (Services t) serviceKey with
      | None => Panicked "invalid memory address or nil pointer dereference"
      | Some svc =>
          services ← map_set (Services t) serviceKey
                             (mkService (Name svc) (map_delete (Units svc) unitKey));
          mret (mkTopology (Version t) services (UnitSequence t), None)
      end
  end.

(** [unitName] returns the name of a unit by its service key and its own key. *)
Definition unitName (Quote : string -> string) (t : zkTopology) (serviceKey unitKey : string)
    : outcome (string * option error) :=
  match assertUnit t serviceKey unitKey with
  | Some err => Returned (EmptyString, Some err)
  | None =>
      match map_get (Services t) serviceKey with
      | None => Panicked "invalid memory address or nil pointer dereference"
      | Some svc =>
          match map_get (Units svc) unitKey with
          | None => Panicked "invalid memory address or nil pointer dereference"
          | Some unit =>
              Returned (Sprintf Quote "%s/%d" [Str (Name svc); Int (Sequence unit)], None)
          end
      end
  end.

(** [unitMachineKey] returns the key of the machine assigned to the unit;
    the empty key means none. *)
Definition unitMachineKey (t : zkTopology) (serviceKey unitKey : string)
    : outcome (string * option error) :=
  match assertUnit t serviceKey unitKey with
  | Some err => Returned (EmptyString, Some err)
  | None =>
      match map_get (Services t) serviceKey with
      | None => Panicked "invalid memory address or nil pointer dereference"
      | Some svc =>
          match map_get (Units svc) unitKey with
          | None => Panicked "invalid memory address or nil pointer dereference"
          | Some unit => Returned (Machine unit, None)
          end
      end
  end.

(** [unassignUnitFromMachine] unassigns the unit from its current machine. *)
Definition unassignUnitFromMachine (t : zkTopology) (serviceKey unitKey : string)
    : method (option error) :=
  match assertUnit t serviceKey unitKey with
  | Some err => Returned (t, Some err)
  | None =>
      match map_get (Services t) serviceKey with
      | None => Panicked "invalid memory address or nil pointer dereference"
      | Some svc =>
          match map_get (Units svc) unitKey with
          | None => Panicked "invalid memory address or nil pointer dereference"
          | Some unit =>
              if decide (Machine unit = EmptyString) then
                Returned (t, Some (Errorf "unit %q in service %q is not assigned to a machine"
                                          [Str unitKey; Str serviceKey]))
              else
                t1 ← set_unit t serviceKey svc unitKey (mkUnit (Sequence unit) EmptyString);
                mret (t1, None)
          end
      end
  end.

(** [parseTopology] returns the topology represented by yaml.
    [Unmarshal yaml out] stands for [goyaml.Unmarshal([]byte(yaml), out)]:
    it decodes into the struct it is handed, so a document without a
    "version" key keeps the version the struct was created with. *)
Definition parseTopology
    (Unmarshal : string -> zkTopology -> zkTopology * option error)
    (yaml : string) : option zkTopology * option error :=
  let t := mkTopology topologyVersion None None in
  match Unmarshal yaml t with
  | (_, Some err) => (None, Some err)
  | (t, None) =>
      if decide (Version t <> topologyVersion) then
        (None, Some (Errorf "incompatible topology versions: got %d, want %d"
                            [Int (Version t); Int topologyVersion]))
      else (Some t, None)
  end.

(** Modelled from the spec: [addService] and [removeService] are called by
    the tests of the package but are not among the sources.  By sections 3
    and 8 of the specification service keys and service names are unique, a
    duplicated key is refused with "attempted to add duplicated service",
    a duplicated name with "service name ... already in use", removing an
    unknown service fails like every other lookup of the key, and the
    mapping from service name to unit sequence counter is preserved across
    deletion and re-creation of a service. *)
Definition addService (t : zkTopology) (key name : string) : method (option error) :=
  if hasService t key then
    Returned (t, Some (Errorf "attempted to add duplicated service %q" [Str key]))
  else
    match serviceKey t name with
    | (_, None) => Returned (t, Some (Errorf "service name %q already in use" [Str name]))
    | (_, Some _) =>
        let services := match Services t with Some g => g | None => ∅ end in
        Returned (mkTopology (Version t)
                             (Some (<[key := mkService name (Some ∅)]> services))
                             (UnitSequence t), None)
    end.

Definition removeService (t : zkTopology) (key : string) : method (option error) :=
  match assertService t key with
  | Some err => Returned (t, Some err)
  | None =>
      Returned (mkTopology (Version t) (map_delete (Services t) key) (UnitSequence t), None)
  end.

(** ** Histories of changes

    The calls a client makes on one topology, and what each successful
    [addUnit] handed out. *)
Inductive call : Type :=
| AddService (key name : string)
| RemoveService (key : string)
| AddUnit (serviceKey unitKey : string)
| RemoveUnit (serviceKey unitKey : string)
| UnassignUnitFromMachine (serviceKey unitKey : string).

(** A successful [addUnit]: the name of the service at the time of the
    call, and the key and sequence number of the new unit. *)
Record added : Type := mkAdded {
  added_service : string;
  added_key : string;
  added_seq : Z
}.

(** One call: the document after it and what it adds to the history.  A
    call that returns an error leaves the document as it was. *)
Definition perform (t : zkTopology) (c : call) : outcome (zkTopology * list added) :=
  match c with
  | AddService key name =>
      r ← addService t key name; mret (r.1, [])
  | RemoveService key =>
      r ← removeService t key; mret (r.1, [])
  | AddUnit serviceKey unitKey =>
      r ← addUnit t serviceKey unitKey;
      match r.2.2, map_get (Services t) serviceKey with
      | None, Some svc => mret (r.1, [mkAdded (Name svc) unitKey r.2.1])
      | _, _ => mret (r.1, [])
      end
  | RemoveUnit serviceKey unitKey =>
      r ← removeUnit t serviceKey unitKey; mret (r.1, [])
  | UnassignUnitFromMachine serviceKey unitKey =>
      r ← unassignUnitFromMachine t serviceKey unitKey; mret (r.1, [])
  end.

(** A sequence of calls, oldest first; a panic ends it. *)
Fixpoint run (t : zkTopology) (calls : list call) : outcome (zkTopology * list added) :=
  match calls with
  | [] => mret (t, [])
  | c :: rest =>
      r1 ← perform t c;
      r2 ← run r1.1 rest;
      mret (r2.1, r1.2 ++ r2.2)
  end.


(** Some service of the document holds the unit key. *)
Definition key_in_use (t : zkTopology) (unitKey : string) : Prop :=
  exists key svc,
    map_get (Services t) key = Some svc /\ is_Some (map_get (Units svc) unitKey).

(** The unit sequence counter of a service name. *)
Definition counter (t : zkTopology) (name : string) : Z :=
  seq_index (UnitSequence t) name.

(** The numbers a history handed out are [int]s below the largest one, so
    the increments that followed them did not wrap around. *)
Definition below_max (log : list added) : Prop :=
  Forall (fun a => int_min <= added_seq a < int_max) log.

(** ** Documents used in the examples *)

(** A document with no service and no counter, both maps allocated. *)
Definition no_services : zkTopology := mkTopology topologyVersion (Some ∅) (Some ∅).


(** The document and the history a sequence of calls ends with (the
    document it began with, had it panicked). *)
Definition document_after (t : zkTopology) (calls : list call) : zkTopology :=
  match run t calls with
  | Returned (t', _) => t'
  | Panicked _ => t
  end.



(** One service, wordpress, without units and without a counter yet. *)
Definition one_service : zkTopology :=
  mkTopology topologyVersion
    (Some {[ "s-0" := mkService "wordpress" (Some ∅) ]})
    (Some ∅).

(** [one_service] after a unit u-0 was added to it. *)
Definition one_unit : zkTopology := document_after one_service [AddUnit "s-0" "u-0"].

(** A decoder for the examples: it understands the one-line document
    that sets the version to 2 and reads every other text as empty. *)
Definition decode_version_line (yaml : string) (out : zkTopology)
    : zkTopology * option error :=
  if decide (yaml = "version: 2")
  then (mkTopology 2 (Services out) (UnitSequence out), None)
  else (out, None).

(** ** Reading the two loops *)

Lemma unit_in_use_Some entries unitKey key :
  unit_in_use entries unitKey = Some key ->
  exists svc, (key, svc) ∈ entries /\ is_Some (map_get (Units svc) unitKey).
Proof.
  induction entries as [|[k svc] rest IH]; simpl; [done |].
  case_decide as Hu.
  - intros [= <-]. exists svc. split; [apply list_elem_of_here | done].
  - intros H. destruct (IH H) as (svc' & Hin & Hs).
    exists svc'. split; [by apply list_elem_of_further | done].
Qed.

Lemma unit_in_use_None entries unitKey :
  unit_in_use entries unitKey = None <->
  forall key svc, (key, svc) ∈ entries -> map_get (Units svc) unitKey = None.
Proof.
  induction entries as [|[k svc] rest IH]; simpl.
  - split; [intros _ key svc Hin; by apply elem_of_nil in Hin | done].
  - case_decide as Hu.
    + split; [done |]. intros H.
      specialize (H k svc (list_elem_of_here _ _)).
      rewrite H in Hu. by destruct Hu.
    + rewrite IH. split.
      * intros H key svc' Hin. apply elem_of_cons in Hin as [[= -> ->] | Hin].
        -- by apply eq_None_not_Some.
        -- by apply (H key).
      * intros H key svc' Hin. apply (H key). by apply list_elem_of_further.
Qed.

Lemma elem_of_map_range {V} (m : gomap V) (k : string) (v : V) :
  (k, v) ∈ map_range m <-> map_get m k = Some v.
Proof.
  destruct m as [g|]; simpl.
  - apply elem_of_map_to_list.
  - split; [intros H; by apply elem_of_nil in H | done].
Qed.

Lemma unit_in_use_key_in_use (t : zkTopology) (unitKey : string) :
  is_Some (unit_in_use (map_range (Services t)) unitKey) <-> key_in_use t unitKey.
Proof.
  split.
  - intros [key Hk]. apply unit_in_use_Some in Hk as (svc & Hin & Hs).
    exists key, svc. by rewrite <- elem_of_map_range.
  - intros (key & svc & Hget & Hs).
    destruct (unit_in_use (map_range (Services t)) unitKey) as [k|] eqn:E; [by eexists |].
    rewrite unit_in_use_None in E.
    rewrite (E key svc) in Hs; [by destruct Hs | by apply elem_of_map_range].
Qed.

(** ** What a call does to the document *)

(** A successful [addUnit]: the service exists, no service holds the key,
    the maps written are allocated, the number handed out is the counter of
    the service's name, and the document gets the unit and the advanced
    counter. *)
Lemma addUnit_ok_inv t serviceKey unitKey t' n :
  addUnit t serviceKey unitKey = Returned (t', (n, None)) ->
  exists svc g units counters,
    Services t = Some g /\ g !! serviceKey = Some svc /\
    ~ key_in_use t unitKey /\
    Units svc = Some units /\ UnitSequence t = Some counters /\
    n = seq_index (UnitSequence t) (Name svc) /\
    t' = mkTopology (Version t)
           (Some (<[serviceKey := mkService (Name svc)
                      (Some (<[unitKey := mkUnit n EmptyString]> units))]> g))
           (Some (<[Name svc := int_add n 1]> counters)).
Proof.
  unfold addUnit, assertService.
  destruct (map_get (Services t) serviceKey) as [svc|] eqn:Hsvc; [|done].
  destruct (unit_in_use (map_range (Services t)) unitKey) as [key|] eqn:Huse; [done |].
  unfold set_unit.
  destruct (Units svc) as [units|] eqn:Hunits; [|done].
  destruct (Services t) as [g|] eqn:Hg; [|done].
  destruct (UnitSequence t) as [counters|] eqn:Hc; [|done].
  cbn. intros [= <- <-].
  exists svc, g, units, counters.
  split_and!; try done.
  rewrite <- unit_in_use_key_in_use, Hg, Huse. by intros [? ?].
Qed.

(** An [addUnit] that returns an error hands back -1 and changes nothing. *)
Lemma addUnit_err_inv t serviceKey unitKey t' n err :
  addUnit t serviceKey unitKey = Returned (t', (n, Some err)) ->
  t' = t /\ n = -1.
Proof.
  unfold addUnit, assertService.
  destruct (map_get (Services t) serviceKey) as [svc|] eqn:Hsvc; [|by intros [= <- <-]].
  destruct (unit_in_use (map_range (Services t)) unitKey) as [key|] eqn:Huse;
    [by intros [= <- <-] |].
  unfold set_unit.
  destruct (Units svc), (Services t), (UnitSequence t); cbn; done.
Qed.

Lemma addService_counters t key name t' r :
  addService t key name = Returned (t', r) -> UnitSequence t' = UnitSequence t.
Proof.
  unfold addService. destruct (hasService t key); [by intros [= <- _] |].
  destruct (serviceKey t name) as [k [e|]]; by intros [= <- _].
Qed.

Lemma removeService_counters t key t' r :
  removeService t key = Returned (t', r) -> UnitSequence t' = UnitSequence t.
Proof.
  unfold removeService. destruct (assertService t key); by intros [= <- _].
Qed.

Lemma removeUnit_counters t serviceKey unitKey t' r :
  removeUnit t serviceKey unitKey = Returned (t', r) -> UnitSequence t' = UnitSequence t.
Proof.
  unfold removeUnit. destruct (assertUnit t serviceKey unitKey); [by intros [= <- _] |].
  destruct (map_get (Services t) serviceKey) as [svc|]; [|done].
  destruct (Services t); cbn; [|done]. by intros [= <- _].
Qed.

Lemma unassignUnitFromMachine_counters t serviceKey unitKey t' r :
  unassignUnitFromMachine t serviceKey unitKey = Returned (t', r) ->
  UnitSequence t' = UnitSequence t.
Proof.
  unfold unassignUnitFromMachine.
  destruct (assertUnit t serviceKey unitKey); [by intros [= <- _] |].
  destruct (map_get (Services t) serviceKey) as [svc|]; [|done].
  destruct (map_get (Units svc) unitKey) as [unit|]; [|done].
  case_decide; [by intros [= <- _] |].
  unfold set_unit. destruct (Units svc), (Services t); cbn; try done.
  by intros [= <- _].
Qed.

(** ** Histories: the counter of a name only grows *)

Lemma perform_counter t c t1 adds :
  perform t c = Returned (t1, adds) ->
  below_max adds ->
  (forall name, counter t name <= counter t1 name) /\
  (forall a, a ∈ adds ->
     added_seq a = counter t (added_service a) /\
     counter t1 (added_service a) = added_seq a + 1).
Proof.
  intros Hp Hmax.
  assert (Hsame : UnitSequence t1 = UnitSequence t -> adds = [] ->
    (forall name, counter t name <= counter t1 name) /\
    (forall a, a ∈ adds ->
       added_seq a = counter t (added_service a) /\
       counter t1 (added_service a) = added_seq a + 1)).
  { intros Hc ->. unfold counter. rewrite Hc.
    split; [lia | intros a Ha; by apply elem_of_nil in Ha]. }
  destruct c as [key name|key|sk uk|sk uk|sk uk]; cbn in Hp.
  - destruct (addService t key name) as [[t' r]|] eqn:E; [|done].
    cbn in Hp. injection Hp as <- <-. eauto using addService_counters.
  - destruct (removeService t key) as [[t' r]|] eqn:E; [|done].
    cbn in Hp. injection Hp as <- <-. eauto using removeService_counters.
  - destruct (addUnit t sk uk) as [[t' [n [err|]]]|] eqn:E; [| |done].
    + apply addUnit_err_inv in E as [-> ->]. cbn in Hp.
      destruct (map_get (Services t) sk); cbn in Hp; injection Hp as <- <-; by apply Hsame.
    + apply addUnit_ok_inv in E
        as (svc & g & units & counters & Hg & Hsvc & _ & _ & Hc & Hn & ->).
      cbn in Hp. rewrite Hg in Hp. cbn in Hp. rewrite Hsvc in Hp. cbn in Hp.
      injection Hp as <- <-.
      unfold below_max in Hmax. rewrite Forall_singleton in Hmax. cbn in Hmax.
      rewrite (int_add_1 _ Hmax).
      assert (Hcur : counter t (Name svc) = n) by done.
      split.
      * intros name. unfold counter, seq_index in *. rewrite Hc in *. cbn in *.
        destruct (decide (Name svc = name)) as [<-|Hne].
        -- rewrite lookup_insert_eq. lia.
        -- rewrite lookup_insert_ne by done. lia.
      * intros a Ha. apply list_elem_of_singleton in Ha as ->. cbn.
        split; [done |].
        unfold counter, seq_index. cbn. by rewrite lookup_insert_eq.
  - destruct (removeUnit t sk uk) as [[t' r]|] eqn:E; [|done].
    cbn in Hp. injection Hp as <- <-. eauto using removeUnit_counters.
  - destruct (unassignUnitFromMachine t sk uk) as [[t' r]|] eqn:E; [|done].
    cbn in Hp. injection Hp as <- <-. eauto using unassignUnitFromMachine_counters.
Qed.

Lemma run_cons_inv t c rest t' log :
  run t (c :: rest) = Returned (t', log) ->
  exists t1 adds log',
    perform t c = Returned (t1, adds) /\
    run t1 rest = Returned (t', log') /\
    log = adds ++ log'.
Proof.
  cbn. destruct (perform t c) as [[t1 adds]|] eqn:Hp; [|done]. cbn.
  destruct (run t1 rest) as [[t2 log']|] eqn:Hr; [|done]. cbn.
  intros [= <- <-]. by exists t1, adds, log'.
Qed.

(** Every number of a history is at least the counter its name had when
    the history began, and the counters never decrease. *)
Lemma run_counter t calls t' log :
  run t calls = Returned (t', log) ->
  below_max log ->
  (forall name, counter t name <= counter t' name) /\
  (forall a, a ∈ log ->
     counter t (added_service a) <= added_seq a < counter t' (added_service a)).
Proof.
  revert t t' log. induction calls as [|c rest IH]; intros t t' log Hr Hmax.
  - cbn in Hr. injection Hr as <- <-.
    split; [lia | intros a Ha; by apply elem_of_nil in Ha].
  - apply run_cons_inv in Hr as (t1 & adds & log' & Hp & Hr & ->).
    unfold below_max in Hmax. apply Forall_app in Hmax as [Hmax1 Hmax2].
    destruct (perform_counter _ _ _ _ Hp Hmax1) as [Hmono1 Hadds].
    destruct (IH _ _ _ Hr Hmax2) as [Hmono2 Hlog].
    split.
    + intros name. specialize (Hmono1 name). specialize (Hmono2 name). lia.
    + intros a Ha. apply elem_of_app in Ha as [Ha|Ha].
      * destruct (Hadds a Ha) as [H1 H2].
        specialize (Hmono2 (added_service a)). lia.
      * specialize (Hlog a Ha). specialize (Hmono1 (added_service a)). lia.
Qed.

(** Within a history the numbers handed out under one service name are
    strictly increasing. *)
Lemma run_increasing t calls t' log (i j : nat) a b :
  run t calls = Returned (t', log) ->
  below_max log ->
  (i < j)%nat ->
  log !! i = Some a -> log !! j = Some b ->
  added_service a = added_service b ->
  added_seq a < added_seq b.
Proof.
  revert t t' log i j. induction calls as [|c rest IH]; intros t t' log i j Hr Hmax Hij Ha Hb Hname.
  - cbn in Hr. injection Hr as <- <-. done.
  - apply run_cons_inv in Hr as (t1 & adds & log' & Hp & Hr & ->).
    unfold below_max in Hmax. apply Forall_app in Hmax as [Hmax1 Hmax2].
    destruct (perform_counter _ _ _ _ Hp Hmax1) as [Hmono1 Hadds].
    destruct (run_counter _ _ _ _ Hr Hmax2) as [_ Hlog].
    destruct (decide (i < length adds)%nat) as [Hi|Hi].
    + rewrite lookup_app_l in Ha by done.
      assert (Hin : a ∈ adds) by (apply list_elem_of_lookup; eauto).
      destruct (Hadds a Hin) as [_ Hnext].
      destruct (decide (j < length adds)%nat) as [Hj|Hj].
      * (* one call adds at most one unit *)
        exfalso. clear -Hp Hi Hj Hij.
        assert (length adds <= 1)%nat; [|lia].
        destruct c; cbn in Hp;
          repeat match type of Hp with
                 | context [obind _ ?o] => destruct o as [[? [? [?|]]]|]; cbn in Hp
                 | context [mbind _ ?o] => destruct o as [[? ?]|]; cbn in Hp
                 | context [match ?o with _ => _ end] => destruct o; cbn in Hp
                 end;
          try done; injection Hp as <- <-; cbn; lia.
      * rewrite lookup_app_r in Hb by lia.
        assert (Hinb : b ∈ log') by (apply list_elem_of_lookup; eauto).
        specialize (Hlog b Hinb). rewrite <- Hname in Hlog. lia.
    + rewrite lookup_app_r in Ha by lia. rewrite lookup_app_r in Hb by lia.
      eapply (IH _ _ _ (i - length adds)%nat (j - length adds)%nat); eauto. lia.
Qed.

(** ** The name of a unit just added *)






(** ** Unit keys *)








(** ** Reading a document *)

(** C2.  Whenever the YAML decodes and its version differs from the
    supported protocol version, 1, parseTopology returns no topology and
    an error whose text contains "incompatible topology versions"; when
    the version is the supported one it returns the decoded topology and
    no error; an error of the decoder is returned as it is, without a
    topology. *)
Theorem parseTopology_version (Quote : string -> string)
    (Unmarshal : string -> zkTopology -> zkTopology * option error)
    (yaml : string) (t : zkTopology) (oerr : option error) :
  Unmarshal yaml (mkTopology topologyVersion None None) = (t, oerr) ->
  topologyVersion = 1 /\
  (oerr = None -> Version t <> topologyVersion ->
     exists e, parseTopology Unmarshal yaml = (None, Some e) /\
               Contains (Error Quote e) "incompatible topology versions" = true) /\
  (oerr = None -> Version t = topologyVersion ->
     parseTopology Unmarshal yaml = (Some t, None)) /\
  (forall err, oerr = Some err -> parseTopology Unmarshal yaml = (None, Some err)).
Proof.
  intros HU. unfold parseTopology. rewrite HU. split_and!.
  - done.
  - intros -> Hv. rewrite decide_True by done.
    eexists. split; [done |]. cbn. find_literal.
  - intros -> Hv. by rewrite decide_False by (intros H; by apply H).
  - by intros err ->.
Qed.

(** A document of version 2. *)
Lemma parseTopology_version_witness :
  topologyVersion = 1 /\
  (@None error = None -> 2 <> topologyVersion ->
     exists e, parseTopology decode_version_line "version: 2" = (None, Some e) /\
               Contains (Error (fun s => s) e) "incompatible topology versions" = true) /\
  (@None error = None -> 2 = topologyVersion ->
     parseTopology decode_version_line "version: 2"
       = (Some (mkTopology 2 None None), None)) /\
  (forall err, None = Some err ->
     parseTopology decode_version_line "version: 2" = (None, Some err)).
Proof.
  apply (parseTopology_version (fun s => s) decode_version_line "version: 2"
           (mkTopology 2 None None) None).
  reflexivity.
Defined.

(* --------------------------------------------------------------------- *)
(** ** The remaining methods of topology.go *)
(* --------------------------------------------------------------------- *)

(** [unitKeys] returns the unit keys for all units of the service with the
    given service key in alphabetical order. *)
Definition unitKeys (t : zkTopology) (serviceKey : string)
    : outcome (slice string * option error) :=
  match assertService t serviceKey with
  | Some err => Returned (None, Some err)
  | None =>
      match map_get (Services t) serviceKey with
      | None => Panicked "invalid memory address or nil pointer dereference"
      | Some svc => Returned (Some (sort_Strings (map_range (Units svc)).*1), None)
      end
  end.

(** The loop of [unitKeyFromSequence]: the key of the first visited unit
    with that sequence number. *)
Fixpoint find_sequence (entries : list (string * zkUnit)) (sequenceNo : Z) : option string :=
  match entries with
  | [] => None
  | (key, unit) :: rest =>
      if decide (Sequence unit = sequenceNo) then Some key
      else find_sequence rest sequenceNo
  end.

(** [unitKeyFromSequence] returns the key of a unit by its service key and
    its sequence number. *)
Definition unitKeyFromSequence (t : zkTopology) (serviceKey : string) (sequenceNo : Z)
    : outcome (string * option error) :=
  match assertService t serviceKey with
  | Some err => Returned (EmptyString, Some err)
  | None =>
      match map_get (Services t) serviceKey with
      | None => Panicked "invalid memory address or nil pointer dereference"
      | Some svc =>
          match find_sequence (map_range (Units svc)) sequenceNo with
          | Some key => Returned (key, None)
          | None =>
              Returned (EmptyString,
                        Some (Errorf "unit with sequence number %d cannot be found"
                                     [Int sequenceNo]))
          end
      end
  end.

(** Every unit carries a number below the counter of its service's name. *)
Definition sequences_below_counter (t : zkTopology) : Prop :=
  forall key svc unitKey unit,
    map_get (Services t) key = Some svc ->
    map_get (Units svc) unitKey = Some unit ->
    Sequence unit < counter t (Name svc).

(** No two units of services with one name carry the same number: the
    pairs of service name and sequence, hence the unit names, are unique. *)
Definition distinct_sequences (t : zkTopology) : Prop :=
  forall key1 key2 svc1 svc2 unitKey1 unitKey2 unit1 unit2,
    map_get (Services t) key1 = Some svc1 ->
    map_get (Services t) key2 = Some svc2 ->
    map_get (Units svc1) unitKey1 = Some unit1 ->
    map_get (Units svc2) unitKey2 = Some unit2 ->
    Name svc1 = Name svc2 ->
    Sequence unit1 = Sequence unit2 ->
    key1 = key2 /\ unitKey1 = unitKey2.

Lemma elem_of_unit_keys (units : gomap zkUnit) (key : string) :
  key ∈ (map_range units).*1 <-> is_Some (map_get units key).
Proof.
  rewrite list_elem_of_fmap. split.
  - intros ([k u] & -> & Hin). apply elem_of_map_range in Hin. by eexists.
  - intros [u Hu]. exists (key, u). split; [done |]. by apply elem_of_map_range.
Qed.

(** X1.  unitKeys fails with "cannot be found" for an unknown service;
    for a known one it returns, without error, the keys of exactly the
    units the service holds, each once, in increasing order. *)
Theorem unitKeys_sorted_keys (t : zkTopology) (serviceKey : string) :
  match map_get (Services t) serviceKey with
  | None =>
      unitKeys t serviceKey =
        Returned (None, Some (Errorf "service with key %q cannot be found" [Str serviceKey]))
  | Some svc =>
      exists keys,
        unitKeys t serviceKey = Returned (Some keys, None) /\
        Sorted string_le keys /\
        NoDup keys /\
        forall unitKey, unitKey ∈ keys <-> hasUnit t serviceKey unitKey = true
  end.
Proof.
  unfold unitKeys, assertService, hasUnit.
  destruct (map_get (Services t) serviceKey) as [svc|] eqn:Hsvc; [|done].
  eexists. split; [done |]. unfold sort_Strings. split_and!.
  - apply Sorted_merge_sort, string_le_total.
  - rewrite merge_sort_Permutation.
    destruct (Units svc) as [g|]; cbn; [apply NoDup_fst_map_to_list | constructor].
  - intros unitKey. rewrite merge_sort_Permutation, elem_of_unit_keys.
    by rewrite bool_decide_eq_true.
Qed.

Lemma find_sequence_Some entries sequenceNo key :
  find_sequence entries sequenceNo = Some key ->
  exists unit, (key, unit) ∈ entries /\ Sequence unit = sequenceNo.
Proof.
  induction entries as [|[k u] rest IH]; cbn; [done |].
  case_decide as Hs.
  - intros [= <-]. exists u. split; [apply list_elem_of_here | done].
  - intros H. destruct (IH H) as (unit & Hin & Hseq).
    exists unit. split; [by apply list_elem_of_further | done].
Qed.

Lemma find_sequence_None entries sequenceNo :
  find_sequence entries sequenceNo = None <->
  forall key unit, (key, unit) ∈ entries -> Sequence unit <> sequenceNo.
Proof.
  induction entries as [|[k u] rest IH]; cbn.
  - split; [intros _ key unit Hin; by apply elem_of_nil in Hin | done].
  - case_decide as Hs.
    + split; [done |]. intros H. by destruct (H k u (list_elem_of_here _ _)).
    + rewrite IH. split.
      * intros H key unit Hin. apply elem_of_cons in Hin as [[= -> ->] | Hin]; [done |].
        by apply (H key).
      * intros H key unit Hin. apply (H key). by apply list_elem_of_further.
Qed.

(** X2.  For a known service, unitKeyFromSequence either returns, without
    error, the key of a unit of that service that carries the sequence
    number, or fails with "cannot be found" and then no unit of the service
    carries it. *)
Theorem unitKeyFromSequence_finds (t : zkTopology) (serviceKey : string)
    (svc : zkService) (sequenceNo : Z) :
  map_get (Services t) serviceKey = Some svc ->
  (exists key unit,
     unitKeyFromSequence t serviceKey sequenceNo = Returned (key, None) /\
     map_get (Units svc) key = Some unit /\ Sequence unit = sequenceNo) \/
  (unitKeyFromSequence t serviceKey sequenceNo =
     Returned (EmptyString,
               Some (Errorf "unit with sequence number %d cannot be found" [Int sequenceNo])) /\
   forall key unit, map_get (Units svc) key = Some unit -> Sequence unit <> sequenceNo).
Proof.
  intros Hsvc. unfold unitKeyFromSequence, assertService. rewrite Hsvc.
  destruct (find_sequence (map_range (Units svc)) sequenceNo) as [key|] eqn:Hfind.
  - left. apply find_sequence_Some in Hfind as (unit & Hin & Hseq).
    exists key, unit. by rewrite <- elem_of_map_range.
  - right. split; [done |]. intros key unit Hu.
    rewrite find_sequence_None in Hfind. apply (Hfind key). by apply elem_of_map_range.
Qed.

(** *** Sequence numbers of the units a topology holds *)

(** The units of [t'] are units of [t]: same place, same service name,
    same number. *)
Definition units_from (t t' : zkTopology) : Prop :=
  forall key svc' unitKey unit',
    map_get (Services t') key = Some svc' ->
    map_get (Units svc') unitKey = Some unit' ->
    exists svc unit,
      map_get (Services t) key = Some svc /\
      map_get (Units svc) unitKey = Some unit /\
      Name svc = Name svc' /\ Sequence unit = Sequence unit'.

Lemma units_from_keeps t t' :
  units_from t t' -> UnitSequence t' = UnitSequence t ->
  sequences_below_counter t /\ distinct_sequences t ->
  sequences_below_counter t' /\ distinct_sequences t'.
Proof.
  intros Hfrom Hc [Hbelow Hdist]. split.
  - intros key svc' unitKey unit' Hs Hu.
    destruct (Hfrom _ _ _ _ Hs Hu) as (svc & unit & Hs0 & Hu0 & Hn & Hq).
    unfold counter. rewrite Hc, <- Hn, <- Hq. by apply (Hbelow key svc unitKey).
  - intros k1 k2 s1 s2 u1 u2 x1 x2 Hs1 Hs2 Hu1 Hu2 Hname Hseq.
    destruct (Hfrom _ _ _ _ Hs1 Hu1) as (s1' & x1' & ? & ? & Hn1 & Hq1).
    destruct (Hfrom _ _ _ _ Hs2 Hu2) as (s2' & x2' & ? & ? & Hn2 & Hq2).
    apply (Hdist k1 k2 s1' s2' u1 u2 x1' x2'); congruence.
Qed.

Lemma removeUnit_ok_inv t serviceKey unitKey t' :
  removeUnit t serviceKey unitKey = Returned (t', None) ->
  exists g svc unit,
    Services t = Some g /\ g !! serviceKey = Some svc /\
    map_get (Units svc) unitKey = Some unit /\
    t' = mkTopology (Version t)
           (Some (<[serviceKey := mkService (Name svc) (map_delete (Units svc) unitKey)]> g))
           (UnitSequence t).
Proof.
  unfold removeUnit, assertUnit, assertService.
  destruct (map_get (Services t) serviceKey) as [svc|] eqn:Hsvc; [|done].
  destruct (map_get (Units svc) unitKey) as [unit|] eqn:Hunit; [|done].
  destruct (Services t) as [g|] eqn:Hg; [|done]. cbn.
  intros [= <-]. by exists g, svc, unit.
Qed.

Lemma removeUnit_units_from t serviceKey unitKey t' :
  removeUnit t serviceKey unitKey = Returned (t', None) -> units_from t t'.
Proof.
  intros H. apply removeUnit_ok_inv in H as (g & svc & unit & Hg & Hsvc & Hunit & ->).
  intros key svc' uk' unit' Hs Hu. cbn in Hs. rewrite Hg. cbn.
  destruct (decide (serviceKey = key)) as [<-|Hne].
  - rewrite lookup_insert_eq in Hs. injection Hs as <-. cbn in Hu.
    exists svc, unit'. split_and!; try done.
    destruct (Units svc) as [units|]; cbn in *; [|done].
    apply lookup_delete_Some in Hu as [_ Hu]. done.
  - rewrite lookup_insert_ne in Hs by done. by exists svc', unit'.
Qed.

Lemma unassignUnitFromMachine_ok_inv t serviceKey unitKey t' :
  unassignUnitFromMachine t serviceKey unitKey = Returned (t', None) ->
  exists g svc units unit,
    Services t = Some g /\ g !! serviceKey = Some svc /\
    Units svc = Some units /\ units !! unitKey = Some unit /\
    Machine unit <> EmptyString /\
    t' = mkTopology (Version t)
           (Some (<[serviceKey := mkService (Name svc)
                      (Some (<[unitKey := mkUnit (Sequence unit) EmptyString]> units))]> g))
           (UnitSequence t).
Proof.
  unfold unassignUnitFromMachine, assertUnit, assertService.
  destruct (map_get (Services t) serviceKey) as [svc|] eqn:Hsvc; [|done].
  destruct (map_get (Units svc) unitKey) as [unit|] eqn:Hunit; [|done].
  case_decide as Hm; [done |]. unfold set_unit.
  destruct (Units svc) as [units|] eqn:Hunits; [|done].
  destruct (Services t) as [g|] eqn:Hg; [|done]. cbn.
  intros [= <-]. by exists g, svc, units, unit.
Qed.

Lemma unassignUnitFromMachine_units_from t serviceKey unitKey t' :
  unassignUnitFromMachine t serviceKey unitKey = Returned (t', None) -> units_from t t'.
Proof.
  intros H. apply unassignUnitFromMachine_ok_inv in H
    as (g & svc & units & unit & Hg & Hsvc & Hunits & Hunit & _ & ->).
  intros key svc' uk' unit' Hs Hu. cbn in Hs. rewrite Hg. cbn.
  destruct (decide (serviceKey = key)) as [<-|Hne].
  - rewrite lookup_insert_eq in Hs. injection Hs as <-. cbn in Hu.
    destruct (decide (unitKey = uk')) as [<-|Hne'].
    + rewrite lookup_insert_eq in Hu. injection Hu as <-.
      exists svc, unit. by rewrite Hunits.
    + rewrite lookup_insert_ne in Hu by done.
      exists svc, unit'. by rewrite Hunits.
  - rewrite lookup_insert_ne in Hs by done. by exists svc', unit'.
Qed.

Lemma addUnit_units t serviceKey unitKey t' n :
  addUnit t serviceKey unitKey = Returned (t', (n, None)) ->
  forall key svc' uk' unit',
    map_get (Services t') key = Some svc' ->
    map_get (Units svc') uk' = Some unit' ->
    (key = serviceKey /\ uk' = unitKey /\ Sequence unit' = n /\
     n = counter t (Name svc')) \/
    (exists svc unit,
       map_get (Services t) key = Some svc /\
       map_get (Units svc) uk' = Some unit /\
       Name svc = Name svc' /\ Sequence unit = Sequence unit').
Proof.
  intros H. apply addUnit_ok_inv in H
    as (svc & g & units & counters & Hg & Hsvc & _ & Hunits & _ & Hn & ->).
  intros key svc' uk' unit' Hs Hu. cbn in Hs. rewrite Hg. cbn.
  destruct (decide (serviceKey = key)) as [<-|Hne].
  - rewrite lookup_insert_eq in Hs. injection Hs as <-. cbn in Hu |- *.
    destruct (decide (unitKey = uk')) as [<-|Hne'].
    + rewrite lookup_insert_eq in Hu. injection Hu as <-. by left.
    + rewrite lookup_insert_ne in Hu by done. right.
      exists svc, unit'. by rewrite Hunits.
  - rewrite lookup_insert_ne in Hs by done. right. by exists svc', unit'.
Qed.

Lemma addUnit_counter t serviceKey unitKey t' n :
  addUnit t serviceKey unitKey = Returned (t', (n, None)) ->
  int_min <= n < int_max ->
  exists svc,
    map_get (Services t) serviceKey = Some svc /\ n = counter t (Name svc) /\
    forall name,
      counter t' name = if decide (name = Name svc) then n + 1 else counter t name.
Proof.
  intros H Hn. apply addUnit_ok_inv in H
    as (svc & g & units & counters & Hg & Hsvc & _ & _ & Hc & -> & ->).
  exists svc. split_and!; [by rewrite Hg | done |].
  intros name. rewrite (int_add_1 _ Hn). unfold counter at 1. unfold seq_index at 1. cbn.
  case_decide as Hd.
  - subst name. by rewrite lookup_insert_eq.
  - rewrite lookup_insert_ne by done. unfold counter, seq_index. by rewrite Hc.
Qed.

(** X3.  The successful changes of a topology keep the numbering of its
    units sound.  If every unit carries a number below the counter of its
    service's name, and no two units of services with one name carry the
    same number, then the same holds after a successful addUnit that
    returned an int below the largest one, after a successful removeUnit
    and after a successful unassignUnitFromMachine. *)
Theorem numbering_kept (t : zkTopology) (serviceKey unitKey : string) (t' : zkTopology) :
  sequences_below_counter t ->
  distinct_sequences t ->
  (forall n, addUnit t serviceKey unitKey = Returned (t', (n, None)) ->
             int_min <= n < int_max ->
             sequences_below_counter t' /\ distinct_sequences t') /\
  (removeUnit t serviceKey unitKey = Returned (t', None) ->
     sequences_below_counter t' /\ distinct_sequences t') /\
  (unassignUnitFromMachine t serviceKey unitKey = Returned (t', None) ->
     sequences_below_counter t' /\ distinct_sequences t').
Proof.
  intros Hbelow Hdist. split_and!.
  - intros n Hadd Hn.
    pose proof (addUnit_units _ _ _ _ _ Hadd) as Hunits.
    destruct (addUnit_counter _ _ _ _ _ Hadd Hn) as (svc & Hsvc & Hcur & Hcount).
    assert (Hold : forall key svc' uk' unit' svc0 unit0,
              map_get (Services t) key = Some svc0 ->
              map_get (Units svc0) uk' = Some unit0 ->
              Name svc0 = Name svc' -> Sequence unit0 = Sequence unit' ->
              Sequence unit' < counter t (Name svc')).
    { intros key svc' uk' unit' svc0 unit0 Hs Hu <- <-. by apply (Hbelow key svc0 uk'). }
    split.
    + intros key svc' uk' unit' Hs Hu. rewrite Hcount.
      destruct (Hunits _ _ _ _ Hs Hu) as [(-> & -> & Hq & Hc)|(svc0 & unit0 & Hs0 & Hu0 & Hn0 & Hq0)].
      * assert (Name svc' = Name svc) as ->.
        { apply addUnit_ok_inv in Hadd as (s & g & ? & ? & Hg & Hgs & _ & _ & _ & _ & ->).
          cbn in Hs. rewrite lookup_insert_eq in Hs. injection Hs as <-. cbn.
          rewrite Hg in Hsvc. cbn in Hsvc. congruence. }
        rewrite decide_True by done. lia.
      * pose proof (Hold _ _ _ _ _ _ Hs0 Hu0 Hn0 Hq0) as Hlt.
        case_decide as Hd; [rewrite Hd in Hlt; lia | done].
    + intros k1 k2 s1 s2 u1 u2 x1 x2 Hs1 Hs2 Hu1 Hu2 Hname Hseq.
      destruct (Hunits _ _ _ _ Hs1 Hu1) as [(-> & -> & Hq1 & Hc1)|(s1' & x1' & Hs1' & Hu1' & Hn1 & Hq1)];
      destruct (Hunits _ _ _ _ Hs2 Hu2) as [(-> & -> & Hq2 & Hc2)|(s2' & x2' & Hs2' & Hu2' & Hn2 & Hq2)].
      * done.
      * exfalso. pose proof (Hold _ _ _ _ _ _ Hs2' Hu2' Hn2 Hq2) as Hlt.
        rewrite <- Hname, <- Hc1 in Hlt. lia.
      * exfalso. pose proof (Hold _ _ _ _ _ _ Hs1' Hu1' Hn1 Hq1) as Hlt.
        rewrite Hname, <- Hc2 in Hlt. lia.
      * apply (Hdist k1 k2 s1' s2' u1 u2 x1' x2'); congruence.
  - intros Hrm. apply (units_from_keeps t); [by eapply removeUnit_units_from | | done].
    by apply removeUnit_ok_inv in Hrm as (? & ? & ? & _ & _ & _ & ->).
  - intros Hun. apply (units_from_keeps t); [by eapply unassignUnitFromMachine_units_from | | done].
    by apply unassignUnitFromMachine_ok_inv in Hun as (? & ? & ? & ? & _ & _ & _ & _ & _ & ->).
Qed.

(** X4.  In a topology whose units carry numbers below the counters, the
    sequence number a successful addUnit returns leads back to the unit:
    unitKeyFromSequence on the same service and that number returns the
    key just added. *)
Theorem addUnit_then_unitKeyFromSequence
    (t : zkTopology) (serviceKey unitKey : string) (t' : zkTopology) (n : Z) :
  sequences_below_counter t ->
  addUnit t serviceKey unitKey = Returned (t', (n, None)) ->
  unitKeyFromSequence t' serviceKey n = Returned (unitKey, None).
Proof.
  intros Hbelow H. apply addUnit_ok_inv in H
    as (svc & g & units & counters & Hg & Hsvc & _ & Hunits & _ & Hn & ->).
  unfold unitKeyFromSequence, assertService. cbn. rewrite lookup_insert_eq. cbn.
  destruct (find_sequence _ n) as [key|] eqn:Hfind.
  - apply find_sequence_Some in Hfind as (unit & Hin & Hseq).
    apply elem_of_map_to_list in Hin.
    destruct (decide (unitKey = key)) as [<-|Hne]; [done |].
    rewrite lookup_insert_ne in Hin by done. exfalso.
    assert (Sequence unit < counter t (Name svc)) as Hlt.
    { apply (Hbelow serviceKey svc key); [by rewrite Hg | by rewrite Hunits]. }
    unfold counter in Hlt. lia.
  - exfalso. rewrite find_sequence_None in Hfind.
    apply (Hfind unitKey (mkUnit n EmptyString)); [|done].
    apply elem_of_map_to_list. by rewrite lookup_insert_eq.
Qed.

(** X5.  removeUnit undoes a successful addUnit except for the counter:
    removing the unit just added succeeds and leaves the version and every
    service as they were before the addUnit, with the advanced counter. *)
Theorem addUnit_then_removeUnit
    (t : zkTopology) (serviceKey unitKey : string) (t1 : zkTopology) (n : Z) :
  addUnit t serviceKey unitKey = Returned (t1, (n, None)) ->
  removeUnit t1 serviceKey unitKey =
    Returned (mkTopology (Version t) (Services t) (UnitSequence t1), None).
Proof.
  intros H. apply addUnit_ok_inv in H
    as (svc & g & units & counters & Hg & Hsvc & Hfree & Hunits & _ & _ & ->).
  unfold removeUnit, assertUnit, assertService. cbn.
  rewrite lookup_insert_eq. cbn. rewrite lookup_insert_eq. cbn.
  do 3 f_equal. rewrite Hg. f_equal.
  rewrite insert_insert_eq, delete_insert_eq, delete_id.
  - apply insert_id. rewrite Hsvc. f_equal. destruct svc as [name us]. cbn in *. by subst.
  - destruct (units !! unitKey) as [unit|] eqn:Hu; [|done].
    destruct Hfree. exists serviceKey, svc. rewrite Hg, Hunits. cbn. by rewrite Hu.
Qed.

(** X6.  removeUnit succeeds exactly on the units hasUnit reports: for
    such a unit it returns no error, afterwards hasUnit is false for it
    and unchanged for every other service and unit key; for any other
    pair of keys it returns an error and the topology as it was. *)
Theorem removeUnit_removes_exactly (t : zkTopology) (serviceKey unitKey : string) :
  if hasUnit t serviceKey unitKey then
    exists t',
      removeUnit t serviceKey unitKey = Returned (t', None) /\
      forall key uk,
        hasUnit t' key uk =
        hasUnit t key uk && negb (bool_decide (key = serviceKey /\ uk = unitKey))
  else
    exists err, removeUnit t serviceKey unitKey = Returned (t, Some err).
Proof.
  unfold hasUnit at 1. unfold removeUnit, assertUnit, assertService.
  destruct (map_get (Services t) serviceKey) as [svc|] eqn:Hsvc; [|by eexists].
  destruct (map_get (Units svc) unitKey) as [unit|] eqn:Hunit.
  - rewrite bool_decide_true by done.
    destruct (Services t) as [g|] eqn:Hg; [|done]. cbn in Hsvc |- *.
    eexists. split; [done |]. intros key uk. unfold hasUnit. rewrite Hg. cbn.
    destruct (decide (serviceKey = key)) as [<-|Hne].
    + rewrite lookup_insert_eq, Hsvc. cbn.
      destruct (Units svc) as [units|]; cbn in *; [|done].
      destruct (decide (unitKey = uk)) as [<-|Hne'].
      * rewrite lookup_delete_eq, Hunit.
        rewrite (bool_decide_false (is_Some None)) by (by intros [? ?]).
        by rewrite (bool_decide_true (_ /\ _)).
      * rewrite lookup_delete_ne by done.
        rewrite (bool_decide_false (_ /\ _)) by (intros [_ ?]; congruence).
        by rewrite andb_true_r.
    + rewrite lookup_insert_ne by done.
      rewrite (bool_decide_false (_ /\ _)) by (intros [? _]; congruence).
      destruct (g !! key); [by rewrite andb_true_r | done].
  - rewrite bool_decide_false by (by intros [? ?]). by eexists.
Qed.

(** X7.  After a successful unassignUnitFromMachine the unit has no
    machine: unitMachineKey returns the empty key, a second
    unassignUnitFromMachine fails with "is not assigned to a machine" and
    changes nothing, and the unit keeps its name. *)
Theorem unassignUnitFromMachine_once (Quote : string -> string)
    (t : zkTopology) (serviceKey unitKey : string) (t' : zkTopology) :
  unassignUnitFromMachine t serviceKey unitKey = Returned (t', None) ->
  unitMachineKey t' serviceKey unitKey = Returned (EmptyString, None) /\
  unassignUnitFromMachine t' serviceKey unitKey =
    Returned (t', Some (Errorf "unit %q in service %q is not assigned to a machine"
                               [Str unitKey; Str serviceKey])) /\
  unitName Quote t' serviceKey unitKey = unitName Quote t serviceKey unitKey.
Proof.
  intros H. apply unassignUnitFromMachine_ok_inv in H
    as (g & svc & units & unit & Hg & Hsvc & Hunits & Hunit & _ & ->).
  unfold unitMachineKey, unassignUnitFromMachine, unitName, assertUnit, assertService.
  cbn. rewrite Hg. cbn. rewrite !lookup_insert_eq, Hsvc. cbn.
  rewrite !lookup_insert_eq, Hunits. cbn. rewrite Hunit. cbn.
  by rewrite decide_True.
Qed.

Lemma find_name_Some entries name key :
  find_name entries name = Some key ->
  exists svc, (key, svc) ∈ entries /\ Name svc = name.
Proof.
  induction entries as [|[k svc] rest IH]; cbn; [done |].
  case_decide as Hn.
  - intros [= <-]. exists svc. split; [apply list_elem_of_here | done].
  - intros H. destruct (IH H) as (svc' & Hin & Hs).
    exists svc'. split; [by apply list_elem_of_further | done].
Qed.

Lemma find_name_None entries name :
  find_name entries name = None <->
  forall key svc, (key, svc) ∈ entries -> Name svc <> name.
Proof.
  induction entries as [|[k svc] rest IH]; cbn.
  - split; [intros _ key s Hin; by apply elem_of_nil in Hin | done].
  - case_decide as Hn.
    + split; [done |]. intros H. by destruct (H k svc (list_elem_of_here _ _)).
    + rewrite IH. split.
      * intros H key s Hin. apply elem_of_cons in Hin as [[= -> ->] | Hin]; [done |].
        by apply (H key).
      * intros H key s Hin. apply (H key). by apply list_elem_of_further.
Qed.

(** X8.  serviceKey either returns, without error, the key of a service
    that has the given name, or returns the empty key with "cannot be
    found", and then no service of the topology has that name. *)
Theorem serviceKey_finds (t : zkTopology) (name : string) :
  (exists key svc,
     serviceKey t name = (key, None) /\
     map_get (Services t) key = Some svc /\ Name svc = name) \/
  (serviceKey t name =
     (EmptyString, Some (Errorf "service with name %q cannot be found" [Str name])) /\
   forall key svc, map_get (Services t) key = Some svc -> Name svc <> name).
Proof.
  unfold serviceKey.
  destruct (find_name (map_range (Services t)) name) as [key|] eqn:Hfind.
  - left. apply find_name_Some in Hfind as (svc & Hin & Hn).
    exists key, svc. by rewrite <- elem_of_map_range.
  - right. split; [done |]. intros key svc Hs.
    rewrite find_name_None in Hfind. apply (Hfind key). by apply elem_of_map_range.
Qed.

(** X9.  A change of the topology that returns an error changes nothing:
    addUnit (which then returns -1), removeUnit and
    unassignUnitFromMachine hand back the topology they were given. *)
Theorem failed_change_keeps_topology
    (t : zkTopology) (serviceKey unitKey : string) (t' : zkTopology) (err : error) :
  (forall n, addUnit t serviceKey unitKey = Returned (t', (n, Some err)) ->
             t' = t /\ n = -1) /\
  (removeUnit t serviceKey unitKey = Returned (t', Some err) -> t' = t) /\
  (unassignUnitFromMachine t serviceKey unitKey = Returned (t', Some err) -> t' = t).
Proof.
  split_and!.
  - intros n. apply addUnit_err_inv.
  - unfold removeUnit. destruct (assertUnit t serviceKey unitKey); [by intros [= <-] |].
    destruct (map_get (Services t) serviceKey) as [svc|]; [|done].
    destruct (Services t); cbn; done.
  - unfold unassignUnitFromMachine.
    destruct (assertUnit t serviceKey unitKey); [by intros [= <-] |].
    destruct (map_get (Services t) serviceKey) as [svc|]; [|done].
    destruct (map_get (Units svc) unitKey) as [unit|]; [|done].
    case_decide; [by intros [= <-] |]. unfold set_unit.
    destruct (Units svc), (Services t); cbn; done.
Qed.

(** *** Examples for the remaining methods *)

(** The service wordpress with the unit u-0, assigned to the machine m-0. *)
Definition assigned_unit : zkTopology :=
  mkTopology topologyVersion
    (Some {[ "s-0" := mkService "wordpress" (Some {[ "u-0" := mkUnit 0 "m-0" ]}) ]})
    (Some {[ "wordpress" := 1 ]}).

(** The test TestUnitKeys: the keys come back in order. *)
Example unitKeys_of_two_services :
  exists t log,
    run no_services [AddService "s-0" "wordpress"; AddService "s-1" "mysql";
                     AddUnit "s-0" "u-1"; AddUnit "s-0" "u-0"; AddUnit "s-1" "u-2"]
      = Returned (t, log) /\
    unitKeys t "s-0" = Returned (Some ["u-0"; "u-1"], None) /\
    unitKeys t "s-1" = Returned (Some ["u-2"], None) /\
    unitKeyFromSequence t "s-0" 0 = Returned ("u-1", None) /\
    unitKeyFromSequence t "s-0" 1 = Returned ("u-0", None).
Proof. do 2 eexists. split_and!; vm_compute; reflexivity. Qed.

Lemma one_service_numbering :
  sequences_below_counter one_service /\ distinct_sequences one_service.
Proof.
  assert (Hnone : forall key svc unitKey unit,
            map_get (Services one_service) key = Some svc ->
            map_get (Units svc) unitKey = Some unit -> False).
  { intros key svc unitKey unit Hs Hu. cbn in Hs.
    apply lookup_singleton_Some in Hs as [_ <-]. cbn in Hu. by rewrite lookup_empty in Hu. }
  split.
  - intros key svc unitKey unit Hs Hu. destruct (Hnone _ _ _ _ Hs Hu).
  - intros k1 k2 s1 s2 u1 u2 x1 x2 Hs1 _ Hu1. destruct (Hnone _ _ _ _ Hs1 Hu1).
Qed.

(** The unit u-0 of wordpress carries the number 0. *)
Lemma unitKeyFromSequence_finds_witness :
  (exists key unit,
     unitKeyFromSequence one_unit "s-0" 0 = Returned (key, None) /\
     map_get (Some {[ "u-0" := mkUnit 0 EmptyString ]}) key = Some unit /\
     Sequence unit = 0) \/
  (unitKeyFromSequence one_unit "s-0" 0 =
     Returned (EmptyString,
               Some (Errorf "unit with sequence number %d cannot be found" [Int 0])) /\
   forall key unit,
     map_get (Some {[ "u-0" := mkUnit 0 EmptyString ]}) key = Some unit ->
     Sequence unit <> 0).
Proof.
  apply (unitKeyFromSequence_finds one_unit "s-0"
           (mkService "wordpress" (Some {[ "u-0" := mkUnit 0 EmptyString ]})) 0).
  vm_compute. reflexivity.
Defined.

(** Adding u-0 to the service wordpress, which has no unit yet. *)
Lemma numbering_kept_witness :
  (forall n, addUnit one_service "s-0" "u-0" = Returned (one_unit, (n, None)) ->
             int_min <= n < int_max ->
             sequences_below_counter one_unit /\ distinct_sequences one_unit) /\
  (removeUnit one_service "s-0" "u-0" = Returned (one_unit, None) ->
     sequences_below_counter one_unit /\ distinct_sequences one_unit) /\
  (unassignUnitFromMachine one_service "s-0" "u-0" = Returned (one_unit, None) ->
     sequences_below_counter one_unit /\ distinct_sequences one_unit).
Proof.
  apply (numbering_kept one_service "s-0" "u-0" one_unit);
    apply one_service_numbering.
Defined.

Lemma addUnit_then_unitKeyFromSequence_witness :
  unitKeyFromSequence one_unit "s-0" 0 = Returned ("u-0", None).
Proof.
  apply (addUnit_then_unitKeyFromSequence one_service "s-0" "u-0" one_unit 0).
  - apply one_service_numbering.
  - vm_compute. reflexivity.
Defined.

Lemma addUnit_then_removeUnit_witness :
  removeUnit one_unit "s-0" "u-0" =
    Returned (mkTopology (Version one_service) (Services one_service)
                         (UnitSequence one_unit), None).
Proof.
  apply (addUnit_then_removeUnit one_service "s-0" "u-0" one_unit 0).
  vm_compute. reflexivity.
Defined.

Lemma unassignUnitFromMachine_once_witness :
  unitMachineKey (document_after assigned_unit [UnassignUnitFromMachine "s-0" "u-0"])
                 "s-0" "u-0" = Returned (EmptyString, None) /\
  unassignUnitFromMachine
    (document_after assigned_unit [UnassignUnitFromMachine "s-0" "u-0"]) "s-0" "u-0" =
    Returned (document_after assigned_unit [UnassignUnitFromMachine "s-0" "u-0"],
              Some (Errorf "unit %q in service %q is not assigned to a machine"
                           [Str "u-0"; Str "s-0"])) /\
  unitName (fun s => s)
           (document_after assigned_unit [UnassignUnitFromMachine "s-0" "u-0"]) "s-0" "u-0"
    = unitName (fun s => s) assigned_unit "s-0" "u-0".
Proof.
  apply (unassignUnitFromMachine_once (fun s => s) assigned_unit "s-0" "u-0").
  vm_compute. reflexivity.
Defined.

(** Adding a unit to an unknown service. *)
Lemma failed_change_keeps_topology_witness :
  no_services = no_services /\ -1 = -1.
Proof.
  apply (proj1 (failed_change_keeps_topology no_services "s-0" "u-0" no_services
                  (Errorf "service with key %q cannot be found" [Str "s-0"])) (-1)).
  reflexivity.
Defined.

End Topology.

(* ===================================================================== *)
(** * package uniter: the Relationer (relationer.go) *)
(* ===================================================================== *)
Module Uniter.
Import Go.

Section Relationer.

(** ** What the Relationer is built on

    The state server, the presence nodes and the goroutines started on
    behalf of the unit are a [World] that the calls below read and change.
    The types and functions of the packages state, presence and server, and
    the relation state and hook queue of this package, are taken as they
    are used; each of them is a function that returns. *)
Context {World : Type}.
Context {RelationUnit RelationState RelationContext : Type}.
Context {Pinger HookQueue Watcher HooksChan : Type}.
Context {Members HookKind HookInfo : Type}.

(** [strconv.Quote], for [fmt.Sprintf]. *)
Variable Quote : string -> string.

(** [hi.Members] and [hi.HookKind], and the text [%s] prints for a kind. *)
Variable HookInfo_Members : HookInfo -> Members.
Variable HookInfo_HookKind : HookInfo -> HookKind.
Variable HookKind_String : HookKind -> string.

(** [rs.Members], [server.NewRelationContext(ru, members)] and
    [ctx.SetMembers(members)]. *)
Variable RelationState_Members : RelationState -> Members.
Variable NewRelationContext : RelationUnit -> Members -> RelationContext.
Variable SetMembers : RelationContext -> Members -> RelationContext.

(** [rs.Validate(hi)] and [rs.Commit(hi)]. *)
Variable Validate : RelationState -> HookInfo -> option error.
Variable Commit : RelationState -> HookInfo -> World -> RelationState * option error * World.

(** [ru.Join()], [ru.Watch()] and [ru.Endpoint().RelationName]. *)
Variable RelationUnit_Join : RelationUnit -> World -> option Pinger * option error * World.
Variable RelationUnit_Watch : RelationUnit -> World -> Watcher * World.
Variable RelationName : RelationUnit -> string.

(** [pinger.Stop()], [NewHookQueue(rs, hooks, w)] and [queue.Stop()]. *)
Variable Pinger_Stop : Pinger -> World -> option error * World.
Variable NewHookQueue : RelationState -> HooksChan -> Watcher -> World -> HookQueue * World.
Variable HookQueue_Stop : HookQueue -> World -> option error * World.

(** ** The Relationer *)

(** [Relationer] manages a unit's presence in a relation.  A nil [pinger]
    or [queue] is [None]. *)
Record Relationer : Type := mkRelationer {
  ctx : RelationContext;
  ru : RelationUnit;
  rs : RelationState;
  pinger : option Pinger;
  queue : option HookQueue;
  hooks : HooksChan
}.

(** A method call: the Relationer after it, its result, and the world
    after it; or a panic. *)
Definition call (R : Type) : Type := outcome (Relationer * R * World).

(** [NewRelationer] *)
Definition NewRelationer (ru0 : RelationUnit) (rs0 : RelationState) (hooks0 : HooksChan)
    : Relationer :=
  mkRelationer (NewRelationContext ru0 (RelationState_Members rs0)) ru0 rs0 None None hooks0.

(** [Join] starts the periodic signalling of the unit's presence. *)
Definition Join (r : Relationer) (w : World) : call (option error) :=
  match pinger r with
  | Some _ => Panicked "unit already joined!"
  | None =>
      match RelationUnit_Join (ru r) w with
      | (_, Some err, w') => Returned (r, Some err, w')
      | (p, None, w') =>
          Returned (mkRelationer (ctx r) (ru r) (rs r) p (queue r) (hooks r), None, w')
      end
  end.

(** [Abandon] stops the periodic signalling of the unit's presence. *)
Definition Abandon (r : Relationer) (w : World) : call (option error) :=
  match pinger r with
  | None => Returned (r, None, w)
  | Some p =>
      let r' := mkRelationer (ctx r) (ru r) (rs r) None (queue r) (hooks r) in
      let '(err, w') := Pinger_Stop p w in
      Returned (r', err, w')
  end.

(** [Depart] *)
Definition Depart (r : Relationer) (w : World) : call (option error) :=
  Panicked "not implemented".

(** [StartHooks] starts watching the relation and sending HookInfo events. *)
Definition StartHooks (r : Relationer) (w : World) : call unit :=
  match queue r with
  | Some _ => Panicked "hooks already started!"
  | None =>
      let '(watcher, w1) := RelationUnit_Watch (ru r) w in
      let '(q, w2) := NewHookQueue (rs r) (hooks r) watcher w1 in
      Returned (mkRelationer (ctx r) (ru r) (rs r) (pinger r) (Some q) (hooks r), tt, w2)
  end.

(** [StopHooks] ensures that the relationer is not watching the relation. *)
Definition StopHooks (r : Relationer) (w : World) : call (option error) :=
  match queue r with
  | None => Returned (r, None, w)
  | Some q =>
      let r' := mkRelationer (ctx r) (ru r) (rs r) (pinger r) None (hooks r) in
      let '(err, w') := HookQueue_Stop q w in
      Returned (r', err, w')
  end.

(** [Context] *)
Definition Context (r : Relationer) : RelationContext := ctx r.

(** [PrepareHook] checks that the hook makes sense for the relation state,
    publishes the members to the context and names the hook to run. *)
Definition PrepareHook (r : Relationer) (hi : HookInfo) (w : World)
    : call (string * option error) :=
  match Validate (rs r) hi with
  | Some err => Returned (r, (EmptyString, Some err), w)
  | None =>
      let r' := mkRelationer (SetMembers (ctx r) (HookInfo_Members hi))
                             (ru r) (rs r) (pinger r) (queue r) (hooks r) in
      let relName := RelationName (ru r) in
      Returned (r', (Sprintf Quote "%s-relation-%s"
                       [Str relName; Str (HookKind_String (HookInfo_HookKind hi))], None), w)
  end.

(** [CommitHook] persists the fact of the supplied hook's completion. *)
Definition CommitHook (r : Relationer) (hi : HookInfo) (w : World) : call (option error) :=
  let '(rs', err, w') := Commit (rs r) hi w in
  Returned (mkRelationer (ctx r) (ru r) rs' (pinger r) (queue r) (hooks r), err, w').

(** ** Properties *)

Lemma Sprintf_hook_name (relName kind : string) :
  Sprintf Quote "%s-relation-%s" [Str relName; Str kind]
  = relName +:+ "-relation-" +:+ kind.
Proof.
  cbn.
  change (String "-" (String "r" (String "e" (String "l" (String "a" (String "t"
           (String "i" (String "o" (String "n" (String "-" (kind +:+ EmptyString)))))))))))
    with ("-relation-" +:+ (kind +:+ EmptyString)).
  by rewrite append_empty_r.
Qed.

(** C4.  PrepareHook first validates the HookInfo against the relation
    state.  If validation fails it returns the empty hook name and that
    error, and the Relationer (its context with it) and the world stay as
    they were.  If validation succeeds the context becomes the old one
    with its members set to the HookInfo's members, nothing else changes,
    and the result is the hook name
    "<relation-name>-relation-<hook-kind>" with no error. *)
Theorem PrepareHook_validates_then_publishes (r : Relationer) (hi : HookInfo) (w : World) :
  match Validate (rs r) hi with
  | Some err => PrepareHook r hi w = Returned (r, (EmptyString, Some err), w)
  | None =>
      PrepareHook r hi w =
        Returned (mkRelationer (SetMembers (ctx r) (HookInfo_Members hi))
                               (ru r) (rs r) (pinger r) (queue r) (hooks r),
                  (RelationName (ru r) +:+ "-relation-"
                     +:+ HookKind_String (HookInfo_HookKind hi), None),
                  w)
  end.
Proof.
  unfold PrepareHook. destruct (Validate (rs r) hi) as [err|]; [done |].
  by rewrite Sprintf_hook_name.
Qed.

(** C5.  Join panics when the unit is already joined (the pinger is set)
    and returns in every other state; StartHooks panics when the hook
    queue is already running and returns in every other state. *)
Theorem Join_StartHooks_panic_when_repeated (r : Relationer) (w : World) :
  match pinger r with
  | Some _ => Join r w = Panicked "unit already joined!"
  | None => exists res, Join r w = Returned res
  end /\
  match queue r with
  | Some _ => StartHooks r w = Panicked "hooks already started!"
  | None => exists res, StartHooks r w = Returned res
  end.
Proof.
  split.
  - unfold Join. destruct (pinger r); [done |].
    destruct (RelationUnit_Join (ru r) w) as [[p [err|]] w']; by eexists.
  - unfold StartHooks. destruct (queue r); [done |].
    destruct (RelationUnit_Watch (ru r) w) as [watcher w1].
    destruct (NewHookQueue (rs r) (hooks r) watcher w1) as [q w2]. by eexists.
Qed.

(** C6.  Abandon and StopHooks always return.  Called again right after
    a first call they return nil and change neither the Relationer nor the
    world; called when the pinger, or the hook queue, was never started
    they return nil and change nothing either. *)
Theorem Abandon_StopHooks_idempotent (r : Relationer) (w : World) :
  (exists r1 e1 w1,
     Abandon r w = Returned (r1, e1, w1) /\
     Abandon r1 w1 = Returned (r1, None, w1) /\
     match pinger r with
     | None => (r1, e1, w1) = (r, None, w)
     | Some _ => pinger r1 = None
     end) /\
  (exists r1 e1 w1,
     StopHooks r w = Returned (r1, e1, w1) /\
     StopHooks r1 w1 = Returned (r1, None, w1) /\
     match queue r with
     | None => (r1, e1, w1) = (r, None, w)
     | Some _ => queue r1 = None
     end).
Proof.
  split.
  - unfold Abandon. destruct (pinger r) as [p|] eqn:Hp.
    + destruct (Pinger_Stop p w) as [err w']. by do 3 eexists.
    + exists r, None, w. by rewrite Hp.
  - unfold StopHooks. destruct (queue r) as [q|] eqn:Hq.
    + destruct (HookQueue_Stop q w) as [err w']. by do 3 eexists.
    + exists r, None, w. by rewrite Hq.
Qed.

(** *** Joining, abandoning and the hook queue, one after the other *)


(** X11.  The pinger and the hook queue are started and stopped
    independently.  Join and Abandon never touch the hook queue, the
    context or the relation state; StartHooks and StopHooks never touch the
    pinger, the context or the relation state.  Join and StartHooks panic
    only in the states where the pinger, respectively the queue, is set;
    after StopHooks the queue is unset, so StartHooks is allowed again. *)
Theorem pinger_and_queue_independent (r : Relationer) (w : World) :
  match Join r w with
  | Returned (r', _, _) => queue r' = queue r /\ ctx r' = ctx r /\ rs r' = rs r
  | Panicked _ => is_Some (pinger r)
  end /\
  match Abandon r w with
  | Returned (r', _, _) => queue r' = queue r /\ ctx r' = ctx r /\ rs r' = rs r
  | Panicked _ => False
  end /\
  match StartHooks r w with
  | Returned (r', _, _) =>
      pinger r' = pinger r /\ ctx r' = ctx r /\ rs r' = rs r /\ is_Some (queue r')
  | Panicked _ => is_Some (queue r)
  end /\
  match StopHooks r w with
  | Returned (r', _, w') =>
      pinger r' = pinger r /\ ctx r' = ctx r /\ rs r' = rs r /\ queue r' = None /\
      exists res, StartHooks r' w' = Returned res
  | Panicked _ => False
  end.
Proof.
  split_and!.
  - unfold Join. destruct (pinger r); [by eexists |].
    by destruct (RelationUnit_Join (ru r) w) as [[p' [e|]] w2].
  - unfold Abandon. destruct (pinger r) as [p|]; [|done].
    by destruct (Pinger_Stop p w).
  - unfold StartHooks. destruct (queue r); [by eexists |].
    destruct (RelationUnit_Watch (ru r) w) as [watcher w1].
    destruct (NewHookQueue (rs r) (hooks r) watcher w1) as [q w2].
    split_and!; done.
  - unfold StopHooks. destruct (queue r) as [q|] eqn:Hq.
    + destruct (HookQueue_Stop q w) as [err w1]. split_and!; try done.
      unfold StartHooks. cbn.
      destruct (RelationUnit_Watch (ru r) w1) as [watcher w2].
      destruct (NewHookQueue (rs r) (hooks r) watcher w2) as [q' w3]. by eexists.
    + split_and!; try done. unfold StartHooks. rewrite Hq.
      destruct (RelationUnit_Watch (ru r) w) as [watcher w2].
      destruct (NewHookQueue (rs r) (hooks r) watcher w2) as [q' w3]. by eexists.
Qed.

End Relationer.

(** ** Example: a unit of wordpress in the relation db

    The world is the list of calls made on the state server, oldest
    first.  A relation unit is known by the name of its relation, the
    relation state and the context by their members, a hook by its kind,
    the remote unit and the members. *)
Definition sample_Join (ru : string) (w : list string)
    : option nat * option error * list string :=
  (Some (length w), None, w ++ ["join " +:+ ru]).

Definition sample_Watch (ru : string) (w : list string) : unit * list string :=
  (tt, w ++ ["watch " +:+ ru]).

Definition sample_Stop (what : string) (id : nat) (w : list string)
    : option error * list string :=
  (None, w ++ [what]).

Definition sample_NewHookQueue (rs : list string) (hooks : unit) (watcher : unit)
    (w : list string) : nat * list string :=
  (length w, w ++ ["queue"]).

(** A joined hook for a unit that is already a member is refused. *)
Definition sample_Validate (rs : list string) (hi : string * string * list string)
    : option error :=
  if bool_decide (hi.1.1 = "joined" /\ hi.1.2 ∈ rs)
  then Some (ErrNew "unit already joined")
  else None.

Definition sample_relationer : Relationer :=
  NewRelationer (Pinger := nat) (HookQueue := nat) (fun rs : list string => rs)
    (fun (ru : string) (members : list string) => members) "db" ["mysql/0"] tt.

Definition sample_PrepareHook :=
  PrepareHook (World := list string) (Pinger := nat) (HookQueue := nat) (HooksChan := unit)
    (fun s => s)
    (fun hi : string * string * list string => hi.2)
    (fun hi : string * string * list string => hi.1.1)
    (fun kind : string => kind)
    (fun (ctx members : list string) => members)
    sample_Validate
    (fun ru : string => ru).

Example Join_twice :
  exists r w,
    Join sample_Join sample_relationer [] = Returned (r, None, w) /\
    pinger r = Some 0%nat /\
    Join sample_Join r w = Panicked "unit already joined!".
Proof. by do 2 eexists. Qed.

Example Abandon_then_Join :
  exists r1 w1 r2 w2 r3 w3,
    Join sample_Join sample_relationer [] = Returned (r1, None, w1) /\
    Abandon (sample_Stop "stop pinger") r1 w1 = Returned (r2, None, w2) /\
    Abandon (sample_Stop "stop pinger") r2 w2 = Returned (r2, None, w2) /\
    Join sample_Join r2 w2 = Returned (r3, None, w3) /\
    w3 = ["join db"; "stop pinger"; "join db"].
Proof. by do 6 eexists. Qed.

Example StartHooks_twice :
  exists r w,
    StartHooks sample_Watch sample_NewHookQueue sample_relationer [] = Returned (r, tt, w) /\
    StartHooks sample_Watch sample_NewHookQueue r w = Panicked "hooks already started!".
Proof. by do 2 eexists. Qed.

Example PrepareHook_joined :
  sample_PrepareHook sample_relationer ("joined", "mysql/1", ["mysql/0"; "mysql/1"]) []
  = Returned (mkRelationer ["mysql/0"; "mysql/1"] "db" ["mysql/0"] None None tt,
              ("db-relation-joined", None), []).
Proof. reflexivity. Qed.

Example PrepareHook_refused :
  sample_PrepareHook sample_relationer ("joined", "mysql/0", ["mysql/0"]) []
  = Returned (sample_relationer, (EmptyString, Some (ErrNew "unit already joined")), []).
Proof. reflexivity. Qed.

End Uniter.

(* ===================================================================== *)
(** * package maas: listing instances (environs/maas/environ.go) *)
(* ===================================================================== *)
Module Maas.
Import Go.

(** A request sent to the MAAS server: the resource, the operation and
    the filter given as its parameters. *)
Record request (Filter : Type) : Type := mkRequest {
  resource : string;
  operation : string;
  parameters : Filter
}.
Arguments mkRequest {Filter} resource operation parameters.

(** The MAAS server as the environ sees it: its state, and the requests it
    has received so far, oldest first. *)
Record world (Server Filter : Type) : Type := mkWorld {
  server : Server;
  requests : list (request Filter)
}.
Arguments mkWorld {Server Filter} server requests.
Arguments server {Server Filter} w.
Arguments requests {Server Filter} w.

(** [maasInstance] *)
Record maasInstance (MAASObject Environ : Type) : Type := mkInstance {
  maasObject : MAASObject;
  environ : Environ
}.
Arguments mkInstance {MAASObject Environ} maasObject environ.

Section Instances.

(** ** What the environ is built on

    The gomaasapi client, the helper [getSystemIdValues] (util.go) and the
    two errors of package environs are taken as they are used. *)
Context {Server Filter Id JSONObject MAASObject Environ : Type}.

(** The server answering a GET: the response or an error, and its state
    afterwards. *)
Variable serve : Server -> request Filter -> (JSONObject + error) * Server.

(** [obj.GetArray()] and [obj.GetMAASObject()] *)
Variable GetArray : JSONObject -> list JSONObject + error.
Variable GetMAASObject : JSONObject -> MAASObject + error.

(** [getSystemIdValues(ids)]: the filter that selects the given ids. *)
Variable getSystemIdValues : slice Id -> Filter.

(** [environs.ErrNoInstances] and [environs.ErrPartialInstances] *)
Variable ErrNoInstances ErrPartialInstances : error.

(** [nodeListing.CallGet(operation, filter)] on the sub-object [name] of
    the client: one request to the server. *)
Definition CallGet (name operation : string) (filter : Filter) (w : world Server Filter)
    : (JSONObject + error) * world Server Filter :=
  let req := mkRequest name operation filter in
  let '(response, server') := serve (server w) req in
  (response, mkWorld server' (requests w ++ [req])).

(** The loop of [instances]: one instance per node, in order; the first
    node that is no MAAS object ends it with its error. *)
Fixpoint nodes_to_instances (environ : Environ) (listNodes : list JSONObject)
    : list (maasInstance MAASObject Environ) + error :=
  match listNodes with
  | [] => inl []
  | nodeObj :: rest =>
      match GetMAASObject nodeObj with
      | inr err => inr err
      | inl node =>
          match nodes_to_instances environ rest with
          | inr err => inr err
          | inl instances => inl (mkInstance node environ :: instances)
          end
      end
  end.

(** [instances] calls the MAAS API to list nodes; [ids] is a filter. *)
Definition instances (environ : Environ) (ids : slice Id) (w : world Server Filter)
    : slice (maasInstance MAASObject Environ) * option error * world Server Filter :=
  let filter := getSystemIdValues ids in
  match CallGet "nodes" "list" filter w with
  | (inr err, w') => (None, Some err, w')
  | (inl listNodeObjects, w') =>
      match GetArray listNodeObjects with
      | inr err => (None, Some err, w')
      | inl listNodes =>
          match nodes_to_instances environ listNodes with
          | inr err => (None, Some err, w')
          | inl instances => (Some instances, None, w')
          end
      end
  end.

(** [Instances] returns the instances corresponding to the given ids. *)
Definition Instances (environ : Environ) (ids : slice Id) (w : world Server Filter)
    : slice (maasInstance MAASObject Environ) * option error * world Server Filter :=
  if decide (len ids = 0%nat) then (None, Some ErrNoInstances, w)
  else
    match instances environ ids w with
    | (_, Some err, w') => (None, Some err, w')
    | (found, None, w') =>
        if decide (len found = 0%nat) then (None, Some ErrNoInstances, w')
        else if decide (len ids <> len found) then (found, Some ErrPartialInstances, w')
        else (found, None, w')
    end.

(** [AllInstances] returns all the instances in this provider. *)
Definition AllInstances (environ : Environ) (w : world Server Filter)
    : slice (maasInstance MAASObject Environ) * option error * world Server Filter :=
  instances environ None w.

(** ** Properties *)

(** Every call of [instances] sends exactly one request: list the nodes
    selected by the filter of the ids. *)
Lemma instances_sends_request environ ids w :
  requests (instances environ ids w).2
  = requests w ++ [mkRequest "nodes" "list" (getSystemIdValues ids)].
Proof.
  unfold instances, CallGet.
  destruct (serve (server w) _) as [[listNodeObjects|err] server']; [|done].
  destruct (GetArray listNodeObjects) as [listNodes|err]; [|done].
  destruct (nodes_to_instances environ listNodes); done.
Qed.

(** C9.  With an empty or nil [ids], Instances returns (nil,
    ErrNoInstances) and sends nothing to the provider, whereas listing
    with such ids (as AllInstances does with nil) sends a request.  With
    other ids, when the listing succeeds: no instance found gives (nil,
    ErrNoInstances); some but fewer than requested gives the instances
    found together with ErrPartialInstances. *)
Theorem Instances_errors environ ids w :
  (len ids = 0%nat ->
     Instances environ ids w = (None, Some ErrNoInstances, w) /\
     requests (instances environ ids w).2
       = requests w ++ [mkRequest "nodes" "list" (getSystemIdValues ids)]) /\
  (forall found w',
     len ids <> 0%nat ->
     instances environ ids w = (found, None, w') ->
     (len found = 0%nat ->
        Instances environ ids w = (None, Some ErrNoInstances, w')) /\
     ((0 < len found < len ids)%nat ->
        Instances environ ids w = (found, Some ErrPartialInstances, w'))) /\
  AllInstances environ w = instances environ None w.
Proof.
  split_and!.
  - intros Hids. split; [|apply instances_sends_request].
    unfold Instances. by rewrite decide_True.
  - intros found w' Hids Hfound. unfold Instances.
    rewrite decide_False by done. rewrite Hfound. split.
    + intros Hnone. by rewrite decide_True.
    + intros Hfew. rewrite decide_False by lia. by rewrite decide_True by lia.
  - done.
Qed.

(* --------------------------------------------------------------------- *)
(** ** Releasing instances: StopInstances and Destroy *)
(* --------------------------------------------------------------------- *)

(** The server answering a POST; the URI a MAAS object is posted to; the
    nil [url.Values]; [inst.Id()]; and [environ.Storage().RemoveAll()]. *)
Variable post : Server -> request Filter -> (JSONObject + error) * Server.
Variable URI : MAASObject -> string.
Variable no_parameters : Filter.
Context `{Countable Id}.
Variable Id_of : maasInstance MAASObject Environ -> Id.
Variable RemoveAll : world Server Filter -> option error * world Server Filter.

(** [strconv.Quote], for the text of errors. *)
Variable Quote : string -> string.

(** [obj.CallPost(operation, params)]: one request to the server. *)
Definition CallPost (obj : MAASObject) (operation : string) (params : Filter)
    (w : world Server Filter) : (JSONObject + error) * world Server Filter :=
  let req := mkRequest (URI obj) operation params in
  let '(response, server') := post (server w) req in
  (response, mkWorld server' (requests w ++ [req])).

(** [releaseInstance] releases a single instance. *)
Definition releaseInstance (inst : maasInstance MAASObject Environ) (w : world Server Filter)
    : option error * world Server Filter :=
  match CallPost (maasObject _ _ inst) "release" no_parameters w with
  | (inl _, w') => (None, w')
  | (inr err, w') => (Some err, w')
  end.

(** The elements of a slice. *)
Definition items {A} (s : slice A) : list A :=
  match s with
  | Some l => l
  | None => []
  end.

(** The body of the loop of [StopInstances]. *)
Definition release_next (acc : option error * world Server Filter)
    (inst : maasInstance MAASObject Environ) : option error * world Server Filter :=
  let '(firstErr, w) := acc in
  let '(err, w') := releaseInstance inst w in
  (match firstErr with
   | None => err
   | Some e => Some e
   end, w').

(** [StopInstances] tells MAAS to release each of the instances. *)
Definition StopInstances (instances : slice (maasInstance MAASObject Environ))
    (w : world Server Filter) : option error * world Server Filter :=
  if decide (len instances = 0%nat) then (None, w)
  else foldl release_next (None, w) (items instances).

(** The first loop of [Destroy]: the ids found in the listing. *)
Definition found_ids (insts : list (maasInstance MAASObject Environ)) : gmap Id bool :=
  foldl (fun found inst => <[Id_of inst := true]> found) ∅ insts.

(** The body of the second loop of [Destroy]: an instance whose id has not
    been seen is appended and its id remembered. *)
Definition ensure_next
    (acc : list (maasInstance MAASObject Environ) * gmap Id bool)
    (inst : maasInstance MAASObject Environ)
    : list (maasInstance MAASObject Environ) * gmap Id bool :=
  let '(insts, found) := acc in
  let id := Id_of inst in
  if default false (found !! id) then (insts, found)
  else (insts ++ [inst], <[id := true]> found).

(** The instances [Destroy] stops: those listed, then the ones it was told
    about that have not shown up in the list. *)
Definition destroy_targets (listed ensureInsts : list (maasInstance MAASObject Environ))
    : list (maasInstance MAASObject Environ) :=
  (foldl ensure_next (listed, found_ids listed) ensureInsts).1.

(** [Destroy]; the error of a failed listing is
    [fmt.Errorf("cannot get instances: %v", err)], whose text is the prefix
    followed by the text of [err]. *)
Definition Destroy (environ : Environ)
    (ensureInsts : slice (maasInstance MAASObject Environ)) (w : world Server Filter)
    : option error * world Server Filter :=
  match AllInstances environ w with
  | (_, Some err, w1) =>
      (Some (ErrNew ("cannot get instances: " +:+ Error Quote err)), w1)
  | (insts, None, w1) =>
      let insts := destroy_targets (items insts) (items ensureInsts) in
      match StopInstances (Some insts) w1 with
      | (Some err, w2) => (Some err, w2)
      | (None, w2) => RemoveAll w2
      end
  end.

(** The releases of a list of instances, one after the other: what each
    returned, and the world at the end. *)
Fixpoint releases (insts : list (maasInstance MAASObject Environ)) (w : world Server Filter)
    : list (option error) * world Server Filter :=
  match insts with
  | [] => ([], w)
  | inst :: rest =>
      let '(err, w1) := releaseInstance inst w in
      let '(errs, w2) := releases rest w1 in
      (err :: errs, w2)
  end.

(** The first error of a list of results. *)
Fixpoint first_error (errs : list (option error)) : option error :=
  match errs with
  | [] => None
  | Some e :: _ => Some e
  | None :: rest => first_error rest
  end.

(** The request that releases an instance. *)
Definition release_request (inst : maasInstance MAASObject Environ) : request Filter :=
  mkRequest (URI (maasObject _ _ inst)) "release" no_parameters.

Lemma releaseInstance_requests inst w :
  requests (releaseInstance inst w).2 = requests w ++ [release_request inst].
Proof.
  unfold releaseInstance, CallPost.
  by destruct (post (server w) _) as [[response|err] server'].
Qed.

Lemma stop_loop insts firstErr w :
  foldl release_next (firstErr, w) insts =
  (match firstErr with
   | None => first_error (releases insts w).1
   | Some e => Some e
   end, (releases insts w).2).
Proof.
  revert firstErr w. induction insts as [|inst rest IH]; intros firstErr w; cbn.
  - by destruct firstErr.
  - destruct (releaseInstance inst w) as [err w1] eqn:Hrel.
    rewrite IH. destruct (releases rest w1) as [errs w2]. cbn.
    destruct firstErr; [done |]. by destruct err.
Qed.

Lemma releases_requests insts w :
  requests (releases insts w).2 = requests w ++ (release_request <$> insts).
Proof.
  revert w. induction insts as [|inst rest IH]; intros w; cbn.
  - by rewrite app_nil_r.
  - pose proof (releaseInstance_requests inst w) as Hreq.
    destruct (releaseInstance inst w) as [err w1]. cbn in Hreq.
    specialize (IH w1). destruct (releases rest w1) as [errs w2]. cbn in *.
    by rewrite IH, Hreq, <- app_assoc.
Qed.

Lemma StopInstances_releases
    (instances : slice (maasInstance MAASObject Environ)) (w : world Server Filter) :
  StopInstances instances w =
    (first_error (releases (items instances) w).1, (releases (items instances) w).2).
Proof.
  unfold StopInstances. case_decide as Hlen; [|apply stop_loop].
  destruct instances as [[|inst rest]|]; done.
Qed.

(** X12.  StopInstances sends one release request per instance, in the
    order given, whether or not earlier releases failed, and nothing for an
    empty or nil slice; it returns the error of the first release that
    failed, and nil when none did. *)
Theorem StopInstances_releases_all
    (instances : slice (maasInstance MAASObject Environ)) (w : world Server Filter) :
  StopInstances instances w =
    (first_error (releases (items instances) w).1, (releases (items instances) w).2) /\
  requests (StopInstances instances w).2
    = requests w ++ (release_request <$> items instances) /\
  length (releases (items instances) w).1 = len instances /\
  (len instances = 0%nat -> StopInstances instances w = (None, w)).
Proof.
  pose proof (StopInstances_releases instances w) as Hstop.
  split_and!.
  - done.
  - rewrite Hstop. apply releases_requests.
  - clear Hstop. destruct instances as [l|]; cbn; [|done].
    revert w. induction l as [|inst rest IH]; intros w; cbn; [done |].
    destruct (releaseInstance inst w) as [err w1]. specialize (IH w1).
    destruct (releases rest w1). cbn in *. by rewrite IH.
  - intros Hlen. unfold StopInstances. by rewrite decide_True.
Qed.

(** The ids remembered in [found] are those of [insts]. *)
Definition remembers (found : gmap Id bool)
    (insts : list (maasInstance MAASObject Environ)) : Prop :=
  forall id, default false (found !! id) = true <-> id ∈ Id_of <$> insts.

Lemma remembers_snoc found insts inst :
  remembers found insts ->
  remembers (<[Id_of inst := true]> found) (insts ++ [inst]).
Proof.
  intros Hr id. rewrite fmap_app, elem_of_app. cbn. rewrite list_elem_of_singleton.
  destruct (decide (Id_of inst = id)) as [<-|Hne].
  - rewrite lookup_insert_eq. cbn. split; [by right | done].
  - rewrite lookup_insert_ne by done. rewrite (Hr id). split; [by left |].
    intros [?|?]; [done | congruence].
Qed.

Lemma found_ids_remembers listed : remembers (found_ids listed) listed.
Proof.
  unfold found_ids.
  assert (Hgen : forall l found done_,
            remembers found done_ ->
            remembers (foldl (fun found inst => <[Id_of inst := true]> found) found l)
                      (done_ ++ l)).
  { induction l as [|inst rest IH]; intros found done_ Hr; cbn.
    - by rewrite app_nil_r.
    - rewrite (cons_middle inst done_ rest), app_assoc. apply IH.
      by apply remembers_snoc. }
  apply (Hgen listed ∅ []). intros id. rewrite lookup_empty. cbn.
  split; [done | intros Hin; by apply elem_of_nil in Hin].
Qed.

Lemma ensure_loop ensureInsts insts found :
  remembers found insts ->
  let targets := (foldl ensure_next (insts, found) ensureInsts).1 in
  insts `prefix_of` targets /\
  (forall inst, inst ∈ ensureInsts -> Id_of inst ∈ Id_of <$> targets) /\
  (forall inst, inst ∈ targets -> inst ∈ insts \/ inst ∈ ensureInsts) /\
  (NoDup (Id_of <$> insts) -> NoDup (Id_of <$> targets)).
Proof.
  revert insts found. induction ensureInsts as [|inst rest IH]; intros insts found Hr; cbn.
  - split_and!; [done | | by left | done].
    intros inst Hin. by apply elem_of_nil in Hin.
  - destruct (default false (found !! Id_of inst)) eqn:Hseen.
    + destruct (IH insts found Hr) as (Hpre & Hall & Hfrom & Hnd). cbn in *.
      split_and!; [done | | | done].
      * intros inst' Hin. apply elem_of_cons in Hin as [->|Hin]; [|by apply Hall].
        apply (Hr (Id_of inst)) in Hseen.
        destruct Hpre as [k ->]. rewrite fmap_app, elem_of_app. by left.
      * intros inst' Hin. destruct (Hfrom inst' Hin) as [?|?]; [by left |].
        right. by apply list_elem_of_further.
    + destruct (IH (insts ++ [inst]) (<[Id_of inst := true]> found)
                   (remembers_snoc _ _ _ Hr)) as (Hpre & Hall & Hfrom & Hnd). cbn in *.
      split_and!.
      * etrans; [|exact Hpre]. by apply prefix_app_r.
      * intros inst' Hin. apply elem_of_cons in Hin as [->|Hin]; [|by apply Hall].
        destruct Hpre as [k ->]. rewrite !fmap_app, !elem_of_app. left. right.
        by apply list_elem_of_singleton.
      * intros inst' Hin. destruct (Hfrom inst' Hin) as [Hi|?].
        -- apply elem_of_app in Hi as [?|Hi]; [by left |].
           apply list_elem_of_singleton in Hi as ->. right. apply list_elem_of_here.
        -- right. by apply list_elem_of_further.
      * intros Hnodup. apply Hnd. rewrite fmap_app. apply NoDup_app.
        split_and!; [done | | by apply NoDup_singleton].
        intros id Hin Hin'. apply list_elem_of_singleton in Hin' as ->.
        apply (Hr (Id_of inst)) in Hin. congruence.
Qed.

(** X13.  When the listing succeeds, Destroy releases the listed
    instances followed by those it was told about whose id has not shown
    up before: every instance it was told about has its id among the
    released ones, nothing else is released, and no id is released twice
    when the listing names none twice.  One release request is sent per
    such instance; the storage is removed only when every release
    succeeded, otherwise the error of the first failed release is
    returned. *)
Theorem Destroy_releases_each_instance (environ : Environ)
    (ensureInsts listed : slice (maasInstance MAASObject Environ))
    (w w1 : world Server Filter) :
  AllInstances environ w = (listed, None, w1) ->
  let targets := destroy_targets (items listed) (items ensureInsts) in
  items listed `prefix_of` targets /\
  (forall inst, inst ∈ items ensureInsts -> Id_of inst ∈ Id_of <$> targets) /\
  (forall inst, inst ∈ targets -> inst ∈ items listed \/ inst ∈ items ensureInsts) /\
  (NoDup (Id_of <$> items listed) -> NoDup (Id_of <$> targets)) /\
  requests (releases targets w1).2 = requests w1 ++ (release_request <$> targets) /\
  Destroy environ ensureInsts w =
    match first_error (releases targets w1).1 with
    | Some err => (Some err, (releases targets w1).2)
    | None => RemoveAll (releases targets w1).2
    end.
Proof.
  intros Hlist targets.
  destruct (ensure_loop (items ensureInsts) (items listed) (found_ids (items listed))
              (found_ids_remembers _)) as (Hpre & Hall & Hfrom & Hnd).
  split_and!; [done.. | apply releases_requests |].
  unfold Destroy. rewrite Hlist.
  pose proof (StopInstances_releases (Some targets) w1) as Hstop.
  fold targets. rewrite Hstop. cbn.
  by destruct (first_error (releases targets w1).1).
Qed.

(** X14.  When the listing fails, Destroy releases nothing and leaves the
    storage alone: the only request sent is the listing, and the error
    returned reads "cannot get instances: " followed by the text of the
    listing's error. *)
Theorem Destroy_listing_failed (environ : Environ)
    (ensureInsts listed : slice (maasInstance MAASObject Environ))
    (w w1 : world Server Filter) (err : error) :
  AllInstances environ w = (listed, Some err, w1) ->
  exists e,
    Destroy environ ensureInsts w = (Some e, w1) /\
    Error Quote e = "cannot get instances: " +:+ Error Quote err /\
    requests w1 = requests w ++ [mkRequest "nodes" "list" (getSystemIdValues None)].
Proof.
  intros Hlist. unfold Destroy. rewrite Hlist. eexists. split_and!; [done | done |].
  pose proof (instances_sends_request environ None w) as Hreq.
  unfold AllInstances in Hlist. by rewrite Hlist in Hreq.
Qed.

End Instances.

(** ** A small server, for the examples

    Nodes are known by their system ids; a listing answers with the nodes
    the filter selects, and with all of them when the filter is empty. *)
Inductive json : Type :=
| Node (system_id : string)
| Array (system_ids : list string).

Definition sample_GetArray (obj : json) : list json + error :=
  match obj with
  | Array system_ids => inl (Node <$> system_ids)
  | Node _ => inr (ErrNew "requested array, got object")
  end.

Definition sample_GetMAASObject (obj : json) : string + error :=
  match obj with
  | Node system_id => inl system_id
  | Array _ => inr (ErrNew "requested object, got array")
  end.

Definition sample_filter (ids : slice string) : list string :=
  match ids with
  | Some l => l
  | None => []
  end.

Definition sample_serve (nodes : list string) (req : request (list string))
    : (json + error) * list string :=
  let selected :=
    match parameters _ req with
    | [] => nodes
    | wanted => filter (fun n => n ∈ wanted) nodes
    end in
  (inl (Array selected), nodes).

Definition sample_world : world (list string) (list string) :=
  mkWorld ["node-a"; "node-b"] [].

Definition sample_Instances :=
  Instances (Environ := unit) sample_serve sample_GetArray sample_GetMAASObject sample_filter
            (ErrNew "no instances found") (ErrNew "only some instances were found") tt.

Definition sample_instances :=
  instances (Environ := unit) sample_serve sample_GetArray sample_GetMAASObject sample_filter tt.

(** No id requested; an unknown id; a known and an unknown id. *)
Lemma Instances_errors_witness :
  sample_Instances (Some []) sample_world
    = (None, Some (ErrNew "no instances found"), sample_world) /\
  length (requests (sample_instances (Some []) sample_world).2) = 1%nat /\
  (sample_Instances (Some ["node-c"]) sample_world).1
    = (None, Some (ErrNew "no instances found")) /\
  (sample_Instances (Some ["node-a"; "node-c"]) sample_world).1
    = (Some [mkInstance "node-a" tt], Some (ErrNew "only some instances were found")).
Proof.
  pose proof (Instances_errors (Environ := unit) sample_serve sample_GetArray
                sample_GetMAASObject sample_filter
                (ErrNew "no instances found") (ErrNew "only some instances were found") tt)
    as H.
  split_and!.
  - apply (H (Some []) sample_world). reflexivity.
  - destruct (H (Some []) sample_world) as [H1 _].
    destruct (H1 eq_refl) as [_ Hreq]. unfold sample_instances. by rewrite Hreq.
  - destruct (H (Some ["node-c"]) sample_world) as (_ & H2 & _).
    unfold sample_Instances.
    rewrite (proj1 (H2 (Some []) (sample_instances (Some ["node-c"]) sample_world).2
                       ltac:(done) ltac:(reflexivity)) ltac:(reflexivity)).
    reflexivity.
  - destruct (H (Some ["node-a"; "node-c"]) sample_world) as (_ & H2 & _).
    unfold sample_Instances.
    rewrite (proj2 (H2 (Some [mkInstance "node-a" tt])
                       (sample_instances (Some ["node-a"; "node-c"]) sample_world).2
                       ltac:(done) ltac:(reflexivity)) ltac:(cbn; lia)).
    reflexivity.
Defined.


(** ** Examples for StopInstances and Destroy

    Releasing the node node-b fails; a node is posted to under
    "nodes/<system id>/"; the id of an instance is its system id. *)
Definition sample_post (nodes : list string) (req : request (list string))
    : (json + error) * list string :=
  if bool_decide (resource _ req = "nodes/node-b/")
  then (inr (ErrNew "node-b cannot be released"), nodes)
  else (inl (Array []), nodes).

Definition sample_URI (system_id : string) : string := "nodes/" +:+ system_id +:+ "/".

Definition sample_RemoveAll (w : world (list string) (list string))
    : option error * world (list string) (list string) :=
  (None, mkWorld (server w) (requests w ++ [mkRequest "files" "delete" []])).

(** A server whose listing fails. *)
Definition failing_serve (nodes : list string) (req : request (list string))
    : (json + error) * list string :=
  (inr (ErrNew "gomaasapi: got error back from server: 503"), nodes).

Definition sample_releases :=
  releases (Environ := unit) sample_post sample_URI [].

Definition sample_StopInstances :=
  StopInstances (Environ := unit) sample_post sample_URI [].

Definition sample_Destroy serve :=
  Destroy (Environ := unit) serve sample_GetArray sample_GetMAASObject sample_filter
          sample_post sample_URI [] (maasObject string unit) sample_RemoveAll (fun s => s) tt.

Definition sample_targets :=
  destroy_targets (maasObject string unit).

(** Told about node-a, which is listed, and node-c, which is not. *)
Definition told_about : slice (maasInstance string unit) :=
  Some [mkInstance "node-a" tt; mkInstance "node-c" tt].

Example Destroy_sample :
  sample_targets [mkInstance "node-a" tt; mkInstance "node-b" tt] (items told_about)
    = [mkInstance "node-a" tt; mkInstance "node-b" tt; mkInstance "node-c" tt] /\
  (sample_Destroy sample_serve told_about sample_world).1
    = Some (ErrNew "node-b cannot be released") /\
  length (requests (sample_Destroy sample_serve told_about sample_world).2) = 4%nat.
Proof. split_and!; reflexivity. Qed.

(** No instance at all, then the two listed nodes. *)
Lemma StopInstances_releases_all_witness :
  sample_StopInstances None sample_world = (None, sample_world) /\
  requests (sample_StopInstances
              (Some [mkInstance "node-b" tt; mkInstance "node-a" tt]) sample_world).2
    = [mkRequest "nodes/node-b/" "release" []; mkRequest "nodes/node-a/" "release" []].
Proof.
  split.
  - apply (StopInstances_releases_all (Environ := unit) sample_post sample_URI []
             None sample_world). reflexivity.
  - apply (StopInstances_releases_all (Environ := unit) sample_post sample_URI []
             (Some [mkInstance "node-b" tt; mkInstance "node-a" tt]) sample_world).
Defined.

(** The listing names node-a and node-b; Destroy is told about node-a and
    node-c. *)
Lemma Destroy_releases_each_instance_witness :
  let listed := [mkInstance "node-a" tt; mkInstance "node-b" tt] in
  let targets := sample_targets listed (items told_about) in
  let w1 := mkWorld ["node-a"; "node-b"] [mkRequest "nodes" "list" []] in
  listed `prefix_of` targets /\
  (forall inst, inst ∈ items told_about ->
                maasObject string unit inst ∈ maasObject string unit <$> targets) /\
  (forall inst, inst ∈ targets -> inst ∈ listed \/ inst ∈ items told_about) /\
  (NoDup (maasObject string unit <$> listed) ->
   NoDup (maasObject string unit <$> targets)) /\
  requests (sample_releases targets w1).2
    = requests w1 ++ (release_request sample_URI [] <$> targets) /\
  sample_Destroy sample_serve told_about sample_world =
    match first_error (sample_releases targets w1).1 with
    | Some err => (Some err, (sample_releases targets w1).2)
    | None => sample_RemoveAll (sample_releases targets w1).2
    end.
Proof.
  apply (Destroy_releases_each_instance (Environ := unit) sample_serve sample_GetArray
           sample_GetMAASObject sample_filter sample_post sample_URI []
           (maasObject string unit) sample_RemoveAll (fun s => s) tt told_about
           (Some [mkInstance "node-a" tt; mkInstance "node-b" tt]) sample_world).
  reflexivity.
Defined.

Lemma Destroy_listing_failed_witness :
  exists e,
    sample_Destroy failing_serve told_about sample_world
      = (Some e, mkWorld ["node-a"; "node-b"] [mkRequest "nodes" "list" []]) /\
    Error (fun s => s) e
      = "cannot get instances: "
          +:+ Error (fun s => s) (ErrNew "gomaasapi: got error back from server: 503") /\
    requests (mkWorld ["node-a"; "node-b"] [mkRequest "nodes" "list" ([] : list string)])
      = requests sample_world ++ [mkRequest "nodes" "list" (sample_filter None)].
Proof.
  apply (Destroy_listing_failed (Environ := unit) failing_serve sample_GetArray
           sample_GetMAASObject sample_filter sample_post sample_URI []
           (maasObject string unit) sample_RemoveAll (fun s => s) tt told_about None
           sample_world).
  reflexivity.
Defined.

End Maas.

(* ===================================================================== *)
(** * Version numbers for the examples *)
(* ===================================================================== *)
Module Version.

(** Package version is not among the sources.  Where an example needs
    concrete version numbers, a number is four ints, Major, Minor, Patch
    and Build, and [Less] compares them field by field in that order. *)
Record Number : Type := mkNumber {
  Major : Z;
  Minor : Z;
  Patch : Z;
  Build : Z
}.

#[global] Instance Number_eq_dec : EqDecision Number.
Proof. solve_decision. Defined.

(** The zero value: 0.0.0.0 *)
Definition Zero : Number := mkNumber 0 0 0 0.

Definition Less (v w : Number) : bool :=
  if decide (Major v <> Major w) then bool_decide (Major v < Major w)
  else if decide (Minor v <> Minor w) then bool_decide (Minor v < Minor w)
  else if decide (Patch v <> Patch w) then bool_decide (Patch v < Patch w)
  else if decide (Build v <> Build w) then bool_decide (Build v < Build w)
  else false.

Lemma Less_irrefl (a : Number) : Less a a = false.
Proof. unfold Less. by repeat (rewrite decide_False by (intros H; by apply H)). Qed.

Lemma Less_trans (a b c : Number) :
  Less a b = true -> Less b c = true -> Less a c = true.
Proof.
  destruct a, b, c. unfold Less. cbn.
  repeat case_decide; rewrite ?bool_decide_eq_true; try done; lia.
Qed.

Lemma Less_total (a b : Number) : a <> b -> Less a b = true \/ Less b a = true.
Proof.
  destruct a, b. unfold Less. cbn. intros Hne.
  repeat case_decide; rewrite ?bool_decide_eq_true; try lia.
  destruct Hne. f_equal; lia.
Qed.

End Version.

(* ===================================================================== *)
(** * package tools: lists of tools (environs/tools/list.go) *)
(* ===================================================================== *)
Module Tools.
Import Go.

(** [state.Tools], with the fields of the embedded [version.Binary] that
    list.go reads. *)
Record Tools (Number : Type) : Type := mkTools {
  Number_of : Number;
  Series : string;
  Arch : string;
  URL : string
}.
Arguments mkTools {Number} Number_of Series Arch URL.
Arguments Number_of {Number} t.
Arguments Series {Number} t.
Arguments Arch {Number} t.
Arguments URL {Number} t.

Section List.

(** ** Version numbers

    Package version is not among the sources: [version.Number] is a type
    with Go's [==], its method [Less] and its zero value. *)
Context {Number : Type} `{EqDecision Number}.
Variable Less : Number -> Number -> bool.
Variable zero : Number.

(** [List] holds tools available in an environment: a slice of pointers
    to [state.Tools], here the list of the structs pointed to. *)
Abbreviation List := (list (Tools Number)).

(** The body of the loop of [Newest]. *)
Definition Newest_step (acc : Number * List) (tools : Tools Number) : Number * List :=
  let '(best, result) := acc in
  if Less best (Number_of tools) then (Number_of tools, [tools])
  else if decide (Number_of tools = best) then (best, result ++ [tools])
  else (best, result).

(** [Newest] returns the greatest version in src, and the tools with that
    version. *)
Definition Newest (src : List) : Number * List :=
  foldl Newest_step (zero, []) src.

(** What [Newest] computes, said without a loop. *)
Definition greatest_of (best : Number) (src : List) : Prop :=
  Less best zero = false /\
  (forall t, t ∈ src -> Less best (Number_of t) = false) /\
  (best = zero \/ exists t, t ∈ src /\ Number_of t = best).

Definition with_number (best : Number) (src : List) : List :=
  filter (fun t => Number_of t = best) src.

(** ** Properties *)

(** [Less] is a strict total order. *)
Hypothesis Less_irrefl : forall a, Less a a = false.
Hypothesis Less_trans : forall a b c, Less a b = true -> Less b c = true -> Less a c = true.
Hypothesis Less_total : forall a b, a <> b -> Less a b = true \/ Less b a = true.

Lemma with_number_none (best : Number) (src : List) :
  (forall t, t ∈ src -> Number_of t <> best) -> with_number best src = [].
Proof.
  unfold with_number. induction src as [|t src IH]; intros H; [done |].
  rewrite filter_cons_False by (apply H, list_elem_of_here).
  apply IH. intros t' Ht'. apply H. by apply list_elem_of_further.
Qed.

Lemma Newest_snoc (src : List) (tools : Tools Number) :
  Newest (src ++ [tools]) = Newest_step (Newest src) tools.
Proof. unfold Newest. by rewrite foldl_app. Qed.

Lemma Newest_spec (src : List) :
  greatest_of (Newest src).1 src /\ (Newest src).2 = with_number (Newest src).1 src.
Proof.
  induction src as [|tools src IH] using rev_ind.
  - cbn. split; [|done]. split_and!; [apply Less_irrefl | | by left].
    intros t Ht. by apply elem_of_nil in Ht.
  - rewrite Newest_snoc. destruct (Newest src) as [best result].
    destruct IH as [(Hzero & Hub & Hmem) Hres]. cbn in Hzero, Hub, Hmem, Hres.
    unfold Newest_step, with_number in *.
    destruct (Less best (Number_of tools)) eqn:Hless; cbn.
    + split; [split_and! |].
      * destruct (Less (Number_of tools) zero) eqn:E; [|done].
        by rewrite (Less_trans _ _ _ Hless E) in Hzero.
      * intros t Ht. apply elem_of_app in Ht as [Ht|Ht].
        -- destruct (Less (Number_of tools) (Number_of t)) eqn:E; [|done].
           pose proof (Hub t Ht) as Hn. by rewrite (Less_trans _ _ _ Hless E) in Hn.
        -- apply list_elem_of_singleton in Ht as ->. apply Less_irrefl.
      * right. exists tools. split; [|done]. apply elem_of_app. right.
        by apply list_elem_of_singleton.
      * rewrite filter_app.
        change (filter _ src) with (with_number (Number_of tools) src).
        rewrite with_number_none.
        -- by rewrite filter_singleton_True.
        -- intros t Ht Heq.
           pose proof (Hub t Ht) as Hn. rewrite Heq in Hn. congruence.
    + destruct (decide (Number_of tools = best)) as [Heq|Hne]; cbn.
      * split; [split_and! |].
        -- done.
        -- intros t Ht. apply elem_of_app in Ht as [Ht|Ht]; [by apply Hub |].
           apply list_elem_of_singleton in Ht as ->. done.
        -- destruct Hmem as [->|(t & Ht & Hn)]; [by left |].
           right. exists t. split; [|done]. apply elem_of_app. by left.
        -- rewrite filter_app, Hres. f_equal.
           by rewrite filter_singleton_True.
      * split; [split_and! |].
        -- done.
        -- intros t Ht. apply elem_of_app in Ht as [Ht|Ht]; [by apply Hub |].
           apply list_elem_of_singleton in Ht as ->. done.
        -- destruct Hmem as [->|(t & Ht & Hn)]; [by left |].
           right. exists t. split; [|done]. apply elem_of_app. by left.
        -- rewrite filter_app, Hres.
           rewrite filter_singleton_False by done.
           by rewrite app_nil_r.
Qed.


Lemma Newest_loop_same (best : Number) (rest result : List) :
  (forall t, t ∈ rest -> Number_of t = best) ->
  foldl Newest_step (best, result) rest = (best, result ++ rest).
Proof.
  revert result. induction rest as [|t rest IH]; intros result Hall.
  - by rewrite app_nil_r.
  - cbn [foldl]. unfold Newest_step at 2.
    rewrite (Hall t (list_elem_of_here _ _)), Less_irrefl.
    destruct (decide (best = best)) as [_|]; [|done].
    rewrite IH by (intros t' Ht'; apply Hall; by apply list_elem_of_further).
    by rewrite <- app_assoc.
Qed.

Lemma Newest_same (best : Number) (src : List) :
  Less best zero = false -> src <> [] ->
  (forall t, t ∈ src -> Number_of t = best) ->
  Newest src = (best, src).
Proof.
  intros Hzero Hne Hall. destruct src as [|t rest]; [done |].
  unfold Newest. cbn [foldl]. unfold Newest_step at 2.
  rewrite (Hall t (list_elem_of_here _ _)).
  assert (Hrest : forall t', t' ∈ rest -> Number_of t' = best)
    by (intros t' Ht'; apply Hall; by apply list_elem_of_further).
  destruct (Less zero best) eqn:Hless.
  - by rewrite Newest_loop_same.
  - destruct (decide (best = zero)) as [->|Hnz].
    + by rewrite Newest_loop_same.
    + destruct (Less_total _ _ Hnz); congruence.
Qed.

(** X19.  Newest is idempotent: the newest tools of the tools Newest
    returned are those same tools, with the same best version. *)
Theorem Newest_of_newest (src : List) :
  Newest (Newest src).2 = Newest src.
Proof.
  destruct (Newest_spec src) as [(Hzero & Hub & Hmem) Hres].
  destruct (Newest src) as [best result] eqn:HN. cbn in *.
  destruct result as [|t result'].
  - destruct Hmem as [->|(t & Ht & Hn)]; [done |].
    exfalso. symmetry in Hres. apply (filter_nil_not_elem_of _ _ t Hres); done.
  - apply Newest_same; [done | done |].
    intros t' Ht'. rewrite Hres in Ht'. unfold with_number in Ht'.
    by apply list_elem_of_filter in Ht' as [? _].
Qed.

End List.

(** ** Examples *)

(** Tools for 1.2.3 and, for two series, 1.10.0. *)
Definition sample_tools : list (Tools Version.Number) :=
  [mkTools (Version.mkNumber 1 2 3 0) "precise" "amd64" "http://tools/1.2.3-precise-amd64.tgz";
   mkTools (Version.mkNumber 1 10 0 0) "precise" "amd64" "http://tools/1.10.0-precise-amd64.tgz";
   mkTools (Version.mkNumber 1 10 0 0) "quantal" "i386" "http://tools/1.10.0-quantal-i386.tgz"].


Example Newest_sample_tools :
  Newest Version.Less Version.Zero sample_tools
  = (Version.mkNumber 1 10 0 0, drop 1 sample_tools).
Proof. reflexivity. Qed.



(** X19 on [sample_tools], whose newest tools are the two for 1.10.0. *)
Lemma Newest_of_newest_witness :
  Newest Version.Less Version.Zero (Newest Version.Less Version.Zero sample_tools).2
  = Newest Version.Less Version.Zero sample_tools.
Proof.
  apply (Newest_of_newest Version.Less Version.Zero
           Version.Less_irrefl Version.Less_trans Version.Less_total sample_tools).
Defined.

(* --------------------------------------------------------------------- *)
(** ** The other methods of List, and Filter *)
(* --------------------------------------------------------------------- *)

Section Selection.

(** [version.Number] with Go's [==], usable as part of a map key;
    [version.Zero]; [tools.IsDev()]; and [ErrNoMatches].  Packages version
    and state and the error are not among the sources. *)
Context {Number : Type} `{Countable Number}.
Variable Zero : Number.
Variable IsDev : Tools Number -> bool.
Variable ErrNoMatches : error.

(** [tools.Binary]: the embedded [version.Binary], the number with the
    series and the architecture. *)
Definition Binary_of (tools : Tools Number) : Number * string * string :=
  (Number_of tools, Series tools, Arch tools).

(** [collect] calls f on all values in src and returns an alphabetically
    ordered list of the returned results without duplicates.  [seen] is a
    [set.Strings] (utils/set, not among the sources): a finite set of
    strings, with [Add] and, for [SortedValues], its values sorted. *)
Definition collect (src : list (Tools Number)) (f : Tools Number -> string) : list string :=
  let seen : gset string := foldl (fun seen tools => {[ f tools ]} ∪ seen) ∅ src in
  sort_Strings (elements seen).

(** [Series] returns all series for which some tools in src were built. *)
Definition AllSeries (src : list (Tools Number)) : list string := collect src Series.

(** [Arches] returns all architectures for which some tools in src were built. *)
Definition Arches (src : list (Tools Number)) : list string := collect src Arch.

(** [URLs] returns download URLs for the tools in src, keyed by binary version. *)
Definition URLs (src : list (Tools Number)) : gmap (Number * string * string) string :=
  foldl (fun result tools => <[Binary_of tools := URL tools]> result) ∅ src.

(** [Exclude] returns the tools in src that are not in excluded. *)
Definition Exclude (src excluded : list (Tools Number)) : list (Tools Number) :=
  let ignore : gmap (Number * string * string) bool :=
    foldl (fun ignore tool => <[Binary_of tool := true]> ignore) ∅ excluded in
  foldl (fun result tool =>
           if negb (default false (ignore !! Binary_of tool))
           then result ++ [tool] else result)
        [] src.

(** [Filter] holds criteria for choosing tools. *)
Record Filter : Type := mkFilter {
  Released : bool;
  Filter_Number : Number;
  Filter_Series : string;
  Filter_Arch : string
}.

(** [match] returns true if the supplied tools match f. *)
Definition matches (f : Filter) (tools : Tools Number) : bool :=
  if Released f && IsDev tools then false
  else if bool_decide (Filter_Number f <> Zero)
          && bool_decide (Number_of tools <> Filter_Number f) then false
  else if bool_decide (Filter_Series f <> EmptyString)
          && bool_decide (Series tools <> Filter_Series f) then false
  else if bool_decide (Filter_Arch f <> EmptyString)
          && bool_decide (Arch tools <> Filter_Arch f) then false
  else true.

(** [Match] returns a List, derived from src, containing only those tools
    that match the supplied Filter.  If no tools match, it returns
    ErrNoMatches. *)
Definition Match (src : list (Tools Number)) (f : Filter)
    : list (Tools Number) * option error :=
  let result :=
    foldl (fun result tools => if matches f tools then result ++ [tools] else result)
          [] src in
  if decide (length result = 0%nat) then ([], Some ErrNoMatches)
  else (result, None).

(** *** Properties *)

Lemma collect_seen (f : Tools Number -> string) (src : list (Tools Number))
    (seen : gset string) (x : string) :
  x ∈ foldl (fun seen tools => {[ f tools ]} ∪ seen) seen src <->
  x ∈ seen \/ exists tools, tools ∈ src /\ f tools = x.
Proof.
  revert seen. induction src as [|t src IH]; intros seen; cbn.
  - split; [by left | intros [?|(t & Hin & _)]; [done | by apply elem_of_nil in Hin]].
  - rewrite IH, elem_of_union, elem_of_singleton. split.
    + intros [[->|?]|(t' & Hin & Hf)].
      * right. exists t. split; [apply list_elem_of_here | done].
      * by left.
      * right. exists t'. split; [by apply list_elem_of_further | done].
    + intros [?|(t' & Hin & Hf)]; [left; by right |].
      apply elem_of_cons in Hin as [->|Hin]; [left; by left |].
      right. by exists t'.
Qed.

Lemma elem_of_collect (f : Tools Number -> string) (src : list (Tools Number)) (x : string) :
  x ∈ collect src f <-> exists tools, tools ∈ src /\ f tools = x.
Proof.
  unfold collect, sort_Strings. rewrite merge_sort_Permutation, elem_of_elements.
  rewrite collect_seen. split; [intros [Hin|?]; [set_solver | done] | by right].
Qed.

Lemma NoDup_all_equal (l : list string) (x : string) :
  NoDup l -> l <> [] -> (forall y, y ∈ l -> y = x) -> l = [x].
Proof.
  intros Hnd Hne Hall. destruct l as [|a [|b l]]; [done | |].
  - f_equal. apply Hall, list_elem_of_here.
  - exfalso. apply NoDup_cons in Hnd as [Hnotin _]. apply Hnotin.
    rewrite (Hall a (list_elem_of_here _ _)).
    rewrite <- (Hall b (list_elem_of_further _ _ _ (list_elem_of_here _ _))).
    apply list_elem_of_here.
Qed.

(** X15.  collect, and with it Series and Arches, returns in increasing
    order and without duplicates exactly the values f takes on the tools
    of src.  It returns a single value s iff src is not empty and f is s
    on every tool of src: the test obtainNode makes before it takes the
    first of the possible tools. *)
Theorem collect_sorted_values (f : Tools Number -> string) (src : list (Tools Number)) :
  Sorted string_le (collect src f) /\
  NoDup (collect src f) /\
  (forall x, x ∈ collect src f <-> exists tools, tools ∈ src /\ f tools = x) /\
  (forall s, collect src f = [s] <-> src <> [] /\ forall tools, tools ∈ src -> f tools = s) /\
  AllSeries src = collect src Series /\ Arches src = collect src Arch.
Proof.
  assert (Hnd : NoDup (collect src f)).
  { unfold collect, sort_Strings. rewrite merge_sort_Permutation. apply NoDup_elements. }
  split_and!; [| done | apply elem_of_collect | | done | done].
  - unfold collect, sort_Strings. apply Sorted_merge_sort, string_le_total.
  - intros s. split.
    + intros Heq. split.
      * intros ->. assert (s ∈ collect [] f) as Hin by (rewrite Heq; apply list_elem_of_here).
        apply elem_of_collect in Hin as (t & Hin & _). by apply elem_of_nil in Hin.
      * intros t Ht. assert (f t ∈ collect src f) as Hin by (apply elem_of_collect; eauto).
        rewrite Heq in Hin. by apply list_elem_of_singleton in Hin.
    + intros [Hne Hall]. apply NoDup_all_equal; [done | |].
      * destruct src as [|t src']; [done |]. intros Hnil.
        assert (f t ∈ collect (t :: src') f) as Hin.
        { apply elem_of_collect. exists t. split; [apply list_elem_of_here | done]. }
        rewrite Hnil in Hin. by apply elem_of_nil in Hin.
      * intros y Hy. apply elem_of_collect in Hy as (t & Ht & <-). by apply Hall.
Qed.

Lemma ignore_lookup (excluded : list (Tools Number)) (b : Number * string * string)
    (ignore : gmap (Number * string * string) bool) :
  default false (foldl (fun ignore tool => <[Binary_of tool := true]> ignore) ignore excluded
                 !! b) = true <->
  default false (ignore !! b) = true \/ b ∈ Binary_of <$> excluded.
Proof.
  revert ignore. induction excluded as [|t rest IH]; intros ignore; cbn.
  - split; [by left | intros [?|Hin]; [done | by apply elem_of_nil in Hin]].
  - rewrite IH, elem_of_cons.
    destruct (decide (Binary_of t = b)) as [<-|Hne].
    + rewrite lookup_insert_eq. cbn. split; [intros _; right; by left | by left].
    + rewrite lookup_insert_ne by done. split.
      * intros [?|?]; [by left | right; by right].
      * intros [?|[?|?]]; [by left | congruence | by right].
Qed.

Lemma keep_loop {A} (keep : A -> bool) (src : list A) (result : list A) :
  foldl (fun result x => if keep x then result ++ [x] else result) result src
  = result ++ filter (fun x => keep x = true) src.
Proof.
  revert result. induction src as [|x src IH]; intros result.
  - cbn. by rewrite app_nil_r.
  - cbn [foldl]. rewrite IH. destruct (keep x) eqn:Hk.
    + rewrite (filter_cons_True (fun x => keep x = true)) by done.
      by rewrite <- app_assoc.
    + rewrite (filter_cons_False (fun x => keep x = true)) by (by rewrite Hk). done.
Qed.

Lemma filter_ext_in {A} (P Q : A -> Prop) `{!forall x, Decision (P x)}
    `{!forall x, Decision (Q x)} (l : list A) :
  (forall x, x ∈ l -> P x <-> Q x) -> filter P l = filter Q l.
Proof.
  induction l as [|x l IH]; intros Hext; [done |].
  assert (Hl : filter P l = filter Q l).
  { apply IH. intros y Hy. apply Hext. by apply list_elem_of_further. }
  destruct (decide (P x)) as [Hp|Hp].
  - rewrite !filter_cons_True; [by rewrite Hl | by apply Hext; [apply list_elem_of_here |] | done].
  - rewrite !filter_cons_False; [done | | done].
    intros Hq. apply Hp. by apply (Hext x (list_elem_of_here _ _)).
Qed.

Lemma filter_all {A} (P : A -> Prop) `{!forall x, Decision (P x)} (l : list A) :
  (forall x, x ∈ l -> P x) -> filter P l = l.
Proof.
  induction l as [|x l IH]; intros Hall; [done |].
  rewrite filter_cons_True by (apply Hall, list_elem_of_here).
  f_equal. apply IH. intros y Hy. apply Hall. by apply list_elem_of_further.
Qed.

Lemma filter_none {A} (P : A -> Prop) `{!forall x, Decision (P x)} (l : list A) :
  (forall x, x ∈ l -> ~ P x) -> filter P l = [].
Proof.
  induction l as [|x l IH]; intros Hnone; [done |].
  rewrite filter_cons_False by (apply Hnone, list_elem_of_here).
  apply IH. intros y Hy. apply Hnone. by apply list_elem_of_further.
Qed.

Lemma Exclude_filter (src excluded : list (Tools Number)) :
  Exclude src excluded = filter (fun t => Binary_of t ∉ Binary_of <$> excluded) src.
Proof.
  unfold Exclude. rewrite keep_loop. cbn. apply filter_ext_in. intros t _.
  rewrite negb_true_iff, <- not_true_iff_false, ignore_lookup, lookup_empty. cbn.
  split; [intros Hn Hin; apply Hn; by right | intros Hn [?|?]; [done | by apply Hn]].
Qed.

(** X16.  Exclude returns, in their original order, exactly the tools of
    src whose binary version (number, series and architecture; the URL
    plays no part) is not that of any excluded tool.  Excluding nothing
    returns src, excluding src itself returns nothing, and excluding the
    same tools again changes nothing. *)
Theorem Exclude_by_binary (src excluded : list (Tools Number)) :
  Exclude src excluded = filter (fun t => Binary_of t ∉ Binary_of <$> excluded) src /\
  (forall t, t ∈ Exclude src excluded <->
             t ∈ src /\ forall e, e ∈ excluded -> Binary_of e <> Binary_of t) /\
  Exclude src [] = src /\
  Exclude src src = [] /\
  Exclude (Exclude src excluded) excluded = Exclude src excluded.
Proof.
  split_and!.
  - apply Exclude_filter.
  - intros t. rewrite Exclude_filter, list_elem_of_filter, list_elem_of_fmap. split.
    + intros [Hn Hin]. split; [done |]. intros e He Heq. apply Hn. by exists e.
    + intros [Hin Hn]. split; [|done]. intros (e & Heq & He). by apply (Hn e).
  - rewrite Exclude_filter. apply filter_all. intros t _. apply not_elem_of_nil.
  - rewrite Exclude_filter. apply filter_none. intros t Ht Hn. apply Hn.
    apply list_elem_of_fmap. by exists t.
  - rewrite !Exclude_filter. apply filter_all. intros t Ht.
    by apply list_elem_of_filter in Ht as [? _].
Qed.

(** What a Filter selects: released tools when Released is set, exactly
    the filter's number unless that number is the zero version, the
    filter's series unless it is empty, the filter's architecture unless
    it is empty. *)
Definition selected_by (f : Filter) (tools : Tools Number) : Prop :=
  (Released f = true -> IsDev tools = false) /\
  (Filter_Number f <> Zero -> Number_of tools = Filter_Number f) /\
  (Filter_Series f <> EmptyString -> Series tools = Filter_Series f) /\
  (Filter_Arch f <> EmptyString -> Arch tools = Filter_Arch f).

Lemma matches_criteria (f : Filter) (tools : Tools Number) :
  matches f tools = true <-> selected_by f tools.
Proof.
  unfold matches, selected_by.
  destruct (decide (Filter_Number f = Zero)), (decide (Number_of tools = Filter_Number f)),
    (decide (Filter_Series f = EmptyString)), (decide (Series tools = Filter_Series f)),
    (decide (Filter_Arch f = EmptyString)), (decide (Arch tools = Filter_Arch f)),
    (Released f), (IsDev tools); cbn;
    rewrite ?(bool_decide_true (_ <> _)), ?(bool_decide_false (_ <> _)) by tauto; cbn;
    rewrite ?(bool_decide_true (_ <> _)), ?(bool_decide_false (_ <> _)) by tauto; cbn;
    rewrite ?(bool_decide_true (_ <> _)), ?(bool_decide_false (_ <> _)) by tauto; cbn;
    intuition congruence.
Qed.

Lemma Match_filter (src : list (Tools Number)) (f : Filter) :
  Match src f =
  match filter (fun t => matches f t = true) src with
  | [] => ([], Some ErrNoMatches)
  | result => (result, None)
  end.
Proof.
  unfold Match. rewrite keep_loop. cbn.
  by destruct (filter (fun t => matches f t = true) src).
Qed.

(** X17.  Match returns ErrNoMatches, and no tools, exactly when no tool
    of src is selected by the filter; otherwise it returns without error
    the tools of src that the filter selects, in their original order,
    and at least one.  A tool is selected when it is released if Released
    is set, has the filter's number unless that is the zero version (so a
    filter for the zero version selects every version), the filter's
    series unless empty and the filter's architecture unless empty.
    Matching the result again with the same filter returns it unchanged,
    and the filter without criteria returns every non-empty list as it
    is. *)
Theorem Match_selects (src : list (Tools Number)) (f : Filter) :
  ((Match src f).2 = None <-> exists t, t ∈ src /\ selected_by f t) /\
  ((Match src f).2 = None \/ Match src f = ([], Some ErrNoMatches)) /\
  (Match src f).1 = filter (fun t => matches f t = true) src /\
  (forall t, t ∈ (Match src f).1 <-> t ∈ src /\ selected_by f t) /\
  ((Match src f).2 = None -> (Match src f).1 <> []) /\
  Match (Match src f).1 f = Match src f /\
  (src <> [] -> Match src (mkFilter false Zero EmptyString EmptyString) = (src, None)).
Proof.
  assert (Hres : (Match src f).1 = filter (fun t => matches f t = true) src).
  { rewrite Match_filter. by destruct (filter _ src). }
  split_and!.
  - rewrite Match_filter. destruct (filter _ src) as [|t l] eqn:Hf; cbn.
    + split; [done |]. intros (t & Ht & Hm). apply matches_criteria in Hm.
      assert (t ∈ filter (fun t => matches f t = true) src) as Hin
        by (by apply list_elem_of_filter).
      rewrite Hf in Hin. by apply elem_of_nil in Hin.
    + split; [|done]. intros _. exists t.
      assert (t ∈ filter (fun t => matches f t = true) src) as Hin
        by (rewrite Hf; apply list_elem_of_here).
      apply list_elem_of_filter in Hin as [Hm ?]. by apply matches_criteria in Hm.
  - rewrite Match_filter. destruct (filter _ src); [by right | by left].
  - done.
  - intros t. rewrite Hres, list_elem_of_filter, matches_criteria. tauto.
  - rewrite Match_filter. by destruct (filter _ src).
  - rewrite Hres, (Match_filter (filter _ src)), Match_filter.
    rewrite filter_all; [done |]. intros t Ht. by apply list_elem_of_filter in Ht as [? _].
  - intros Hne. rewrite Match_filter. rewrite filter_all.
    + by destruct src.
    + intros t _. apply matches_criteria. unfold selected_by. cbn. done.
Qed.

Lemma URLs_loop (src : list (Tools Number)) (result : gmap (Number * string * string) string)
    (b : Number * string * string) :
  foldl (fun result tools => <[Binary_of tools := URL tools]> result) result src !! b =
  match last (filter (fun t => Binary_of t = b) src) with
  | Some t => Some (URL t)
  | None => result !! b
  end.
Proof.
  revert result. induction src as [|t src IH]; intros result; [done |].
  cbn [foldl]. rewrite IH. destruct (decide (Binary_of t = b)) as [Hb|Hb].
  - rewrite filter_cons_True by done. rewrite last_cons.
    destruct (last (filter _ src)); [done |]. by rewrite <- Hb, lookup_insert_eq.
  - rewrite filter_cons_False by done.
    destruct (last (filter _ src)); [done |]. by rewrite lookup_insert_ne.
Qed.

(** X18.  URLs maps each binary version occurring in src to the URL of
    the last tools in src with that binary version, and has no other
    key. *)
Theorem URLs_last_wins (src : list (Tools Number)) (b : Number * string * string) :
  URLs src !! b = URL <$> last (filter (fun t => Binary_of t = b) src) /\
  (is_Some (URLs src !! b) <-> b ∈ Binary_of <$> src).
Proof.
  assert (Hl : URLs src !! b = URL <$> last (filter (fun t => Binary_of t = b) src)).
  { unfold URLs. rewrite URLs_loop, lookup_empty. by destruct (last _). }
  split; [done |]. rewrite Hl, list_elem_of_fmap. split.
  - intros [u Hu]. destruct (last _) as [t|] eqn:Hlast; [|done].
    apply last_Some in Hlast as [l' Hl'].
    assert (t ∈ filter (fun t => Binary_of t = b) src) as Hin.
    { rewrite Hl'. apply elem_of_app. right. by apply list_elem_of_singleton. }
    apply list_elem_of_filter in Hin as [<- ?]. by exists t.
  - intros (t & -> & Ht).
    assert (t ∈ filter (fun t' => Binary_of t' = Binary_of t) src) as Hin
      by (by apply list_elem_of_filter).
    destruct (filter _ src) as [|x l] eqn:Hf using rev_ind.
    + by apply elem_of_nil in Hin.
    + rewrite last_snoc. by eexists.
Qed.

End Selection.

(** ** Examples *)

#[global] Instance Number_countable : Countable Version.Number :=
  inj_countable'
    (fun v => (Version.Major v, Version.Minor v, Version.Patch v, Version.Build v))
    (fun '(major, minor, patch, build) => Version.mkNumber major minor patch build)
    (fun v => match v with Version.mkNumber _ _ _ _ => eq_refl end).

(** A development version, for the examples, has an odd Minor or a Build
    above zero. *)
Definition sample_IsDev (tools : Tools Version.Number) : bool :=
  Z.odd (Version.Minor (Number_of tools)) || bool_decide (0 < Version.Build (Number_of tools)).

Example AllSeries_sample_tools :
  AllSeries sample_tools = ["precise"; "quantal"] /\
  Arches sample_tools = ["amd64"; "i386"].
Proof. split; vm_compute; reflexivity. Qed.

Example Exclude_sample_tools :
  Exclude sample_tools (take 1 sample_tools) = drop 1 sample_tools.
Proof. vm_compute. reflexivity. Qed.

Example Match_sample_tools :
  Match Version.Zero sample_IsDev (ErrNew "no matching tools available") sample_tools
    (mkFilter true Version.Zero "quantal" EmptyString)
  = (drop 2 sample_tools, None) /\
  Match Version.Zero sample_IsDev (ErrNew "no matching tools available") sample_tools
    (mkFilter true Version.Zero "raring" EmptyString)
  = ([], Some (ErrNew "no matching tools available")).
Proof. split; vm_compute; reflexivity. Qed.

Example URLs_sample_tools :
  URLs sample_tools !! (Version.mkNumber 1 10 0 0, "quantal", "i386")
  = Some "http://tools/1.10.0-quantal-i386.tgz".
Proof. vm_compute. reflexivity. Qed.

End Tools.

(* ===================================================================== *)
(** * package uniter: hook tool symlinks (EnsureTools) *)
(* ===================================================================== *)
Module HookTools.
Import Go.

(** An entry of a directory: a symbolic link or a regular file, with the
    time it was last written. *)
Inductive entry : Type :=
| Symlink (target : string) (mtime : Z)
| File (content : string) (mtime : Z).

(** The file system: the tools directories by name, each mapping the
    names in it to its entries. *)
Record filesystem : Type := mkFilesystem {
  dirs : gmap string (gmap string entry)
}.

(** What every hook command links to. *)
Definition jujuc : string := "./jujuc".

(** The name of the tools directory of a unit: "unit-" and the unit id
    with every slash turned into a dash ("u/123" has "unit-u-123"). *)
Fixpoint dashes (s : string) : string :=
  match s with
  | EmptyString => EmptyString
  | String c rest => String (if Ascii.eqb c "/" then "-"%char else c) (dashes rest)
  end.

Definition toolsDir (unitId : string) : string := "unit-" +:+ dashes unitId.

(** Whether an entry is the link a hook command must be. *)
Definition correct_link (e : entry) : bool :=
  match e with
  | Symlink target _ => bool_decide (target = jujuc)
  | File _ _ => false
  end.

Section EnsureTools.

(** [server.CommandNames()]: the recognized hook command names. *)
Variable CommandNames : list string.

(** Modelled from the spec: worker/uniter/tools.go, which defines
    [EnsureTools], is not among the sources (only its test is).  By
    section 6 of the specification the unit's tools directory holds one
    symlink to ./jujuc per recognized hook command name, and
    ensureTools(unitId) creates the symlinks idempotently, never
    overwriting a correct symlink.  One command name: a correct link is
    left as it is, anything else is replaced by a link written at the time
    of the call. *)
Definition ensure_link (now : Z) (dir : gmap string entry) (name : string)
    : gmap string entry :=
  match dir !! name with
  | Some e => if correct_link e then dir else <[name := Symlink jujuc now]> dir
  | None => <[name := Symlink jujuc now]> dir
  end.

(** Modelled from the spec: [EnsureTools] (see [ensure_link]) for a unit,
    called at time [now].  Without the unit's tools directory it fails, as
    the test TestEnsureToolsBadDir expects, with "cannot initialize hook
    commands ...: no such file or directory". *)
Definition EnsureTools (now : Z) (unitId : string) (fs : filesystem)
    : filesystem * option error :=
  match dirs fs !! toolsDir unitId with
  | None =>
      (fs, Some (Errorf "cannot initialize hook commands in %q: %s"
                        [Str (toolsDir unitId); Str "no such file or directory"]))
  | Some dir =>
      (mkFilesystem (<[toolsDir unitId := foldl (ensure_link now) dir CommandNames]> (dirs fs)),
       None)
  end.

(** Every recognized command is a correct link in the directory. *)
Definition all_linked (dir : gmap string entry) : Prop :=
  forall name, name ∈ CommandNames ->
    exists mtime, dir !! name = Some (Symlink jujuc mtime).

(** ** Properties *)

Lemma correct_link_inv (e : entry) :
  correct_link e = true -> exists mtime, e = Symlink jujuc mtime.
Proof.
  destruct e as [target mtime|content mtime]; cbn; [|done].
  intros H. apply bool_decide_eq_true in H as ->. by exists mtime.
Qed.

Lemma ensure_link_keeps now dir name name' e :
  dir !! name' = Some e -> correct_link e = true ->
  ensure_link now dir name !! name' = Some e.
Proof.
  intros He Hc. unfold ensure_link.
  destruct (decide (name = name')) as [->|Hne].
  - by rewrite He, Hc.
  - destruct (dir !! name) as [e'|]; [destruct (correct_link e'); [done |] |];
      by rewrite lookup_insert_ne.
Qed.

Lemma ensure_link_links now dir name :
  exists mtime, ensure_link now dir name !! name = Some (Symlink jujuc mtime).
Proof.
  unfold ensure_link. destruct (dir !! name) as [e|] eqn:He.
  - destruct (correct_link e) eqn:Hc.
    + apply correct_link_inv in Hc as [mtime ->]. by exists mtime.
    + exists now. by rewrite lookup_insert_eq.
  - exists now. by rewrite lookup_insert_eq.
Qed.

Lemma ensure_links_keep now names dir name e :
  dir !! name = Some e -> correct_link e = true ->
  foldl (ensure_link now) dir names !! name = Some e.
Proof.
  revert dir. induction names as [|n names IH]; intros dir He Hc; [done |].
  cbn. apply IH; [|done]. by apply ensure_link_keeps.
Qed.

Lemma ensure_links_link now names dir name :
  name ∈ names ->
  exists mtime, foldl (ensure_link now) dir names !! name = Some (Symlink jujuc mtime).
Proof.
  revert dir. induction names as [|n names IH]; intros dir Hin.
  - by apply elem_of_nil in Hin.
  - cbn. apply elem_of_cons in Hin as [->|Hin]; [|by apply IH].
    destruct (ensure_link_links now dir n) as [mtime Hm].
    exists mtime. apply ensure_links_keep; [done |]. cbn. by apply bool_decide_eq_true.
Qed.

Lemma ensure_links_fixed now names dir :
  (forall name, name ∈ names -> exists mtime, dir !! name = Some (Symlink jujuc mtime)) ->
  foldl (ensure_link now) dir names = dir.
Proof.
  induction names as [|n names IH]; intros Hall; [done |].
  cbn. destruct (Hall n (list_elem_of_here _ _)) as [mtime Hn].
  assert (Hsame : ensure_link now dir n = dir).
  { unfold ensure_link. rewrite Hn. cbn. by rewrite bool_decide_true. }
  rewrite Hsame. apply IH. intros name Hin. apply Hall. by apply list_elem_of_further.
Qed.

(** C8.  A successful EnsureTools leaves, in the unit's tools directory,
    one symlink to ./jujuc per recognized hook command name, and does not
    touch a link that was already correct; a second call for the same
    unit, whenever it is made, succeeds and leaves the file system exactly
    as it was, modification times included. *)
Theorem EnsureTools_idempotent (now : Z) (unitId : string) (fs fs1 : filesystem) :
  EnsureTools now unitId fs = (fs1, None) ->
  exists dir dir1,
    dirs fs !! toolsDir unitId = Some dir /\
    dirs fs1 !! toolsDir unitId = Some dir1 /\
    all_linked dir1 /\
    (forall name e, dir !! name = Some e -> correct_link e = true -> dir1 !! name = Some e) /\
    (forall later, EnsureTools later unitId fs1 = (fs1, None)).
Proof.
  unfold EnsureTools.
  destruct (dirs fs !! toolsDir unitId) as [dir|] eqn:Hdir; [|done].
  intros [= <-]. cbn.
  exists dir, (foldl (ensure_link now) dir CommandNames).
  rewrite lookup_insert_eq. split_and!; [done | done | | |].
  - intros name Hin. by apply ensure_links_link.
  - intros name e. apply ensure_links_keep.
  - intros later. rewrite ensure_links_fixed.
    + by rewrite insert_insert_eq.
    + intros name Hin. by apply ensure_links_link.
Qed.

End EnsureTools.

(** ** Example: the unit u/123 of the test *)

Definition sample_commands : list string :=
  ["close-port"; "config-get"; "juju-log"; "open-port"; "relation-get";
   "relation-set"; "unit-get"].

(** The tools directory of u/123 holds the jujuc binary and a stale link. *)
Definition sample_fs : filesystem :=
  mkFilesystem {[ "unit-u-123" :=
    {[ "jujuc" := File "assume sane" 10; "juju-log" := Symlink "./old" 20 ]} ]}.

(** EnsureTools at time 100 on the directory of u/123. *)
Lemma EnsureTools_idempotent_witness :
  exists dir dir1,
    dirs sample_fs !! toolsDir "u/123" = Some dir /\
    dirs (EnsureTools sample_commands 100 "u/123" sample_fs).1 !! toolsDir "u/123"
      = Some dir1 /\
    all_linked sample_commands dir1 /\
    (forall name e, dir !! name = Some e -> correct_link e = true -> dir1 !! name = Some e) /\
    (forall later,
       EnsureTools sample_commands later "u/123"
         (EnsureTools sample_commands 100 "u/123" sample_fs).1
       = ((EnsureTools sample_commands 100 "u/123" sample_fs).1, None)).
Proof.
  apply (EnsureTools_idempotent sample_commands 100 "u/123" sample_fs).
  reflexivity.
Defined.

End HookTools.

(* ===================================================================== *)
(** * package provisioner: the reconciliation loop *)
(* ===================================================================== *)
Module Provisioner.
Import Go.

(** A call made on the provider. *)
Inductive operation (Config : Type) : Type :=
| OpStartInstance (machineId : string) (config : Config) (instanceId : string)
| OpStopInstances (instanceIds : list string).
Arguments OpStartInstance {Config} machineId config instanceId.
Arguments OpStopInstances {Config} instanceIds.

(** What the provisioner acts on: the machines of the topology, each with
    the instance id recorded for it, if any; the instances the provider
    runs; the id of the bootstrap instance; and the provider calls made so
    far, oldest first. *)
Record world (Config : Type) : Type := mkWorld {
  machines : gmap string (option string);
  instances : list string;
  bootstrap : string;
  ops : list (operation Config)
}.
Arguments mkWorld {Config} machines instances bootstrap ops.
Arguments machines {Config} w.
Arguments instances {Config} w.
Arguments bootstrap {Config} w.
Arguments ops {Config} w.

(** The provisioner: the last environment configuration that was valid,
    none before the first one arrives. *)
Record provisioner (Config : Type) : Type := mkProvisioner {
  environ : option Config
}.
Arguments mkProvisioner {Config} environ.
Arguments environ {Config} p.

(** What wakes the loop: a change of the environment configuration, with
    the configuration published, or a change of the set of machines. *)
Inductive tick (Config : Type) : Type :=
| EnvironChanged (config : Config)
| MachinesChanged.
Arguments EnvironChanged {Config} config.
Arguments MachinesChanged {Config}.

Section Loop.

Context {Config : Type}.

(** Whether a published configuration passes validation. *)
Variable valid : Config -> bool.

(** The provider's startInstance for a machine under a configuration: the
    id of the new instance, or nothing when the provider fails. *)
Variable startInstance : Config -> string -> option string.

(** A client adds a machine to the topology; it has no instance yet. *)
Definition AddMachine (machineId : string) (w : world Config) : world Config :=
  mkWorld (<[machineId := None]> (machines w)) (instances w) (bootstrap w) (ops w).

(** The instance ids recorded for the machines of the topology. *)
Definition recorded_instances (w : world Config) : list string :=
  omap snd (map_to_list (machines w)).

(** The instances the provider runs that no machine of the topology has
    recorded: those of removed machines and orphans, the bootstrap
    instance apart. *)
Definition unknown_instances (w : world Config) : list string :=
  filter (fun i => i <> bootstrap w /\ i ∉ recorded_instances w) (instances w).

(** The starts of one pass: for every machine without an instance id, in
    the order of the machine ids, the instance the provider gives. *)
Definition starts (config : Config) (w : world Config) : list (string * string) :=
  omap (fun '(m, recorded) =>
          match recorded with
          | Some _ => None
          | None => pair m <$> startInstance config m
          end)
       (map_to_list (machines w)).

(** Modelled from the spec: worker/provisioner/provisioner.go is not among
    the sources (only its test is).  One pass of the core algorithm of
    section 4.6 under a valid configuration: the instances without a known
    machine are stopped, then every machine with no instance id is started
    and the returned instance id recorded; a machine whose start fails
    stays pending.  Stops are issued before starts. *)
Definition pass (config : Config) (w : world Config) : world Config :=
  let stopped := unknown_instances w in
  let started := starts config w in
  mkWorld
    (map_imap (fun m recorded =>
                 Some (match recorded with
                       | Some i => Some i
                       | None => startInstance config m
                       end))
              (machines w))
    (filter (fun i => i ∉ stopped) (instances w) ++ started.*2)
    (bootstrap w)
    (ops w
       ++ match stopped with [] => [] | _ => [OpStopInstances stopped] end
       ++ ((fun '(m, i) => OpStartInstance m config i) <$> started)).

(** Modelled from the spec: the loop of the provisioner (see [pass]), one
    tick at a time.  An invalid configuration is logged and its pass is
    skipped, the loop keeps running and retains the previous valid
    configuration (sections 4.6 and 7: "Configuration invalid: non-fatal;
    loop continues with last-known-good"); a valid one replaces it and the
    pass runs under it.  A change of the machines runs the pass under the
    retained configuration, and does nothing while no valid configuration
    has been seen, as the tests of provisioner_test.go expect
    (TestProvisioningDoesNotOccurWithAnInvalidEnvironment,
    TestProvisioningDoesOccurAfterInvalidEnvironmentPublished). *)
Definition step (p : provisioner Config) (w : world Config) (t : tick Config)
    : provisioner Config * world Config :=
  match t with
  | EnvironChanged config =>
      if valid config then (mkProvisioner (Some config), pass config w)
      else (p, w)
  | MachinesChanged =>
      match environ p with
      | Some config => (p, pass config w)
      | None => (p, w)
      end
  end.

(** ** Properties *)

(** A pending machine the provider can start is started by the pass: its
    instance id is recorded and the provider call is among the
    operations, made under the configuration of the pass. *)
Lemma pass_starts_pending config w m i :
  machines w !! m = Some None ->
  startInstance config m = Some i ->
  machines (pass config w) !! m = Some (Some i) /\
  OpStartInstance m config i ∈ ops (pass config w) /\
  i ∈ instances (pass config w).
Proof.
  intros Hm Hstart.
  assert (Hin : (m, i) ∈ starts config w).
  { unfold starts. apply list_elem_of_omap. exists (m, None).
    split; [by apply elem_of_map_to_list |]. cbn. by rewrite Hstart. }
  split_and!.
  - cbn. rewrite map_lookup_imap, Hm. cbn. by rewrite Hstart.
  - cbn. rewrite !elem_of_app. right. right.
    apply list_elem_of_fmap. by exists (m, i).
  - cbn. rewrite elem_of_app. right.
    apply list_elem_of_fmap. by exists (m, i).
Qed.

(** A machine that has an instance is not started again. *)
Lemma pass_keeps_started config w m i :
  machines w !! m = Some (Some i) ->
  machines (pass config w) !! m = Some (Some i) /\
  forall i', (m, i') ∉ starts config w.
Proof.
  intros Hm. split.
  - cbn. by rewrite map_lookup_imap, Hm.
  - intros i' Hin. unfold starts in Hin.
    apply list_elem_of_omap in Hin as ([m' recorded] & Hin & Hsome).
    apply elem_of_map_to_list in Hin.
    destruct recorded as [j|]; [done |].
    cbn in Hsome. destruct (startInstance config m'); [|done].
    cbn in Hsome. injection Hsome as -> ->. congruence.
Qed.

(** C7.  An invalid environment configuration does not stop the
    provisioner: the tick that publishes it changes nothing and the last
    valid configuration is retained; a machine added afterwards is started
    on the next pass under that retained configuration.  Once a valid
    configuration is published again it becomes the retained one and the
    machines still pending are provisioned on that pass under it.  A
    provisioner that has not yet seen a valid configuration starts
    nothing. *)
Theorem provisioning_with_invalid_config
    (p : provisioner Config) (w : world Config) (good bad : Config) (m i : string) :
  environ p = Some good ->
  valid bad = false ->
  startInstance good m = Some i ->
  step p w (EnvironChanged bad) = (p, w) /\
  (step p (AddMachine m w) MachinesChanged = (p, pass good (AddMachine m w)) /\
   machines (pass good (AddMachine m w)) !! m = Some (Some i) /\
   OpStartInstance m good i ∈ ops (pass good (AddMachine m w))) /\
  (forall (fixed : Config) (w' : world Config) (m' i' : string),
     valid fixed = true ->
     startInstance fixed m' = Some i' ->
     environ (step p (AddMachine m' w') (EnvironChanged fixed)).1 = Some fixed /\
     machines (step p (AddMachine m' w') (EnvironChanged fixed)).2 !! m' = Some (Some i') /\
     OpStartInstance m' fixed i'
       ∈ ops (step p (AddMachine m' w') (EnvironChanged fixed)).2) /\
  (forall w', step (mkProvisioner None) w' (EnvironChanged bad) = (mkProvisioner None, w') /\
              step (mkProvisioner None) w' MachinesChanged = (mkProvisioner None, w')).
Proof.
  intros Hgood Hbad Hstart. split_and!.
  - cbn. by rewrite Hbad.
  - cbn. by rewrite Hgood.
  - apply pass_starts_pending; [|done]. cbn. by rewrite lookup_insert_eq.
  - apply pass_starts_pending; [|done]. cbn. by rewrite lookup_insert_eq.
  - intros fixed w' m' i' Hfixed Hstart'. cbn. rewrite Hfixed. cbn -[pass].
    split; [done |].
    destruct (pass_starts_pending fixed (AddMachine m' w') m' i') as (H1 & H2 & _);
      [cbn; by rewrite lookup_insert_eq | done | done].
  - intros w'. cbn. by rewrite Hbad.
Qed.

End Loop.

(** ** Example: the environment of the tests

    A configuration is valid when its name is the text "testing" (the test
    invalidates it by storing another value); the provider names the
    instance of machine m "i-m". *)
Definition sample_valid (config : string) : bool := bool_decide (config = "testing").

Definition sample_start (config machineId : string) : option string :=
  Some ("i-" +:+ machineId).

Definition sample_world : world string :=
  mkWorld {[ "0" := Some "i-0" ]} ["i-0"] "i-0" [].

Definition sample_step := step (Config := string) sample_valid sample_start.
Definition sample_pass := pass (Config := string) sample_start.

(** The name is invalidated by storing 1, then machine 1 is added. *)
Lemma provisioning_with_invalid_config_witness :
  sample_step (mkProvisioner (Some "testing")) sample_world (EnvironChanged "1")
    = (mkProvisioner (Some "testing"), sample_world) /\
  machines (sample_pass "testing" (AddMachine "1" sample_world)) !! "1" = Some (Some "i-1") /\
  OpStartInstance "1" "testing" "i-1"
    ∈ ops (sample_pass "testing" (AddMachine "1" sample_world)).
Proof.
  destruct (provisioning_with_invalid_config sample_valid sample_start
              (mkProvisioner (Some "testing")) sample_world "testing" "1" "1" "i-1")
    as (H1 & (_ & H2 & H3) & _); [reflexivity | reflexivity | reflexivity |].
  split_and!; [exact H1 | exact H2 | exact H3].
Defined.

End Provisioner.

(* ===================================================================== *)
(** * package main: the add-unit and add-machine commands (cmd/juju) *)
(* ===================================================================== *)

Module AddUnit.
Import Go.

(** [AddUnitCommand] is responsible adding additional units to a service.
    The embedded [EnvCommandBase] plays no part in [Init]. *)
Record AddUnitCommand : Type := mkAddUnitCommand {
  ServiceName : string;
  NumUnits : Z
}.

Section Init.

(** [cmd.CheckEmpty]; package cmd is not among the sources. *)
Variable CheckEmpty : list string -> option error.

(** [Init] returns the command as it leaves it, and the error. *)
Definition Init (c : AddUnitCommand) (args : list string)
    : AddUnitCommand * option error :=
  match args with
  | [name] =>
      let c := mkAddUnitCommand name (NumUnits c) in
      if decide (NumUnits c < 1) then (c, Some (ErrNew "must add at least one unit"))
      else (c, None)
  | [] => (c, Some (ErrNew "no service specified"))
  | _ :: rest => (c, CheckEmpty rest)
  end.

(** [cmd.CheckEmpty] is an error on arguments, none without. *)
Hypothesis CheckEmpty_rejects : forall args, args <> [] -> CheckEmpty args <> None.

(** X20.  add-unit accepts its arguments exactly when there is a single
    argument and the number of units is at least one; the service name is
    then that argument.  The number of units is never changed, with more
    than one argument the command is left as it was and the number of
    units is not looked at, and a single argument is recorded as the
    service name even when the number of units is refused. *)
Theorem Init_accepts_one_service (c : AddUnitCommand) (args : list string) :
  ((Init c args).2 = None <-> (exists name, args = [name]) /\ 1 <= NumUnits c) /\
  ((Init c args).2 = None -> args = [ServiceName (Init c args).1]) /\
  NumUnits (Init c args).1 = NumUnits c /\
  (forall name, args = [name] -> ServiceName (Init c args).1 = name) /\
  ((length args <> 1)%nat -> (Init c args).1 = c).
Proof.
  unfold Init. destruct args as [|name [|second rest]].
  - cbn. split_and!; [| done..].
    split; [done | by intros [[? ?] _]].
  - cbn. destruct (decide (NumUnits c < 1)); cbn.
    + split_and!; [| done | done | by intros ? [= <-] | done].
      split; [done | intros [_ ?]; lia].
    + split_and!; [| done | done | by intros ? [= <-] | done].
      split; [intros _; split; [by eexists | lia] | done].
  - assert (Hrest : CheckEmpty (second :: rest) <> None) by (by apply CheckEmpty_rejects).
    cbn. split_and!; [| done..].
    split; [done | by intros [[? ?] _]].
Qed.

End Init.

(** ** Examples *)

(** [cmd.CheckEmpty], as its documentation describes it. *)
Definition sample_CheckEmpty (args : list string) : option error :=
  match args with
  | [] => None
  | _ => Some (ErrNew "unrecognized args")
  end.

Lemma sample_CheckEmpty_rejects (args : list string) :
  args <> [] -> sample_CheckEmpty args <> None.
Proof. by destruct args. Qed.

Definition add_three : AddUnitCommand := mkAddUnitCommand EmptyString 3.

Lemma Init_accepts_one_service_witness :
  ((Init sample_CheckEmpty add_three ["wordpress"]).2 = None <->
     (exists name, ["wordpress"] = [name]) /\ 1 <= NumUnits add_three) /\
  ((Init sample_CheckEmpty add_three ["wordpress"]).2 = None ->
     ["wordpress"] = [ServiceName (Init sample_CheckEmpty add_three ["wordpress"]).1]) /\
  NumUnits (Init sample_CheckEmpty add_three ["wordpress"]).1 = NumUnits add_three /\
  (forall name, ["wordpress"] = [name] ->
     ServiceName (Init sample_CheckEmpty add_three ["wordpress"]).1 = name) /\
  ((length ["wordpress"] <> 1)%nat ->
     (Init sample_CheckEmpty add_three ["wordpress"]).1 = add_three).
Proof.
  apply (Init_accepts_one_service sample_CheckEmpty sample_CheckEmpty_rejects
           add_three ["wordpress"]).
Defined.

End AddUnit.

Module AddMachine.
Import Go.

(** [AddMachineCommand] starts a new machine and registers it in the
    environment.  Of [Constraints] only the [Container] field, a pointer
    to a container type, is read by [Init]; [instance.ContainerType] is a
    string type. *)
Record AddMachineCommand : Type := mkAddMachineCommand {
  Series : string;
  Constraints_Container : option string;
  MachineId : string;
  ContainerType : string
}.

Section Init.

(** [cmd.ZeroOrOneArgs] and [instance.ParseSupportedContainerType];
    packages cmd and instance are not among the sources. *)
Variable ZeroOrOneArgs : list string -> string * option error.
Variable ParseSupportedContainerType : string -> string * option error.

(** [Init] returns the command as it leaves it, and the error.  The
    indices are ints; [sep + 1] is at most the length of the string, which
    is an int. *)
Definition Init (c : AddMachineCommand) (args : list string)
    : outcome (AddMachineCommand * option error) :=
  match Constraints_Container c with
  | Some container =>
      Returned (c, Some (Errorf "container constraint %q not allowed when adding a machine"
                                [Str container]))
  | None =>
      let '(containerSpec, err) := ZeroOrOneArgs args in
      match err with
      | Some err => Returned (c, Some err)
      | None =>
          if decide (containerSpec = EmptyString) then Returned (c, None)
          else
            (* container arg can either be 'machine/type' or '/type' *)
            let sep := Index containerSpec "/" in
            if decide (sep < 0) then
              Returned (c, Some (Errorf "malformed container argument %q" [Str containerSpec]))
            else
              machineId ← slice_string containerSpec 0 sep;
              type ← slice_string containerSpec (sep + 1)
                                  (Z.of_nat (String.length containerSpec));
              let '(containerType, err) := ParseSupportedContainerType type in
              Returned (mkAddMachineCommand (Series c) (Constraints_Container c)
                                            machineId containerType, err)
      end
  end.

(** ** Properties *)

Lemma slice_string_front (s t : string) :
  slice_string (s +:+ t) 0 (Z.of_nat (String.length s)) = Returned s.
Proof.
  unfold slice_string. rewrite length_append.
  rewrite decide_True by lia.
  rewrite Z.sub_0_r, Nat2Z.id. change (Z.to_nat 0) with 0%nat.
  by rewrite substring_front.
Qed.

Lemma slice_string_back (s t : string) :
  slice_string (s +:+ t) (Z.of_nat (String.length s)) (Z.of_nat (String.length (s +:+ t)))
  = Returned t.
Proof.
  unfold slice_string. rewrite length_append.
  rewrite decide_True by lia.
  replace (Z.of_nat (String.length s + String.length t) - Z.of_nat (String.length s))
    with (Z.of_nat (String.length t)) by lia.
  rewrite !Nat2Z.id. by rewrite substring_back.
Qed.

Lemma append_assoc (a b d : string) : (a +:+ b) +:+ d = a +:+ (b +:+ d).
Proof.
  induction a as [|c a IH]; [done |].
  change (String c ((a +:+ b) +:+ d) = String c (a +:+ (b +:+ d))). by rewrite IH.
Qed.

Lemma Init_splits (c : AddMachineCommand) (args : list string) (machine type : string) :
  Constraints_Container c = None ->
  ZeroOrOneArgs args = (machine +:+ "/" +:+ type, None) ->
  Contains machine "/" = false ->
  Init c args =
  Returned (mkAddMachineCommand (Series c) None machine (ParseSupportedContainerType type).1,
            (ParseSupportedContainerType type).2).
Proof.
  intros Hc Hargs Hm. unfold Init. rewrite Hc, Hargs.
  change (machine +:+ "/" +:+ type) with (machine +:+ String "/" type).
  rewrite decide_False by (by destruct machine).
  unfold Index. rewrite (index_of_separator "/" machine type Hm).
  rewrite decide_False by lia.
  rewrite slice_string_front. cbn [mbind outcome_bind obind].
  replace (Z.of_nat (String.length machine) + 1)
    with (Z.of_nat (String.length (machine +:+ "/"))) by (rewrite length_append; cbn; lia).
  change (String "/" type) with ("/" +:+ type).
  rewrite <- append_assoc, slice_string_back. cbn [mbind outcome_bind obind].
  by destruct (ParseSupportedContainerType type).
Qed.

Lemma Init_returns (c : AddMachineCommand) (args : list string) :
  exists result, Init c args = Returned result.
Proof.
  unfold Init. destruct (Constraints_Container c); [by eexists |].
  destruct (ZeroOrOneArgs args) as [containerSpec [err|]]; [by eexists |].
  destruct (decide (containerSpec = EmptyString)); [by eexists |].
  unfold Index. destruct (index_of containerSpec "/") as [i|] eqn:Hi.
  - rewrite decide_False by lia. apply index_of_bound in Hi as Hle.
    apply index_of_separator_lt in Hi as Hlt.
    unfold slice_string. rewrite !decide_True by lia.
    cbn [mbind outcome_bind obind].
    destruct (ParseSupportedContainerType _). by eexists.
  - rewrite decide_True by lia. by eexists.
Qed.

(** X21.  add-machine splits its argument at the first "/": for an
    argument machine/type whose machine part has no "/", the machine id
    becomes the machine part (empty for "/type"), and the container type
    and the error are what ParseSupportedContainerType makes of all that
    follows the first "/", further "/" included.  An argument without "/"
    is refused as malformed and no argument at all is accepted, both
    leaving the command as it was.  Init never panics on its slicing. *)
Theorem Init_splits_at_first_slash (c : AddMachineCommand) (args : list string)
    (containerSpec : string) :
  Constraints_Container c = None ->
  ZeroOrOneArgs args = (containerSpec, None) ->
  (containerSpec = EmptyString -> Init c args = Returned (c, None)) /\
  (containerSpec <> EmptyString -> Contains containerSpec "/" = false ->
     Init c args =
     Returned (c, Some (Errorf "malformed container argument %q" [Str containerSpec]))) /\
  (forall machine type,
     containerSpec = machine +:+ "/" +:+ type -> Contains machine "/" = false ->
     Init c args =
     Returned (mkAddMachineCommand (Series c) None machine
                 (ParseSupportedContainerType type).1,
               (ParseSupportedContainerType type).2)) /\
  (exists result, Init c args = Returned result).
Proof.
  intros Hc Hargs. split_and!.
  - intros ->. unfold Init. by rewrite Hc, Hargs.
  - intros Hne Hno. unfold Init. rewrite Hc, Hargs.
    rewrite decide_False by done. unfold Index.
    destruct (index_of containerSpec "/") as [i|] eqn:Hi.
    + assert (is_Some (index_of containerSpec "/")) as Hs by (by eexists).
      apply index_of_Contains in Hs. congruence.
    + by rewrite decide_True by lia.
  - intros machine type -> Hm. by apply Init_splits.
  - apply Init_returns.
Qed.

End Init.

(** ** Examples *)

(** [cmd.ZeroOrOneArgs], as its documentation describes it. *)
Definition sample_ZeroOrOneArgs (args : list string) : string * option error :=
  match args with
  | [] => (EmptyString, None)
  | [a] => (a, None)
  | _ => (EmptyString, Some (ErrNew "unrecognized args"))
  end.

(** A parser that supports lxc only. *)
Definition sample_Parse (type : string) : string * option error :=
  if decide (type = "lxc") then ("lxc", None)
  else (EmptyString, Some (Errorf "invalid container type %q" [Str type])).

Definition fresh_command : AddMachineCommand :=
  mkAddMachineCommand EmptyString None EmptyString EmptyString.

Example Init_container_on_machine :
  Init sample_ZeroOrOneArgs sample_Parse fresh_command ["1/lxc"]
  = Returned (mkAddMachineCommand EmptyString None "1" "lxc", None) /\
  Init sample_ZeroOrOneArgs sample_Parse fresh_command ["/lxc"]
  = Returned (mkAddMachineCommand EmptyString None EmptyString "lxc", None) /\
  Init sample_ZeroOrOneArgs sample_Parse fresh_command ["1/lxc/2"]
  = Returned (mkAddMachineCommand EmptyString None "1" EmptyString,
              Some (Errorf "invalid container type %q" [Str "lxc/2"])).
Proof. split_and!; reflexivity. Qed.

Lemma Init_splits_at_first_slash_witness :
  (("1/lxc" : string) = EmptyString ->
     Init sample_ZeroOrOneArgs sample_Parse fresh_command ["1/lxc"]
     = Returned (fresh_command, None)) /\
  (("1/lxc" : string) <> EmptyString -> Contains "1/lxc" "/" = false ->
     Init sample_ZeroOrOneArgs sample_Parse fresh_command ["1/lxc"] =
     Returned (fresh_command,
               Some (Errorf "malformed container argument %q" [Str "1/lxc"]))) /\
  (forall machine type,
     "1/lxc" = machine +:+ "/" +:+ type -> Contains machine "/" = false ->
     Init sample_ZeroOrOneArgs sample_Parse fresh_command ["1/lxc"] =
     Returned (mkAddMachineCommand (Series fresh_command) None machine
                 (sample_Parse type).1,
               (sample_Parse type).2)) /\
  (exists result,
     Init sample_ZeroOrOneArgs sample_Parse fresh_command ["1/lxc"] = Returned result).
Proof.
  apply (Init_splits_at_first_slash sample_ZeroOrOneArgs sample_Parse
           fresh_command ["1/lxc"] "1/lxc"); reflexivity.
Defined.

End AddMachine.

(* ===================================================================== *)
(** * package juju: adding units through a connection (conn.go) *)
(* ===================================================================== *)

Module Juju.
Import Go.

Section AddUnits.

(** Package state is reached through a connection: the state server is a
    world that each call may change.  A call returning [(x, err)] is a sum:
    [inl x] when err is nil, [inr err] otherwise. *)
Variable World : Type.
Variable Unit : Type.
Variable Machine : Type.

(** [svc.AddUnit()], [svc.Name()] and [unit.Name()] *)
Variable svc_AddUnit : World -> (Unit + error) * World.
Variable svc_Name : string.
Variable unit_Name : Unit -> string.

(** [conn.State.Machine(mid)], [unit.AssignToMachine(m)] and
    [conn.State.AssignUnit(unit, state.AssignNew)] *)
Variable State_Machine : string -> World -> (Machine + error) * World.
Variable AssignToMachine : Unit -> Machine -> World -> option error * World.
Variable AssignUnit : Unit -> World -> option error * World.

(** [strconv.Quote], for the [%q] verb. *)
Variable Quote : string -> string.

(** What [AddUnits] returns: the units, nil on an error, and the error.
    [units] is a slice of pointers, nil until they are set. *)
Definition result : Type := option (list (option Unit)) * option error.

(** The loop of [AddUnits], from index [i] on, with [todo] indices left. *)
Fixpoint AddUnits_loop (todo : nat) (i : nat) (n : Z) (mid : string)
    (units : list (option Unit)) (w : World) : result * World :=
  match todo with
  | O => ((Some units, None), w)
  | S todo =>
      match svc_AddUnit w with
      | (inr err, w) =>
          ((None, Some (ErrNew ("cannot add unit " +:+ pretty (Z.of_nat i + 1) +:+ "/"
                                +:+ pretty n +:+ " to service " +:+ Quote svc_Name
                                +:+ ": " +:+ Error Quote err))), w)
      | (inl unit, w) =>
          if decide (mid <> EmptyString) then
            if decide (n <> 1) then
              ((None, Some (ErrNew ("cannot add multiple units of service "
                                    +:+ Quote svc_Name +:+ " to a single machine"))), w)
            else
              match State_Machine mid w with
              | (inr err, w) =>
                  ((None, Some (ErrNew ("cannot assign unit " +:+ Quote (unit_Name unit)
                                        +:+ " to machine: " +:+ Error Quote err))), w)
              | (inl m, w) =>
                  match AssignToMachine unit m w with
                  | (Some err, w) => ((None, Some err), w)
                  | (None, w) =>
                      AddUnits_loop todo (S i) n mid (<[i := Some unit]> units) w
                  end
              end
          else
            match AssignUnit unit w with
            | (Some err, w) => ((None, Some err), w)
            | (None, w) => AddUnits_loop todo (S i) n mid (<[i := Some unit]> units) w
            end
      end
  end.

(** [AddUnits] starts n units of the given service and allocates machines
    to them as necessary.  [make] panics on a negative length. *)
Definition AddUnits (n : Z) (mid : string) (w : World) : outcome (result * World) :=
  if decide (n < 0) then Panicked "makeslice: len out of range"
  else Returned (AddUnits_loop (Z.to_nat n) 0 n mid (replicate (Z.to_nat n) None) w).

(** ** Properties *)

(** Once the loop has set the indices below [i], it sets the rest or
    returns no units. *)
Lemma AddUnits_loop_sets (todo i : nat) (n : Z) (mid : string)
    (units : list (option Unit)) (w : World) :
  length units = (i + todo)%nat ->
  Forall is_Some (take i units) ->
  match AddUnits_loop todo i n mid units w with
  | ((Some units', None), _) =>
      length units' = (i + todo)%nat /\ Forall is_Some units' /\
      (mid <> EmptyString -> todo = 0%nat \/ n = 1)
  | ((None, Some _), _) => (0 < todo)%nat
  | _ => False
  end.
Proof.
  revert i units w. induction todo as [|todo IH]; intros i units w Hlen Hset; cbn.
  - split_and!; [done | | by left].
    rewrite <- (firstn_all units), Hlen, Nat.add_0_r. done.
  - assert (Hnext : forall unit,
              length (<[i := Some unit]> units) = (S i + todo)%nat /\
              Forall is_Some (take (S i) (<[i := Some unit]> units))).
    { intros unit. split; [rewrite length_insert; lia |].
      assert (Hi : (i < length units)%nat) by lia.
      destruct (lookup_lt_is_Some_2 units i Hi) as [old Hold].
      rewrite (take_S_r _ _ (Some unit)) by (apply list_lookup_insert_eq; lia).
      rewrite take_insert_ge by lia.
      apply Forall_app. split; [done |]. apply Forall_singleton. by eexists. }
    destruct (svc_AddUnit w) as [[unit|err] w1]; [|lia].
    destruct (decide (mid <> EmptyString)) as [Hmid|Hmid].
    + destruct (decide (n <> 1)) as [Hn|Hn]; [lia |].
      destruct (State_Machine mid w1) as [[m|err] w2]; [|lia].
      destruct (AssignToMachine unit m w2) as [[err|] w3]; [lia |].
      destruct (Hnext unit) as [Hl Hs].
      specialize (IH (S i) _ w3 Hl Hs).
      destruct (AddUnits_loop todo (S i) n mid _ w3) as [[[units'|] [e|]] w4];
        try done; [|lia].
      destruct IH as (? & ? & ?). split_and!; [lia | done |].
      intros _. right. by apply dec_stable.
    + destruct (AssignUnit unit w1) as [[err|] w2]; [lia |].
      destruct (Hnext unit) as [Hl Hs].
      specialize (IH (S i) _ w2 Hl Hs).
      destruct (AddUnits_loop todo (S i) n mid _ w2) as [[[units'|] [e|]] w3];
        try done; [|lia].
      destruct IH as (? & ? & ?). split_and!; [lia | done | done].
Qed.

(** X22.  AddUnits returns all the units or none: without an error it
    returns exactly n units, each of them set, and with a machine id that
    can only be for n = 0 or n = 1 (for n = 0 nothing is done and an empty
    list is returned, with or without a machine id); with an error it
    returns no units, and n was positive.  It panics exactly when n is
    negative. *)
Theorem AddUnits_all_or_none (n : Z) (mid : string) (w : World) :
  match AddUnits n mid w with
  | Panicked _ => n < 0
  | Returned ((Some units, None), _) =>
      0 <= n /\ length units = Z.to_nat n /\ Forall is_Some units /\
      (mid <> EmptyString -> n = 0 \/ n = 1)
  | Returned ((None, Some _), _) => 0 < n
  | Returned _ => False
  end /\
  AddUnits 0 mid w = Returned ((Some [], None), w).
Proof.
  split; [|done].
  unfold AddUnits. destruct (decide (n < 0)) as [Hneg|Hpos]; [done |].
  pose proof (AddUnits_loop_sets (Z.to_nat n) 0 n mid (replicate (Z.to_nat n) None) w
                ltac:(by rewrite length_replicate) ltac:(by rewrite take_0)) as Hloop.
  destruct (AddUnits_loop _ 0 n mid _ w) as [[[units|] [e|]] w']; try done; [|lia].
  destruct Hloop as (Hlen & Hset & Hmid). split_and!; [lia | done | done |].
  intros Hm. destruct (Hmid Hm) as [?|?]; [left; lia | by right].
Qed.

(** X23.  Asked for several units on one machine, AddUnits fails, but
    only after it has added the first unit to the service: the state is
    left as svc.AddUnit left it, with a unit that is assigned to no
    machine. *)
Theorem AddUnits_multiple_on_machine (n : Z) (mid : string) (w w1 : World) (unit : Unit) :
  mid <> EmptyString -> 1 < n ->
  svc_AddUnit w = (inl unit, w1) ->
  AddUnits n mid w =
  Returned ((None, Some (ErrNew ("cannot add multiple units of service "
                                 +:+ Quote svc_Name +:+ " to a single machine"))), w1).
Proof.
  intros Hmid Hn Hadd. unfold AddUnits. rewrite decide_False by lia.
  destruct (Z.to_nat n) as [|todo] eqn:Htodo; [lia |].
  cbn. rewrite Hadd. rewrite decide_True by done. by rewrite decide_True by lia.
Qed.

End AddUnits.

(** ** Examples *)

(** A state that counts the units of the service and records which unit
    is on which machine; units are numbered, machines "0" and "1" exist. *)
Record sample_world : Type := mkSampleWorld {
  unit_count : nat;
  assigned : list (nat * string)
}.

Definition sample_AddUnit (w : sample_world) : (nat + error) * sample_world :=
  (inl (unit_count w), mkSampleWorld (S (unit_count w)) (assigned w)).

Definition sample_Machine (mid : string) (w : sample_world) : (string + error) * sample_world :=
  if decide (mid = "0" \/ mid = "1") then (inl mid, w)
  else (inr (ErrNew "machine not found"), w).

Definition sample_AssignToMachine (unit : nat) (m : string) (w : sample_world)
    : option error * sample_world :=
  (None, mkSampleWorld (unit_count w) (assigned w ++ [(unit, m)])).

Definition sample_AssignUnit (unit : nat) (w : sample_world) : option error * sample_world :=
  (None, mkSampleWorld (unit_count w) (assigned w ++ [(unit, "new")])).

Definition sample_AddUnits : Z -> string -> sample_world -> outcome (result nat * sample_world) :=
  AddUnits sample_world nat string sample_AddUnit "wordpress" (fun unit => "wordpress/" +:+ pretty unit)
           sample_Machine sample_AssignToMachine sample_AssignUnit
           (fun s => String.String "034" (s +:+ String.String "034" EmptyString)).

Example AddUnits_two_new_machines :
  sample_AddUnits 2 EmptyString (mkSampleWorld 0 [])
  = Returned ((Some [Some 0%nat; Some 1%nat], None),
              mkSampleWorld 2 [(0%nat, "new"); (1%nat, "new")]).
Proof. reflexivity. Qed.

(** Two units for machine 0: an error, and one unit more in the state. *)
Lemma AddUnits_multiple_on_machine_witness :
  sample_AddUnits 2 "0" (mkSampleWorld 0 [])
  = Returned ((None, Some (ErrNew ("cannot add multiple units of service "
                                   +:+ String.String "034" ("wordpress" +:+ String.String "034" EmptyString)
                                   +:+ " to a single machine"))),
              mkSampleWorld 1 []).
Proof.
  apply (AddUnits_multiple_on_machine sample_world nat string sample_AddUnit "wordpress"
           (fun unit => "wordpress/" +:+ pretty unit)
           sample_Machine sample_AssignToMachine sample_AssignUnit
           (fun s => String.String "034" (s +:+ String.String "034" EmptyString))
           2 "0" (mkSampleWorld 0 []) (mkSampleWorld 1 []) 0%nat);
    [done | lia | reflexivity].
Defined.

(* --------------------------------------------------------------------- *)
(** ** Deploying a service *)
(* --------------------------------------------------------------------- *)

(** [DeployServiceParams] contains the arguments required to deploy the
    referenced charm. *)
Record DeployServiceParams (Charm Settings Constraints : Type) : Type :=
  mkDeployServiceParams {
    ServiceName : string;
    Charm_of : Charm;
    ConfigSettings : Settings;
    Constraints_of : Constraints;
    NumUnits : Z;
    ForceMachineId : string
  }.
Arguments mkDeployServiceParams {Charm Settings Constraints}.
Arguments ServiceName {Charm Settings Constraints} _.
Arguments Charm_of {Charm Settings Constraints} _.
Arguments ConfigSettings {Charm Settings Constraints} _.
Arguments Constraints_of {Charm Settings Constraints} _.
Arguments NumUnits {Charm Settings Constraints} _.
Arguments ForceMachineId {Charm Settings Constraints} _.

Section DeployService.

Context {World Unit Machine Service Charm Settings Constraints : Type}.

(** [constraints.Value] with Go's [==], and its zero value. *)
Context `{EqDecision Constraints}.
Variable emptyCons : Constraints.

(** [charm.Config().ValidateSettings(settings)], [len(settings)],
    [charm.Meta().Subordinate], [State.AddService],
    [service.UpdateConfigSettings] and [service.SetConstraints]; then what
    [AddUnits] is built on, for each service. *)
Variable ValidateSettings : Charm -> Settings -> Settings + error.
Variable Settings_len : Settings -> nat.
Variable Subordinate : Charm -> bool.
Variable State_AddService : string -> Charm -> World -> (Service + error) * World.
Variable UpdateConfigSettings : Service -> Settings -> World -> option error * World.
Variable SetConstraints : Service -> Constraints -> World -> option error * World.
Variable Service_AddUnit : Service -> World -> (Unit + error) * World.
Variable Service_Name : Service -> string.
Variable unit_Name : Unit -> string.
Variable State_Machine : string -> World -> (Machine + error) * World.
Variable AssignToMachine : Unit -> Machine -> World -> option error * World.
Variable AssignUnit : Unit -> World -> option error * World.
Variable Quote : string -> string.

(** [conn.AddUnits(service, n, mid)] *)
Definition Conn_AddUnits (service : Service) (n : Z) (mid : string) (w : World)
    : outcome (result Unit * World) :=
  AddUnits World Unit Machine (Service_AddUnit service) (Service_Name service) unit_Name
           State_Machine AssignToMachine AssignUnit Quote n mid w.

(** [DeployService] takes a charm and various parameters and deploys it. *)
Definition DeployService (args : DeployServiceParams Charm Settings Constraints) (w : World)
    : outcome ((option Service * option error) * World) :=
  match ValidateSettings (Charm_of args) (ConfigSettings args) with
  | inr err => Returned ((None, Some err), w)
  | inl settings =>
      if Subordinate (Charm_of args)
         && bool_decide (NumUnits args <> 0 \/ ForceMachineId args <> EmptyString)
      then Returned ((None, Some (Errorf "subordinate service must be deployed without units"
                                         [])), w)
      else if Subordinate (Charm_of args) && bool_decide (Constraints_of args <> emptyCons)
      then Returned ((None, Some (Errorf "subordinate service must be deployed without constraints"
                                         [])), w)
      else
        match State_AddService (ServiceName args) (Charm_of args) w with
        | (inr err, w) => Returned ((None, Some err), w)
        | (inl service, w) =>
            let '(err, w) :=
              if decide (0 < Settings_len settings)%nat
              then UpdateConfigSettings service settings w else (None, w) in
            match err with
            | Some err => Returned ((None, Some err), w)
            | None =>
                if Subordinate (Charm_of args) then Returned ((Some service, None), w)
                else
                  let '(err, w) :=
                    if decide (Constraints_of args <> emptyCons)
                    then SetConstraints service (Constraints_of args) w else (None, w) in
                  match err with
                  | Some err => Returned ((None, Some err), w)
                  | None =>
                      if decide (0 < NumUnits args) then
                        added ← Conn_AddUnits service (NumUnits args) (ForceMachineId args) w;
                        match added with
                        | ((_, Some err), w) => Returned ((None, Some err), w)
                        | ((_, None), w) => Returned ((Some service, None), w)
                        end
                      else Returned ((Some service, None), w)
                  end
            end
        end
  end.

(** X30.  DeployService never panics: it asks AddUnits for a positive
    number of units only.  A subordinate charm given units, a machine or
    constraints is refused before anything is added to the state, and a
    subordinate service without settings is returned as soon as it has
    been added, without any unit.  Deployment is not undone when it fails
    half-way: asked for several units on one machine, DeployService fails
    only after the service and its first unit have been added, and the
    state keeps both. *)
Theorem DeployService_not_undone (args : DeployServiceParams Charm Settings Constraints)
    (w : World) :
  (exists res, DeployService args w = Returned res) /\
  (forall settings,
     ValidateSettings (Charm_of args) (ConfigSettings args) = inl settings ->
     Subordinate (Charm_of args) = true ->
     NumUnits args <> 0 \/ ForceMachineId args <> EmptyString \/
       Constraints_of args <> emptyCons ->
     exists err, DeployService args w = Returned ((None, Some err), w)) /\
  (forall settings service w1,
     ValidateSettings (Charm_of args) (ConfigSettings args) = inl settings ->
     Subordinate (Charm_of args) = true ->
     NumUnits args = 0 -> ForceMachineId args = EmptyString ->
     Constraints_of args = emptyCons -> Settings_len settings = 0%nat ->
     State_AddService (ServiceName args) (Charm_of args) w = (inl service, w1) ->
     DeployService args w = Returned ((Some service, None), w1)) /\
  (forall settings service w1 unit w2,
     ValidateSettings (Charm_of args) (ConfigSettings args) = inl settings ->
     Subordinate (Charm_of args) = false ->
     Settings_len settings = 0%nat -> Constraints_of args = emptyCons ->
     State_AddService (ServiceName args) (Charm_of args) w = (inl service, w1) ->
     1 < NumUnits args -> ForceMachineId args <> EmptyString ->
     Service_AddUnit service w1 = (inl unit, w2) ->
     DeployService args w =
     Returned ((None, Some (ErrNew ("cannot add multiple units of service "
                                    +:+ Quote (Service_Name service)
                                    +:+ " to a single machine"))), w2)).
Proof.
  split_and!.
  - unfold DeployService.
    destruct (ValidateSettings _ _) as [settings|err]; [|by eexists].
    destruct (Subordinate (Charm_of args) && _); [by eexists |].
    destruct (Subordinate (Charm_of args) && _); [by eexists |].
    destruct (State_AddService _ _ w) as [[service|err] w1]; [|by eexists].
    destruct (if decide (0 < Settings_len settings)%nat then _ else _) as [[err|] w2];
      [by eexists |].
    destruct (Subordinate (Charm_of args)); [by eexists |].
    destruct (if decide (Constraints_of args <> emptyCons) then _ else _) as [[err|] w3];
      [by eexists |].
    destruct (decide (0 < NumUnits args)) as [Hn|Hn]; [|by eexists].
    unfold Conn_AddUnits, AddUnits. rewrite decide_False by lia.
    cbn [mbind outcome_bind obind].
    destruct (AddUnits_loop _ _ _ _ _ _ _ _ _ _ _ _ _ _ _) as [[units [err|]] w4];
      by eexists.
  - intros settings Hsettings Hsub Hgiven. unfold DeployService.
    rewrite Hsettings, Hsub. cbn.
    destruct (decide (NumUnits args <> 0 \/ ForceMachineId args <> EmptyString))
      as [Hunits|Hunits].
    + rewrite bool_decide_true by done. by eexists.
    + rewrite bool_decide_false by done.
      rewrite bool_decide_true by (destruct Hgiven as [?|[?|?]]; tauto). by eexists.
  - intros settings service w1 Hsettings Hsub Hn Hmid Hcons Hlen Hadd.
    unfold DeployService. rewrite Hsettings, Hsub, Hadd, Hlen. cbn.
    rewrite bool_decide_false by (rewrite Hn, Hmid; intros [?|?]; done).
    rewrite bool_decide_false by (rewrite Hcons; intros ?; done).
    by rewrite (decide_False (P := (0 < 0)%nat)) by lia.
  - intros settings service w1 unit w2 Hsettings Hsub Hlen Hcons Hadd Hn Hmid Hunit.
    unfold DeployService. rewrite Hsettings, Hsub, Hadd, Hlen. cbn.
    rewrite (decide_False (P := (0 < 0)%nat)) by lia.
    rewrite (decide_False (P := Constraints_of args <> emptyCons))
      by (rewrite Hcons; intros ?; done).
    rewrite (decide_True (P := 0 < NumUnits args)) by lia.
    unfold Conn_AddUnits, AddUnits. rewrite (decide_False (P := NumUnits args < 0)) by lia.
    destruct (Z.to_nat (NumUnits args)) as [|todo] eqn:Htodo; [lia |].
    cbn. rewrite Hunit. rewrite decide_True by done. by rewrite decide_True by lia.
Qed.

End DeployService.

(** Deploying wordpress with two units forced to machine 0: the service
    and one unit are added, and the deployment fails. *)
Definition sample_deploy : Z -> string -> outcome ((option string * option error) * sample_world) :=
  fun n mid =>
    DeployService (Service := string) (Constraints := bool) false
      (fun _ settings => inl settings) (fun settings : list string => length settings)
      (fun _ : unit => false)
      (fun name _ w => (inl name, w))
      (fun _ _ w => (None, w)) (fun _ _ w => (None, w))
      (fun _ => sample_AddUnit) (fun service => service)
      (fun unit => "wordpress/" +:+ pretty unit)
      sample_Machine sample_AssignToMachine sample_AssignUnit
      (fun s => String.String "034" (s +:+ String.String "034" EmptyString))
      (mkDeployServiceParams "wordpress" tt [] false n mid) (mkSampleWorld 0 []).

Example DeployService_two_units_one_machine :
  sample_deploy 2 "0"
  = Returned ((None, Some (ErrNew ("cannot add multiple units of service "
                 +:+ String.String "034" ("wordpress" +:+ String.String "034" EmptyString)
                 +:+ " to a single machine"))),
              mkSampleWorld 1 []) /\
  sample_deploy 2 EmptyString
  = Returned ((Some "wordpress", None),
              mkSampleWorld 2 [(0%nat, "new"); (1%nat, "new")]) /\
  sample_deploy (-1) EmptyString = Returned ((Some "wordpress", None), mkSampleWorld 0 []).
Proof. split_and!; reflexivity. Qed.

(** X30 on that deployment. *)
Lemma DeployService_not_undone_witness :
  sample_deploy 2 "0"
  = Returned ((None, Some (ErrNew ("cannot add multiple units of service "
                 +:+ String.String "034" ("wordpress" +:+ String.String "034" EmptyString)
                 +:+ " to a single machine"))),
              mkSampleWorld 1 []).
Proof.
  pose proof (DeployService_not_undone (Machine := string) (Service := string)
                (Constraints := bool) false
                (fun _ settings => inl settings) (fun settings : list string => length settings)
                (fun _ : unit => false)
                (fun name _ w => (inl name, w))
                (fun _ _ w => (None, w)) (fun _ _ w => (None, w))
                (fun _ => sample_AddUnit) (fun service => service)
                (fun unit => "wordpress/" +:+ pretty unit)
                sample_Machine sample_AssignToMachine sample_AssignUnit
                (fun s => String.String "034" (s +:+ String.String "034" EmptyString))
                (mkDeployServiceParams "wordpress" tt [] false 2 "0") (mkSampleWorld 0 []))
    as (_ & _ & _ & Hfails).
  apply (Hfails [] "wordpress" (mkSampleWorld 0 []) 0%nat (mkSampleWorld 1 []));
    first [reflexivity | lia | done].
Defined.

End Juju.

(* ===================================================================== *)
(** * package config: environment configurations (config.go) *)
(* ===================================================================== *)

Module Config.
Import Go.

Section Attributes.

(** A value of type [interface{}] is a string or a value of some other
    dynamic type, of which only the type's name matters here. *)
Variable Other : Type.
Variable type_name : Other -> string.

Inductive value : Type :=
| VStr (s : string)
| VOther (o : Other).

(** [checker.Coerce(attrs, nil)] (package schema), which returns the
    coerced attributes in a map of its own or an error; the known [fields],
    of which only the keys are used; [authorizedKeys], which reads a file;
    and [version.Current.Series].  None of them is among the sources. *)
Variable Coerce : gomap value -> gmap string value + error.
Variable fields : gset string.
Variable authorizedKeys : string -> string * option error.
Variable Current_Series : string.

(** [Config] holds an immutable environment configuration. *)
Record Config : Type := mkConfig {
  m : gmap string value;
  t : gmap string value
}.

(** [v.(string)], which panics unless the value is a string; a key that
    is missing yields the nil interface. *)
Definition assert_string (v : option value) : outcome string :=
  match v with
  | Some (VStr s) => Returned s
  | Some (VOther o) =>
      Panicked ("interface conversion: interface {} is " +:+ type_name o +:+ ", not string")
  | None => Panicked "interface conversion: interface {} is nil, not string"
  end.

(** [s, _ := v.(string)] *)
Definition string_or_empty (v : option value) : string :=
  match v with
  | Some (VStr s) => s
  | _ => EmptyString
  end.

Definition required : list string := ["name"; "type"; "default-series"; "authorized-keys"].

(** The first of the attributes that is empty in [m], if any. *)
Fixpoint first_empty (attrs : list string) (m : gmap string value) : option string :=
  match attrs with
  | [] => None
  | attr :: attrs =>
      if decide (string_or_empty (m !! attr) = EmptyString) then Some attr
      else first_empty attrs m
  end.

(** [for k, v := range src { dst[k] = v }] *)
Definition copy_onto (dst : gmap string value) (src : list (string * value))
    : gmap string value :=
  foldl (fun dst kv => <[kv.1 := kv.2]> dst) dst src.

(** [New] returns a new configuration.  Fields that are common to all
    environment providers are verified, and authorized-keys-path is also
    translated into authorized-keys. *)
Definition New (attrs : gomap value) : outcome (option Config * option error) :=
  match Coerce attrs with
  | inr err => Returned (None, Some err)
  | inl m =>
      series ← assert_string (m !! "default-series");
      let m := if decide (series = EmptyString)
               then <["default-series" := VStr Current_Series]> m else m in
      (* Load authorized-keys-path onto authorized-keys, if necessary. *)
      path ← assert_string (m !! "authorized-keys-path");
      keys ← assert_string (m !! "authorized-keys");
      let loaded :=
        if decide (path <> EmptyString \/ keys = EmptyString) then
          let '(keys, err) := authorizedKeys path in
          (<["authorized-keys" := VStr keys]> m, err)
        else (m, None) in
      match loaded with
      | (_, Some err) => Returned (None, Some err)
      | (m, None) =>
          let m := delete "authorized-keys-path" m in
          (* Check if there are any required fields that are empty. *)
          match first_empty required m with
          | Some attr =>
              Returned (None, Some (Errorf "empty %s in environment configuration" [Str attr]))
          | None =>
              (* Copy unknown attributes onto the type-specific map. *)
              let t := copy_onto ∅ (filter (fun kv => kv.1 ∉ fields) (map_range attrs)) in
              Returned (Some (mkConfig m t), None)
          end
      end
  end.

Definition Name (c : Config) : outcome string := assert_string (m c !! "name").
Definition DefaultSeries (c : Config) : outcome string :=
  assert_string (m c !! "default-series").
Definition AuthorizedKeys (c : Config) : outcome string :=
  assert_string (m c !! "authorized-keys").

(** [UnknownAttrs] returns a copy of the raw configuration attributes that
    are supposedly specific to the environment type. *)
Definition UnknownAttrs (c : Config) : gmap string value :=
  copy_onto ∅ (map_to_list (t c)).

(** [AllAttrs] returns a copy of the raw configuration attributes. *)
Definition AllAttrs (c : Config) : gmap string value :=
  copy_onto (UnknownAttrs c) (map_to_list (m c)).

(** [Apply] returns a new configuration that has the attributes of c plus
    attrs. *)
Definition Apply (c : Config) (attrs : gomap value)
    : outcome (option Config * option error) :=
  New (Some (copy_onto (AllAttrs c) (map_range attrs))).

(** ** Properties *)

Lemma copy_onto_lookup (dst : gmap string value) (src : list (string * value)) (k : string) :
  NoDup src.*1 ->
  copy_onto dst src !! k =
  match list_to_map (M := gmap string value) src !! k with
  | Some v => Some v
  | None => dst !! k
  end.
Proof.
  revert dst. induction src as [|[k' v'] src IH]; intros dst Hnd; [done |].
  apply NoDup_cons in Hnd as [Hnotin Hnd].
  unfold copy_onto in *. cbn [foldl]. rewrite (IH _ Hnd). cbn.
  destruct (decide (k' = k)) as [->|Hne].
  - rewrite lookup_insert_eq.
    rewrite (not_elem_of_list_to_map_1 (M := gmap string) src k Hnotin).
    by rewrite lookup_insert_eq.
  - rewrite !lookup_insert_ne by done. done.
Qed.

Lemma copy_onto_map (dst src : gmap string value) :
  copy_onto dst (map_to_list src) = src ∪ dst.
Proof.
  apply map_eq. intros k.
  rewrite copy_onto_lookup by apply NoDup_fst_map_to_list.
  rewrite list_to_map_to_list, lookup_union.
  destruct (src !! k), (dst !! k); done.
Qed.






(** X25.  Known attributes take precedence over unknown ones in AllAttrs,
    and the attributes given to Apply over both: AllAttrs holds at a key
    the known attribute if there is one and the unknown one otherwise,
    UnknownAttrs holds the unknown attributes, and Apply makes a new
    configuration from the given attributes laid over all attributes of
    c, in whatever order the given attributes are walked. *)
Theorem Apply_lays_attributes_over (c : Config) (attrs : gomap value) (k : string) :
  UnknownAttrs c = t c /\
  AllAttrs c !! k = match m c !! k with Some v => Some v | None => t c !! k end /\
  Apply c attrs =
    New (Some (match attrs with Some g => g ∪ (m c ∪ t c) | None => m c ∪ t c end)) /\
  (forall src : list (string * value),
     src ≡ₚ map_range attrs ->
     New (Some (copy_onto (AllAttrs c) src)) = Apply c attrs).
Proof.
  assert (Hu : UnknownAttrs c = t c).
  { unfold UnknownAttrs. rewrite copy_onto_map. apply (right_id_L ∅ (∪)). }
  assert (Ha : AllAttrs c = m c ∪ t c).
  { unfold AllAttrs. by rewrite copy_onto_map, Hu. }
  assert (Hany : forall src : list (string * value),
            src ≡ₚ map_range attrs ->
            copy_onto (AllAttrs c) src =
            match attrs with Some g => g ∪ (m c ∪ t c) | None => m c ∪ t c end).
  { intros src Hperm. rewrite Ha. destruct attrs as [g|]; cbn in Hperm.
    - apply map_eq. intros key.
      rewrite copy_onto_lookup by (rewrite Hperm; apply NoDup_fst_map_to_list).
      rewrite (list_to_map_proper src (map_to_list g))
        by (try done; rewrite Hperm; apply NoDup_fst_map_to_list).
      rewrite list_to_map_to_list, (lookup_union g).
      destruct (g !! key), ((m c ∪ t c) !! key); done.
    - apply Permutation_nil_r in Hperm as ->. done. }
  split_and!.
  - done.
  - rewrite Ha, lookup_union. destruct (m c !! k), (t c !! k); done.
  - unfold Apply. by rewrite (Hany _ (reflexivity _)).
  - intros src Hperm. unfold Apply.
    by rewrite (Hany src Hperm), (Hany _ (reflexivity _)).
Qed.

End Attributes.

(** ** Examples *)

(** The other values of the examples are ints. *)
Definition sample_fields : gset string :=
  {[ "name"; "type"; "default-series"; "authorized-keys"; "authorized-keys-path" ]}.

(** A checker that wants a map and fills in empty strings for the known
    fields that are missing. *)
Definition sample_Coerce (attrs : gomap (value Z)) : gmap string (value Z) + error :=
  match attrs with
  | None => inr (ErrNew "expected map, got nothing")
  | Some g =>
      inl (g ∪ {[ "default-series" := VStr Z EmptyString;
                  "authorized-keys" := VStr Z EmptyString;
                  "authorized-keys-path" := VStr Z EmptyString ]})
  end.

Definition sample_authorizedKeys (path : string) : string * option error :=
  if decide (path = EmptyString) then ("ssh-rsa default", None)
  else ("ssh-rsa from " +:+ path, None).

Definition sample_New : gomap (value Z) -> outcome (option (Config Z) * option error) :=
  New Z (fun _ => "int") sample_Coerce sample_fields sample_authorizedKeys "precise".

Definition sample_attrs : gomap (value Z) :=
  Some {[ "name" := VStr Z "test"; "type" := VStr Z "dummy"; "agent-port" := VOther Z 17070 ]}.

Example New_sample_attrs :
  exists c,
    sample_New sample_attrs = Returned (Some c, None) /\
    Name Z (fun _ => "int") c = Returned "test" /\
    DefaultSeries Z (fun _ => "int") c = Returned "precise" /\
    AuthorizedKeys Z (fun _ => "int") c = Returned "ssh-rsa default" /\
    UnknownAttrs Z c = {[ "agent-port" := VOther Z 17070 ]}.
Proof. eexists. split_and!; vm_compute; reflexivity. Qed.

Example New_without_name :
  sample_New (Some {[ "type" := VStr Z "dummy" ]})
  = Returned (None, Some (Errorf "empty %s in environment configuration" [Str "name"])).
Proof. vm_compute. reflexivity. Qed.

Example New_panics_on_int_series :
  sample_New (Some {[ "default-series" := VOther Z 12 ]})
  = Panicked "interface conversion: interface {} is int, not string".
Proof. vm_compute. reflexivity. Qed.

End Config.

(* ===================================================================== *)
(** * package maas: acquiring and starting nodes (environs/maas/environ.go) *)
(* ===================================================================== *)

Module MaasNodes.
Import Go.

(** [url.Values]: the values given for each key. *)
Definition Values : Type := gmap string (list string).

(** [v.Add(key, value)] appends the value to the values of the key. *)
Definition Values_Add (v : Values) (key value : string) : Values :=
  <[key := default [] (v !! key) ++ [value]]> v.

(** [constraints.Value], with the fields [convertConstraints] reads:
    pointers, nil when the constraint is not set. *)
Module Constraints.
Record Value : Type := mkValue {
  Arch : option string;
  CpuCores : option N;
  Mem : option N;
  CpuPower : option N
}.
End Constraints.

(** [convertConstraints] converts the given constraints into an
    [url.Values] object suitable to pass to MAAS when acquiring a node.
    CpuPower is ignored. *)
Definition convertConstraints (cons : Constraints.Value) : Values :=
  let params : Values := ∅ in
  let params :=
    match Constraints.Arch cons with
    | Some arch => Values_Add params "arch" arch
    | None => params
    end in
  let params :=
    match Constraints.CpuCores cons with
    | Some cores => Values_Add params "cpu_count" (pretty cores)
    | None => params
    end in
  let params :=
    match Constraints.Mem cons with
    | Some mem => Values_Add params "mem" (pretty mem)
    | None => params
    end in
  params.

(** [fmt]'s [%v] of a slice of strings *)
Definition format_strings (l : list string) : string :=
  "[" +:+ String.concat " " l +:+ "]".

Section Nodes.

(** ** What the environ is built on

    The MAAS server and the gomaasapi client are those of the listing of
    instances; requests carry [url.Values]. *)
Context {Server JSONObject MAASObject Environ Number MachineConfig : Type}.
Variable post : Server -> Maas.request Values -> (JSONObject + error) * Server.
Variable URI : MAASObject -> string.
Variable GetMAASObject : JSONObject -> MAASObject + error.
Variable getMAASClient : Environ -> MAASObject.
Variable GetSubObject : MAASObject -> string -> MAASObject.

(** [result.GetMAASObject()] on the zero JSONObject, which the source
    reaches when the retry strategy allows no attempt. *)
Variable zero_GetMAASObject : outcome (MAASObject + error).

(** [base64.StdEncoding.EncodeToString] and [strconv.Quote] *)
Variable EncodeToString : string -> string.
Variable Quote : string -> string.

Abbreviation world := (Maas.world Server Values).
Abbreviation maasInstance := (Maas.maasInstance MAASObject Environ).

(** [instance.DNSName()]; [machineInfo{string(instance.Id()),
    hostname}.cloudinitRunCmd()]; [environs.FinishMachineConfig(mcfg,
    environ.Config(), cons)], which changes the machine configuration it
    is given; [userData(mcfg, runCmd)]; and the assignment [mcfg.Tools =
    tools].  None of them is among the sources; each may talk to the
    server. *)
Variable DNSName : maasInstance -> world -> (string + error) * world.
Variable cloudinitRunCmd : maasInstance -> string -> world -> (string + error) * world.
Variable FinishMachineConfig :
  MachineConfig -> Environ -> Constraints.Value -> world ->
  (MachineConfig * option error) * world.
Variable userData : MachineConfig -> string -> world -> (string + error) * world.
Variable set_Tools : MachineConfig -> Tools.Tools Number -> MachineConfig.

(** ** Retrying

    [utils.AttemptStrategy] retries for five seconds: how many attempts
    its clock allows is an argument of each loop, [attempts]. *)

(** The loop of [acquireNode]: [last] holds result and err, [None] before
    the first attempt; the first success ends the loop. *)
Fixpoint acquire_loop (attempts : nat) (environ : Environ) (constraintsParams : Values)
    (last : option (JSONObject + error)) (w : world)
    : option (JSONObject + error) * world :=
  match attempts with
  | O => (last, w)
  | S attempts =>
      let client := GetSubObject (getMAASClient environ) "nodes/" in
      match Maas.CallPost post URI client "acquire" constraintsParams w with
      | (inl result, w) => (Some (inl result), w)
      | (inr err, w) => acquire_loop attempts environ constraintsParams (Some (inr err)) w
      end
  end.

(** [acquireNode] allocates a node from the MAAS. *)
Definition acquireNode (attempts : nat) (environ : Environ) (cons : Constraints.Value)
    (possibleTools : list (Tools.Tools Number)) (w : world)
    : outcome ((MAASObject * Tools.Tools Number + error) * world) :=
  let constraintsParams := convertConstraints cons in
  let '(last, w) := acquire_loop attempts environ constraintsParams None w in
  match last with
  | Some (inr err) => Returned (inr err, w)
  | _ =>
      node ← match last with
             | Some (inl result) => Returned (GetMAASObject result)
             | _ => zero_GetMAASObject
             end;
      match node with
      | inr err =>
          Returned (inr (ErrNew ("unexpected result from 'acquire' on MAAS API: "
                                 +:+ Error Quote err)), w)
      | inl node =>
          match possibleTools with
          | [] => Panicked "runtime error: index out of range"
          | tools :: _ => Returned (inl (node, tools), w)
          end
      end
  end.

(** The loop of [startNode], which goes on while there are attempts left
    and err is not nil. *)
Fixpoint start_loop (attempts : nat) (node : MAASObject) (params : Values)
    (err : option error) (w : world) : option error * world :=
  match attempts with
  | O => (err, w)
  | S attempts =>
      match err with
      | None => (None, w)
      | Some _ =>
          match Maas.CallPost post URI node "start" params w with
          | (inl _, w) => start_loop attempts node params None w
          | (inr err, w) => start_loop attempts node params (Some err) w
          end
      end
  end.

(** [startNode] installs and boots a node. *)
Definition startNode (attempts : nat) (node : MAASObject) (series userdata : string)
    (w : world) : option error * world :=
  let userDataParam := EncodeToString userdata in
  let params : Values :=
    {[ "distro_series" := [series]; "user_data" := [userDataParam] ]} in
  (* Initialize err to a non-nil value as a sentinel for the following loop. *)
  start_loop attempts node params (Some (Errorf "(no error)" [])) w.

(** The body of [obtainNode] from the point where the release is
    deferred: what it returns, the machine configuration and the world. *)
Definition start_acquired (starting : nat) (environ : Environ) (cons : Constraints.Value)
    (instance : maasInstance) (series : string) (mcfg : MachineConfig) (w : world)
    : (option maasInstance * option error) * MachineConfig * world :=
  match DNSName instance w with
  | (inr err, w) => ((None, Some err), mcfg, w)
  | (inl hostname, w) =>
      match cloudinitRunCmd instance hostname w with
      | (inr err, w) => ((None, Some err), mcfg, w)
      | (inl runCmd, w) =>
          match FinishMachineConfig mcfg environ cons w with
          | ((mcfg, Some err), w) => ((None, Some err), mcfg, w)
          | ((mcfg, None), w) =>
              match userData mcfg runCmd w with
              | (inr err, w) =>
                  ((None, Some (ErrNew ("could not compose userdata for bootstrap node: "
                                        +:+ Error Quote err))), mcfg, w)
              | (inl userdata, w) =>
                  match startNode starting (Maas.maasObject _ _ instance) series userdata w with
                  | (Some err, w) => ((None, Some err), mcfg, w)
                  | (None, w) => ((Some instance, None), mcfg, w)
                  end
              end
          end
      end
  end.

(** [obtainNode] allocates and starts a MAAS node.  [series] has one
    element exactly when its length is 1, and series[0] is that element.
    The deferred function releases the instance when the function returns
    an error, and drops the error of the release. *)
Definition obtainNode (acquiring starting : nat) (environ : Environ) (machineId : string)
    (cons : Constraints.Value) (possibleTools : list (Tools.Tools Number))
    (mcfg : MachineConfig) (w : world)
    : outcome ((option maasInstance * option error) * MachineConfig * world) :=
  match Tools.AllSeries possibleTools with
  | [series] =>
      acquired ← acquireNode acquiring environ cons possibleTools w;
      match acquired with
      | (inr err, w) =>
          Returned ((None, Some (ErrNew ("cannot run instances: " +:+ Error Quote err))),
                    mcfg, w)
      | (inl (node, tools), w) =>
          let instance := Maas.mkInstance node environ in
          let mcfg := set_Tools mcfg tools in
          let '(result, mcfg, w) :=
            start_acquired starting environ cons instance series mcfg w in
          match result.2 with
          | Some _ =>
              let '(_, w) := Maas.releaseInstance post URI ∅ instance w in
              Returned (result, mcfg, w)
          | None => Returned (result, mcfg, w)
          end
      end
  | series =>
      Returned ((None, Some (ErrNew ("expected single series, got "
                                     +:+ format_strings series))), mcfg, w)
  end.

(** ** Properties *)

(** The requests of the two loops. *)
Definition acquire_request (environ : Environ) (cons : Constraints.Value)
    : Maas.request Values :=
  Maas.mkRequest (URI (GetSubObject (getMAASClient environ) "nodes/")) "acquire"
                 (convertConstraints cons).

Definition start_request (node : MAASObject) (series userdata : string)
    : Maas.request Values :=
  Maas.mkRequest (URI node) "start"
    {[ "distro_series" := [series]; "user_data" := [EncodeToString userdata] ]}.

Definition release_request (node : MAASObject) : Maas.request Values :=
  Maas.mkRequest (URI node) "release" ∅.

Lemma CallPost_requests (obj : MAASObject) (operation : string) (params : Values) (w : world) :
  Maas.requests (Maas.CallPost post URI obj operation params w).2
  = Maas.requests w ++ [Maas.mkRequest (URI obj) operation params].
Proof. unfold Maas.CallPost. by destruct (post _ _). Qed.

Lemma replicate_snoc_cons {A} (k : nat) (x : A) (l : list A) :
  (l ++ [x]) ++ replicate k x = l ++ replicate (S k) x.
Proof. by rewrite <- app_assoc. Qed.

Lemma last_replicate {A} (l : list A) (k : nat) (x : A) :
  last (l ++ replicate (S k) x) = Some x.
Proof. rewrite replicate_S_end, app_assoc. apply last_snoc. Qed.

Lemma acquire_loop_requests (attempts : nat) (environ : Environ) (cons : Constraints.Value)
    (last : option (JSONObject + error)) (w : world) :
  (forall result, last <> Some (inl result)) ->
  exists k,
    (k <= attempts)%nat /\
    Maas.requests (acquire_loop attempts environ (convertConstraints cons) last w).2
    = Maas.requests w ++ replicate k (acquire_request environ cons) /\
    match (acquire_loop attempts environ (convertConstraints cons) last w).1 with
    | Some (inl _) => (0 < k)%nat
    | Some (inr _) => k = attempts
    | None => attempts = 0%nat /\ last = None
    end.
Proof.
  revert last w. induction attempts as [|attempts IH]; intros last w Hlast; cbn.
  - exists 0%nat. split_and!; [done | by rewrite app_nil_r |].
    destruct last as [[result|err]|]; [by destruct (Hlast result) | done | done].
  - pose proof (CallPost_requests (GetSubObject (getMAASClient environ) "nodes/")
                  "acquire" (convertConstraints cons) w) as Hreq.
    destruct (Maas.CallPost post URI _ "acquire" _ w) as [[result|err] w1]; cbn in Hreq.
    + exists 1%nat. cbn. split_and!; [lia | done | lia].
    + destruct (IH (Some (inr err)) w1 ltac:(done)) as (k & Hk & Hrequests & Hresult).
      exists (S k). split_and!; [lia | |].
      * rewrite Hrequests, Hreq. apply replicate_snoc_cons.
      * destruct (acquire_loop attempts environ _ _ w1).1 as [[?|?]|];
          [lia | lia | by destruct Hresult].
Qed.

Lemma acquireNode_requests (attempts : nat) (environ : Environ) (cons : Constraints.Value)
    (possibleTools : list (Tools.Tools Number)) (w : world) :
  match acquireNode attempts environ cons possibleTools w with
  | Returned (acquired, w') =>
      exists k, (k <= attempts)%nat /\
        Maas.requests w' = Maas.requests w ++ replicate k (acquire_request environ cons) /\
        match acquired with
        | inl (_, tools) => head possibleTools = Some tools /\ ((0 < k)%nat \/ attempts = 0%nat)
        | inr _ => (0 < k)%nat \/ attempts = 0%nat
        end
  | Panicked _ => possibleTools = [] \/ attempts = 0%nat
  end.
Proof.
  unfold acquireNode.
  destruct (acquire_loop_requests attempts environ cons None w ltac:(done))
    as (k & Hk & Hrequests & Hresult).
  destruct (acquire_loop attempts environ (convertConstraints cons) None w)
    as [[[result|err]|] w1]; cbn in Hrequests, Hresult |- *.
  - destruct (GetMAASObject result) as [node|err].
    + destruct possibleTools as [|tools rest]; [by left |].
      exists k. split_and!; [done | done | done | by left].
    + exists k. split_and!; [done | done | by left].
  - exists k. split_and!; [done | done |]. destruct attempts; [by right | left; lia].
  - destruct Hresult as [-> _].
    destruct zero_GetMAASObject as [[node|err]|msg]; cbn; [| |by right].
    + destruct possibleTools as [|tools rest]; [by left |].
      exists k. split_and!; [done | done | done | by right].
    + exists k. split_and!; [done | done | by right].
Qed.

(** X26.  acquireNode posts the same acquire request, made of the
    architecture, the cpu count and the memory of the constraints, at most
    as often as the retry strategy allows, and no other request.  When it
    returns a node, the tools it returns are the first of the possible
    tools.  The cpu power of the constraints makes no difference.  It
    panics only when there are no possible tools or no attempt at all. *)
Theorem acquireNode_retries (attempts : nat) (environ : Environ) (cons : Constraints.Value)
    (possibleTools : list (Tools.Tools Number)) (w : world) :
  match acquireNode attempts environ cons possibleTools w with
  | Returned (acquired, w') =>
      exists k, (k <= attempts)%nat /\
        Maas.requests w' = Maas.requests w ++ replicate k (acquire_request environ cons) /\
        match acquired with
        | inl (_, tools) => head possibleTools = Some tools /\ ((0 < k)%nat \/ attempts = 0%nat)
        | inr _ => (0 < k)%nat \/ attempts = 0%nat
        end
  | Panicked _ => possibleTools = [] \/ attempts = 0%nat
  end /\
  (forall power,
     acquireNode attempts environ
       (Constraints.mkValue (Constraints.Arch cons) (Constraints.CpuCores cons)
                            (Constraints.Mem cons) power)
       possibleTools w
     = acquireNode attempts environ cons possibleTools w).
Proof. split; [apply acquireNode_requests | done]. Qed.

Lemma start_loop_requests (attempts : nat) (node : MAASObject) (params : Values)
    (err : error) (w : world) :
  exists k,
    (k <= attempts)%nat /\
    Maas.requests (start_loop attempts node params (Some err) w).2
    = Maas.requests w ++ replicate k (Maas.mkRequest (URI node) "start" params) /\
    match (start_loop attempts node params (Some err) w).1 with
    | None => (0 < k)%nat
    | Some e => k = attempts /\ (attempts = 0%nat -> e = err)
    end.
Proof.
  revert err w. induction attempts as [|attempts IH]; intros err w; cbn.
  - exists 0%nat. split_and!; [done | by rewrite app_nil_r | done | done].
  - pose proof (CallPost_requests node "start" params w) as Hreq.
    destruct (Maas.CallPost post URI node "start" params w) as [[result|err'] w1];
      cbn in Hreq.
    + exists 1%nat. destruct attempts; cbn; split_and!; done || lia.
    + destruct (IH err' w1) as (k & Hk & Hrequests & Hresult).
      exists (S k). split_and!; [lia | |].
      * rewrite Hrequests, Hreq. apply replicate_snoc_cons.
      * destruct (start_loop attempts node params (Some err') w1).1; [|lia].
        destruct Hresult as [-> _]. done.
Qed.

Lemma startNode_requests (attempts : nat) (node : MAASObject) (series userdata : string)
    (w : world) :
  exists k,
    (k <= attempts)%nat /\
    Maas.requests (startNode attempts node series userdata w).2
    = Maas.requests w ++ replicate k (start_request node series userdata) /\
    match (startNode attempts node series userdata w).1 with
    | None => (0 < k)%nat
    | Some _ => k = attempts
    end.
Proof.
  unfold startNode.
  destruct (start_loop_requests attempts node
              {[ "distro_series" := [series]; "user_data" := [EncodeToString userdata] ]}
              (Errorf "(no error)" []) w) as (k & Hk & Hrequests & Hresult).
  exists k. split_and!; [done | done |].
  destruct (start_loop _ _ _ _ _).1; [by destruct Hresult | done].
Qed.

(** X27.  startNode posts the same start request, with the series and
    the encoded user data, at most as often as the retry strategy allows,
    and no other request.  When it returns nil at least one request was
    posted; when it returns an error every attempt allowed was made.
    With no attempt at all it returns its sentinel, the error
    "(no error)", and posts nothing. *)
Theorem startNode_retries (attempts : nat) (node : MAASObject) (series userdata : string)
    (w : world) :
  (exists k,
     (k <= attempts)%nat /\
     Maas.requests (startNode attempts node series userdata w).2
     = Maas.requests w ++ replicate k (start_request node series userdata) /\
     match (startNode attempts node series userdata w).1 with
     | None => (0 < k)%nat
     | Some _ => k = attempts
     end) /\
  startNode 0 node series userdata w = (Some (Errorf "(no error)" []), w).
Proof. split; [apply startNode_requests | done]. Qed.

Lemma releaseInstance_last (instance : maasInstance) (w : world) :
  last (Maas.requests (Maas.releaseInstance post URI ∅ instance w).2)
  = Some (release_request (Maas.maasObject _ _ instance)).
Proof.
  unfold Maas.releaseInstance.
  pose proof (CallPost_requests (Maas.maasObject _ _ instance) "release" ∅ w) as Hreq.
  destruct (Maas.CallPost post URI _ "release" ∅ w) as [[result|err] w1];
    cbn in Hreq |- *; by rewrite Hreq, last_snoc.
Qed.

Lemma single_series_tools (possibleTools : list (Tools.Tools Number)) (series : string) :
  Tools.AllSeries possibleTools = [series] -> possibleTools <> [].
Proof.
  intros Hseries ->.
  assert (series ∈ Tools.AllSeries (Number := Number) []) as Hin
    by (rewrite Hseries; apply list_elem_of_here).
  apply Tools.elem_of_collect in Hin as (tools & Hin & _). by apply elem_of_nil in Hin.
Qed.

Lemma start_acquired_result (starting : nat) (environ : Environ) (cons : Constraints.Value)
    (instance : maasInstance) (series : string) (mcfg : MachineConfig) (w : world) :
  match start_acquired starting environ cons instance series mcfg w with
  | ((Some started, None), _, w') =>
      started = instance /\
      exists userdata,
        last (Maas.requests w')
        = Some (start_request (Maas.maasObject _ _ instance) series userdata)
  | ((None, Some _), _, _) => True
  | _ => False
  end.
Proof.
  unfold start_acquired.
  destruct (DNSName instance w) as [[hostname|err] w1]; [|done].
  destruct (cloudinitRunCmd instance hostname w1) as [[runCmd|err] w2]; [|done].
  destruct (FinishMachineConfig mcfg environ cons w2) as [[mcfg' [err|]] w3]; [done |].
  destruct (userData mcfg' runCmd w3) as [[userdata|err] w4]; [|done].
  destruct (startNode_requests starting (Maas.maasObject _ _ instance) series userdata w4)
    as (k & Hk & Hrequests & Hresult).
  destruct (startNode starting _ series userdata w4) as [[err|] w5]; [done |].
  cbn in Hrequests, Hresult. split; [done |]. exists userdata.
  rewrite Hrequests. destruct k as [|k]; [lia |]. apply last_replicate.
Qed.

(** X28.  obtainNode does not keep a node it could not start.  Once
    acquireNode has returned a node, obtainNode either returns the
    instance of that node without error, and then the last request sent
    is the start of that node with the single series of the possible
    tools; or it returns an error and no instance, and then the last
    request sent is the release of that node, whatever the release
    answered. *)
Theorem obtainNode_releases_failed_node (acquiring starting : nat) (environ : Environ)
    (machineId : string) (cons : Constraints.Value)
    (possibleTools : list (Tools.Tools Number)) (mcfg : MachineConfig) (w : world)
    (series : string) (node : MAASObject) (tools : Tools.Tools Number) (w1 : world) :
  Tools.AllSeries possibleTools = [series] ->
  acquireNode acquiring environ cons possibleTools w = Returned (inl (node, tools), w1) ->
  match obtainNode acquiring starting environ machineId cons possibleTools mcfg w with
  | Returned ((Some instance, None), _, w') =>
      instance = Maas.mkInstance node environ /\
      exists userdata,
        last (Maas.requests w') = Some (start_request node series userdata)
  | Returned ((None, Some _), _, w') =>
      last (Maas.requests w') = Some (release_request node)
  | _ => False
  end.
Proof.
  intros Hseries Hacquired. unfold obtainNode. rewrite Hseries, Hacquired.
  cbn [mbind outcome_bind obind].
  pose proof (start_acquired_result starting environ cons (Maas.mkInstance node environ)
                series (set_Tools mcfg tools) w1) as Hstarted.
  destruct (start_acquired starting environ cons _ series _ w1)
    as [[[[started|] [err|]] mcfg'] w2]; cbn [snd]; try done.
  pose proof (releaseInstance_last (Maas.mkInstance node environ) w2) as Hlast.
  by destruct (Maas.releaseInstance post URI ∅ _ w2) as [released w3].
Qed.

(** X29.  With at least one attempt to acquire, obtainNode never
    panics: it takes the first of the possible tools only when they have
    a single series, and then there is one.  Unless the possible tools
    have exactly one series it fails with "expected single series"
    without sending anything and without touching the machine
    configuration; when acquireNode fails it fails with "cannot run
    instances", releases nothing and leaves the machine configuration as
    it was. *)
Theorem obtainNode_returns (acquiring starting : nat) (environ : Environ)
    (machineId : string) (cons : Constraints.Value)
    (possibleTools : list (Tools.Tools Number)) (mcfg : MachineConfig) (w : world) :
  (exists result,
     obtainNode (S acquiring) starting environ machineId cons possibleTools mcfg w
     = Returned result) /\
  (length (Tools.AllSeries possibleTools) <> 1%nat ->
     obtainNode acquiring starting environ machineId cons possibleTools mcfg w
     = Returned ((None, Some (ErrNew ("expected single series, got "
                                      +:+ format_strings (Tools.AllSeries possibleTools)))),
                 mcfg, w)) /\
  (forall err w1,
     length (Tools.AllSeries possibleTools) = 1%nat ->
     acquireNode acquiring environ cons possibleTools w = Returned (inr err, w1) ->
     obtainNode acquiring starting environ machineId cons possibleTools mcfg w
     = Returned ((None, Some (ErrNew ("cannot run instances: " +:+ Error Quote err))),
                 mcfg, w1)).
Proof.
  split_and!.
  - unfold obtainNode.
    destruct (Tools.AllSeries possibleTools) as [|series [|second rest]] eqn:Hseries;
      [by eexists | | by eexists].
    pose proof (acquireNode_requests (S acquiring) environ cons possibleTools w) as Hacq.
    destruct (acquireNode (S acquiring) environ cons possibleTools w)
      as [[[[node tools]|err] w1]|msg]; cbn [mbind outcome_bind obind].
    + destruct (start_acquired starting environ cons _ series _ w1)
        as [[[started [err|]] mcfg'] w2]; cbn [snd]; [|by eexists].
      destruct (Maas.releaseInstance post URI ∅ _ w2). by eexists.
    + by eexists.
    + destruct Hacq as [->|?]; [|done]. by apply single_series_tools in Hseries.
  - intros Hlen. unfold obtainNode.
    by destruct (Tools.AllSeries possibleTools) as [|series [|second rest]].
  - intros err w1 Hlen Hacq. unfold obtainNode.
    destruct (Tools.AllSeries possibleTools) as [|series [|second rest]]; [done | | done].
    by rewrite Hacq.
Qed.

End Nodes.

(** ** Examples *)

(** A server with one free node; whether it lets the node start is its
    state.  Objects are known by their URI. *)
Definition sample_post (server : bool) (req : Maas.request Values)
    : (string + error) * bool :=
  if decide (Maas.operation _ req = "acquire") then (inl "/api/nodes/node-1/", server)
  else if decide (Maas.operation _ req = "start") then
    (if server then inl EmptyString else inr (ErrNew "node cannot start"), server)
  else (inl EmptyString, server).

Definition precise_tools : list (Tools.Tools Version.Number) := take 2 Tools.sample_tools.

Definition sample_obtainNode (starts : bool)
    : outcome ((option (Maas.maasInstance string unit) * option error)
               * option (Tools.Tools Version.Number) * Maas.world bool Values) :=
  obtainNode sample_post (fun uri => uri) (fun result => inl result)
    (fun _ => "/api/") (fun obj name => obj +:+ name) (Panicked "nil pointer dereference")
    (fun userdata => userdata) (fun s => s)
    (fun _ w => (inl "node-1.maas", w))
    (fun _ hostname w => (inl ("hostname " +:+ hostname), w))
    (fun mcfg _ _ w => ((mcfg, None), w))
    (fun _ runCmd w => (inl runCmd, w))
    (fun _ tools => Some tools)
    1 1 tt "1" (Constraints.mkValue (Some "amd64") None (Some 2048%N) (Some 100%N))
    precise_tools None (Maas.mkWorld starts []).

Example obtainNode_starts :
  exists instance mcfg w,
    sample_obtainNode true = Returned ((Some instance, None), mcfg, w) /\
    Maas.maasObject _ _ instance = "/api/nodes/node-1/" /\
    mcfg = head precise_tools /\
    Maas.operation _ <$> Maas.requests w = ["acquire"; "start"] /\
    Maas.parameters _ <$> head (Maas.requests w)
    = Some {[ "arch" := ["amd64"]; "mem" := ["2048"] ]}.
Proof. do 3 eexists. split_and!; vm_compute; reflexivity. Qed.

Example obtainNode_cannot_start :
  exists mcfg w,
    sample_obtainNode false = Returned ((None, Some (ErrNew "node cannot start")), mcfg, w) /\
    Maas.operation _ <$> Maas.requests w = ["acquire"; "start"; "release"].
Proof. do 2 eexists. split; vm_compute; reflexivity. Qed.

(** X28 on the server that does not let the node start. *)
Lemma obtainNode_releases_failed_node_witness :
  match sample_obtainNode false with
  | Returned ((Some instance, None), _, w') =>
      instance = Maas.mkInstance "/api/nodes/node-1/" tt /\
      exists userdata,
        last (Maas.requests w')
        = Some (start_request (fun uri => uri) (fun userdata => userdata)
                              "/api/nodes/node-1/" "precise" userdata)
  | Returned ((None, Some _), _, w') =>
      last (Maas.requests w') = Some (release_request (fun uri => uri) "/api/nodes/node-1/")
  | _ => False
  end.
Proof.
  apply (obtainNode_releases_failed_node sample_post (fun uri => uri) (fun result => inl result)
           (fun _ => "/api/") (fun obj name => obj +:+ name) (Panicked "nil pointer dereference")
           (fun userdata => userdata) (fun s => s)
           (fun _ w => (inl "node-1.maas", w))
           (fun _ hostname w => (inl ("hostname " +:+ hostname), w))
           (fun mcfg _ _ w => ((mcfg, None), w))
           (fun _ runCmd w => (inl runCmd, w))
           (fun _ tools => Some tools)
           1 1 tt "1" (Constraints.mkValue (Some "amd64") None (Some 2048%N) (Some 100%N))
           precise_tools None (Maas.mkWorld false [])
           "precise" "/api/nodes/node-1/"
           (Tools.mkTools (Version.mkNumber 1 2 3 0) "precise" "amd64"
              "http://tools/1.2.3-precise-amd64.tgz")
           (Maas.mkWorld false
              [Maas.mkRequest "/api/nodes/" "acquire"
                 (convertConstraints
                    (Constraints.mkValue (Some "amd64") None (Some 2048%N) (Some 100%N)))]));
    vm_compute; reflexivity.
Defined.

End MaasNodes.
